(** * monitor-telegram-message: message classification, deduplication and
      expiry deletion, embedded from the JavaScript sources

    Conventions of the embedding.
    - A JavaScript string is the list of its UTF-16 code units ([jsstring]).
    - Integral JavaScript numbers and big integers are exact integers ([Z]);
      [NaN] is the [None] of an [option Z].
    - A [Map] is a finite map ([gmap]); the insertion order of a [Map] is not
      observed by the code modelled here.
    - A call into the Telegram client or the Bot API is a function on an
      abstract world; a call that throws returns its failure as a value and
      every [try]/[catch] of the source is a [match] on it.
    - [console.log] and friends are not modelled.

    The definitions follow the source files; the properties come after
    them, one section per subject. *)

From Stdlib Require Import ZArith NArith List Bool Ascii String Lia.
From Stdlib Require DecimalPos.
From stdpp Require Import gmap list.

Local Open Scope Z_scope.

(** ** JavaScript strings *)

Module JS.

Abbreviation jsstring := (list N).

(** Code units of an ASCII literal. *)
Definition u (s : string) : jsstring := map N_of_ascii (list_ascii_of_string s).

Definition inRange (lo hi c : N) : bool := ((lo <=? c) && (c <=? hi))%N.

(** [\d] *)
Definition isDigit (c : N) : bool := inRange 48 57 c.

(** [\w], that is [A-Za-z0-9_] *)
Definition isWordChar (c : N) : bool :=
  inRange 97 122 c || inRange 65 90 c || isDigit c || (c =? 95)%N.

(** Line terminators: the code units [.] does not match. *)
Definition isLineTerminator (c : N) : bool :=
  ((c =? 10) || (c =? 13) || (c =? 0x2028) || (c =? 0x2029))%N.

(** [\s]: white space and line terminators; also what [trim] removes. *)
Definition isWhiteSpace (c : N) : bool :=
  (inRange 9 13 c || (c =? 32) || (c =? 0xA0) || (c =? 0x1680)
   || inRange 0x2000 0x200A c || (c =? 0x2028) || (c =? 0x2029)
   || (c =? 0x202F) || (c =? 0x205F) || (c =? 0x3000) || (c =? 0xFEFF))%N.

Fixpoint startsWith (p s : jsstring) : bool :=
  match p, s with
  | [], _ => true
  | x :: p', y :: s' => (x =? y)%N && startsWith p' s'
  | _ :: _, [] => false
  end.

(** [s.includes(k)] *)
Fixpoint includes (s k : jsstring) : bool :=
  startsWith k s || match s with [] => false | _ :: s' => includes s' k end.

Fixpoint takeWhile (p : N -> bool) (s : jsstring) : jsstring :=
  match s with
  | c :: s' => if p c then c :: takeWhile p s' else []
  | [] => []
  end.

Fixpoint dropWhile (p : N -> bool) (s : jsstring) : jsstring :=
  match s with
  | c :: s' => if p c then dropWhile p s' else s
  | [] => []
  end.

(** [s.trim()] *)
Definition trim (s : jsstring) : jsstring :=
  rev (dropWhile isWhiteSpace (rev (dropWhile isWhiteSpace s))).

(** [s.split(',')]: never empty, [''.split(',')] is [['']]. *)
Fixpoint splitComma (s : jsstring) : list jsstring :=
  match s with
  | [] => [[]]
  | c :: s' =>
      if (c =? 44)%N then [] :: splitComma s'
      else match splitComma s' with
           | w :: ws => (c :: w) :: ws
           | [] => [[c]]
           end
  end.

Definition present {A : Type} (o : option A) : bool :=
  match o with Some _ => true | None => false end.

(** Truthiness of a string: [Boolean(s)]. *)
Definition truthy (s : jsstring) : bool :=
  match s with [] => false | _ => true end.

Fixpoint uintDigits (d : Decimal.uint) : jsstring :=
  match d with
  | Decimal.Nil => []
  | Decimal.D0 r => 48%N :: uintDigits r
  | Decimal.D1 r => 49%N :: uintDigits r
  | Decimal.D2 r => 50%N :: uintDigits r
  | Decimal.D3 r => 51%N :: uintDigits r
  | Decimal.D4 r => 52%N :: uintDigits r
  | Decimal.D5 r => 53%N :: uintDigits r
  | Decimal.D6 r => 54%N :: uintDigits r
  | Decimal.D7 r => 55%N :: uintDigits r
  | Decimal.D8 r => 56%N :: uintDigits r
  | Decimal.D9 r => 57%N :: uintDigits r
  end.

(** [String(n)] and [n.toString()] of an integer: its decimal digits, with a
    leading [-] when negative.  (For a Number this is the form below
    [10^21]; for a big integer it is the form at every size.) *)
Definition numToString (z : Z) : jsstring :=
  match Z.to_int z with
  | Decimal.Pos d => uintDigits d
  | Decimal.Neg d => 45%N :: uintDigits d
  end.

End JS.

Import JS.

(** ** utils/formatUtils.js *)

(** The values [normalizeId] is called with: [null], [undefined], an
    integer (a Number or a big integer) or a string. *)
Inductive RawId : Type :=
| RawNull
| RawUndefined
| RawInt (z : Z)
| RawStr (s : jsstring).

Definition ToString (raw : RawId) : jsstring :=
  match raw with
  | RawNull => u "null"
  | RawUndefined => u "undefined"
  | RawInt z => numToString z
  | RawStr s => s
  end.

(** The [replace] that removes every run of white space. *)
Definition removeWhitespace (s : jsstring) : jsstring :=
  filter (fun c => isWhiteSpace c = false) s.

(** The optional prefix group, whose alternatives are an optionally signed
    [100] and a lone [-]: the alternatives are tried in order
    and the rest of the pattern matches whatever follows, so the first
    alternative that matches here is the one kept. *)
Definition stripIdPrefix (s : jsstring) : jsstring :=
  if startsWith (u "-100") s then drop 4 s
  else if startsWith (u "100") s then drop 3 s
  else if startsWith (u "-") s then drop 1 s
  else s.

(** The [replace] of [normalizeId], whose pattern is: start of input, the
    optional prefix group, an optional captured run of digits, then any run
    of characters other than line terminators.  The match starts at index 0
    and is replaced by the captured digits; what the last run leaves
    unmatched (from the first line terminator on) stays in the result. *)
Definition replaceIdPattern (s : jsstring) : jsstring :=
  let r := stripIdPrefix s in
  takeWhile isDigit r
    ++ dropWhile (fun c => negb (isLineTerminator c)) (dropWhile isDigit r).

Definition normalizeId (raw : RawId) : jsstring :=
  match raw with
  | RawNull | RawUndefined => []
  | _ => replaceIdPattern (removeWhitespace (ToString raw))
  end.

(** [parseChatIds(chatIds, validateNumeric)]; [None] is a value that is
    not a string or is falsy. *)
Definition parseChatIds (chatIds : option jsstring) (validateNumeric : bool)
  : list jsstring :=
  match chatIds with
  | None => []
  | Some s =>
      if truthy s then
        let result :=
          map (fun id => if startsWith (u "-100") id then drop 4 id else id)
              (filter (fun id => truthy id = true) (map trim (splitComma s))) in
        if validateNumeric
        then filter (fun id => (truthy id && forallb isDigit id) = true) result
        else result
      else []
  end.

(** ** Numbers read from the environment *)

(** Value of a digit in the given radix (10 or 16), if it is one. *)
Definition digitValue (radix : Z) (c : N) : option Z :=
  let v :=
    if isDigit c then Some (Z.of_N c - 48)
    else if inRange 97 122 c then Some (Z.of_N c - 87)
    else if inRange 65 90 c then Some (Z.of_N c - 55)
    else None in
  match v with
  | Some d => if d <? radix then Some d else None
  | None => None
  end.

Definition isRadixDigit (radix : Z) (c : N) : bool :=
  match digitValue radix c with Some _ => true | None => false end.

Definition digitsValue (radix : Z) (ds : jsstring) : Z :=
  fold_left (fun acc c => acc * radix + default 0 (digitValue radix c)) ds 0.

(** [parseInt(s)] without a radix: leading white space is skipped, then an
    optional sign, then an optional [0x]/[0X] (radix 16), then the longest
    run of digits; [None] is [NaN].  The result is the integer the digits
    denote.  The Number the program holds is the nearest one: the same
    integer up to [2^53] in absolute value, and beyond that a Number of the
    same sign, not below [2^53] in absolute value, or an infinity (see
    [toDouble]).  So the sign of the result, and whether it is 0, are those
    of the Number at every size; its value is that of the Number up to
    [2^53]. *)
Definition parseInt (s : jsstring) : option Z :=
  let s1 := dropWhile isWhiteSpace s in
  let '(negative, s2) :=
    match s1 with
    | c :: r => if (c =? 45)%N then (true, r)
                else if (c =? 43)%N then (false, r) else (false, s1)
    | [] => (false, s1)
    end in
  let '(radix, s3) :=
    if startsWith (u "0x") s2 || startsWith (u "0X") s2
    then (16, drop 2 s2) else (10, s2) in
  match takeWhile (isRadixDigit radix) s3 with
  | [] => None
  | ds => Some (if negative then - digitsValue radix ds else digitsValue radix ds)
  end.

(** [process.env.X]: a string, or [undefined] when unset. *)
Definition envToString (v : option jsstring) : jsstring :=
  match v with Some s => s | None => u "undefined" end.

(** [n || d] on numbers: [NaN] and [0] are falsy. *)
Definition numOr (n : option Z) (d : Z) : Z :=
  match n with
  | Some v => if v =? 0 then d else v
  | None => d
  end.

(** ** Numbers

    An integer [z] of the model stands for the Number nearest to it: [z]
    itself up to [2^53] in absolute value, beyond that a multiple of a power
    of two or an infinity.  Arithmetic on the integers is exact; the only
    place where the code depends on more than the sign of a large number, or
    on its being zero, is the text [String] makes of it, modelled here. *)

(** The value of the Number nearest to [z] (of two that are as near, the
    one with the even significand); [None] when [z] rounds to an
    infinity. *)
Definition toDouble (z : Z) : option Z :=
  let a := Z.abs z in
  if a <? 2 ^ 53 then Some z
  else
    let e := Z.log2 a - 52 in
    let q := Z.shiftr a e in
    let r := a - Z.shiftl q e in
    let half := Z.shiftl 1 (e - 1) in
    let q' := if (half <? r) || ((r =? half) && Z.odd q) then q + 1 else q in
    let d := Z.shiftl q' e in
    if 2 ^ 1024 <=? d then None else Some (Z.sgn z * d).

Definition decimalLength (a : Z) : Z := Z.of_nat (length (numToString a)).

Definition roundsTo (v c : Z) : bool :=
  match toDouble c with Some d => d =? v | None => false end.

(** The decimal numbers [s * 10^(n-k)] with a [k]-digit [s] that round to
    the Number [v], from [2^53] on, as pairs [(s, n)]: [s] is one of the two
    [k]-digit numbers around [v / 10^(n-k)]. *)
Definition shortestCandidates (v k : Z) : list (Z * Z) :=
  flat_map (fun n =>
      if n <? k then []
      else
        let p := 10 ^ (n - k) in
        filter (fun sn : Z * Z =>
                  (10 ^ (k - 1) <=? sn.1) && (sn.1 <? 10 ^ k)
                  && roundsTo v (sn.1 * p) = true)
               [(v / p, n); (v / p + 1, n)])
    [decimalLength v; decimalLength v + 1].

(** Of two candidates the one nearer to [v]; of two as near, the even one. *)
Definition closer (v k : Z) (x y : Z * Z) : Z * Z :=
  let dist (sn : Z * Z) := Z.abs (sn.1 * 10 ^ (sn.2 - k) - v) in
  if dist x <? dist y then x
  else if dist y <? dist x then y
  else if Z.even x.1 then x else y.

(** The digits [String] shows for the Number [v], from [2^53] on: as few as
    tell [v] from every other Number (there are at most 17), as [(s, n, k)]
    for the [k] digits [s] and the value [s * 10^(n-k)]. *)
Fixpoint shortestFrom (v k : Z) (fuel : nat) : option (Z * Z * Z) :=
  match fuel with
  | O => None
  | S fuel' =>
      match shortestCandidates v k with
      | x :: rest => Some (fold_left (closer v k) rest x, k)
      | [] => shortestFrom v (k + 1) fuel'
      end
  end.

Definition shortestDigits (v : Z) : option (Z * Z * Z) := shortestFrom v 1 17.

(** [String(x)] of the Number that [z] stands for: the decimal digits of an
    integer below [2^53]; from there to [10^21] the shortest digits that
    tell the Number, filled up with zeros; from [10^21] on the exponent
    form, one digit, then a point and the other digits if there are any,
    then [e+] and the exponent; [Infinity] beyond the largest Number.
    (The search for the digits does not fail: 17 digits tell any Number.) *)
Definition numberToString (z : Z) : jsstring :=
  match toDouble z with
  | None => if z <? 0 then u "-Infinity" else u "Infinity"
  | Some v =>
      if Z.abs v <? 2 ^ 53 then numToString v
      else
        let sign := if v <? 0 then u "-" else [] in
        match shortestDigits (Z.abs v) with
        | Some (s, n, k) =>
            if n <=? 21 then sign ++ numToString (s * 10 ^ (n - k))
            else
              let digits := numToString s in
              sign ++ take 1 digits
                ++ (if k =? 1 then [] else u "." ++ drop 1 digits)
                ++ u "e+" ++ numToString (n - 1)
        | None => sign ++ numToString (Z.abs v)
        end
  end.

(** ** Telegram data *)

(** A peer: which of [userId], [chatId], [channelId] it carries.  The ids
    are big-integer objects, so a present id is truthy whatever its value. *)
Record Peer : Type := {
  userId : option Z;
  chatId : option Z;
  channelId : option Z
}.

(** [message.fromId]: absent, a user peer, or another peer object (whose
    [String] is the text [[object Object]]). *)
Inductive FromId : Type :=
| FromNone
| FromUser (id : Z)
| FromOther.

Record Media : Type := {
  media_title : jsstring;
  media_caption : jsstring
}.

Record Message : Type := {
  msg_id : Z;
  peerId : option Peer;
  fromId : FromId;
  senderId : option Z;
  date : Z;
  (** [className === 'MessageService'] *)
  isService : bool;
  (** [msg.action] is set *)
  action : bool;
  message : jsstring;
  caption : jsstring;
  media : option Media;
  (** one of [photo], [document], [video], [audio], [voice], [sticker] *)
  attachment : bool
}.

Inductive ClassName : Type := ClsUser | ClsChat | ClsChannel.

Record Chat : Type := {
  className : ClassName;
  broadcast : bool;
  chat_id : Z
}.

Record User : Type := {
  (** [me.id], absent when falsy *)
  user_id : option Z;
  accessHash : Z
}.

Record Dialog : Type := { entity : option Chat }.

(** The result of an awaited call: it threw, or it returned. *)
Inductive Attempt (A : Type) : Type :=
| Threw
| Returned (a : A).
Arguments Threw {A}.
Arguments Returned {A} a.

(** A Bot API response: [response.ok], and what [response.json()] gives:
    [result.ok] with [result.result.message_id] (absent when falsy). *)
Record BotJson : Type := {
  json_ok : bool;
  json_message_id : option Z
}.

Record Response : Type := {
  resp_ok : bool;
  resp_json : Attempt BotJson
}.

Inductive BotRequest : Type :=
| BotSendMessage (token chat text : jsstring)
| BotDeleteMessage (token chat : jsstring) (message_id : Z).

(** A reference passed to [client.getEntity]/[getInputEntity]. *)
Inductive EntityRef : Type :=
| RefPeer (p : Peer)
| RefId (id : jsstring)
| RefUser (id : Z).

Record SearchRequest : Type := {
  search_peer : Chat;
  search_fromId : option Z;
  search_accessHash : Z;
  search_minDate : Z;
  search_maxDate : Z;
  search_limit : Z;
  search_offsetId : Z
}.

(** What the program does to the outside, in order. *)
Inductive Event : Type :=
| EvGetMe
| EvGetEntity (r : EntityRef)
| EvGetInputEntity (r : EntityRef)
| EvGetUser (id : Z)
| EvGetDialogs
| EvGetMessages (chat : Chat) (limit : Z)
| EvSearch (q : SearchRequest)
| EvDeleteMessages (chat : Chat) (ids : list Z)
| EvSendMessage (chat : Chat) (text : jsstring)
| EvFetch (q : BotRequest)
| EvSleep (ms : Z).

(** The Telegram client, the Bot API, the clock and the case mapping of the
    runtime, over a world [W].  [clock n] is what the [n]-th reading of
    [Date.now()] returns (in ms). *)
Class Client (W : Type) : Type := {
  clock : nat -> Z;
  (** [s.toLowerCase()] *)
  toLowerCase : jsstring -> jsstring;
  getMe : W -> Attempt (option User) * W;
  getEntity : EntityRef -> W -> Attempt (option Chat) * W;
  getInputEntity : EntityRef -> W -> Attempt (option Chat) * W;
  getUserEntity : Z -> W -> Attempt (option User) * W;
  getDialogs : W -> Attempt (list Dialog) * W;
  getMessages : Chat -> Z -> W -> Attempt (option (list (option Message))) * W;
  searchMessages : SearchRequest -> W -> Attempt (list (option Message)) * W;
  (** [true] when the call resolves, [false] when it throws *)
  deleteMessages : Chat -> list Z -> W -> bool * W;
  (** the id of the sent message, absent when the result or its id is falsy *)
  sendMessage : Chat -> jsstring -> W -> Attempt (option Z) * W;
  fetch : BotRequest -> W -> Attempt Response * W;
  (** the text built by [extractChatInfo], [parseLotteryMessage] and
      [buildFormattedMessage] for a notification *)
  formatNotification : Message -> option Chat -> option jsstring -> jsstring
}.

(** ** Program state *)

(** A dedup entry: [{ ts, text }]. *)
Record Entry : Type := {
  ts : Z;
  text : jsstring
}.

(** The world, the number of clock readings taken so far, the calls made so
    far (oldest first), and the two module-level maps of
    core/telegram-monitor.js. *)
Record State (W : Type) : Type := {
  world : W;
  ticks : nat;
  log : list Event;
  processedMessages : gmap jsstring Entry;
  sentNotificationMessages : gmap jsstring (list Z)
}.
Arguments world {W} _.
Arguments ticks {W} _.
Arguments log {W} _.
Arguments processedMessages {W} _.
Arguments sentNotificationMessages {W} _.

Section Effects.
Context {W : Type} `{Client W}.

Definition M (A : Type) : Type := State W -> A * State W.

#[global] Instance M_ret : MRet M := fun A a st => (a, st).
#[global] Instance M_bind : MBind M :=
  fun A B f m st => let '(a, st') := m st in f a st'.

(** Run a client call on the world and record it. *)
Definition call {A : Type} (e : Event) (op : W -> A * W) : M A :=
  fun st =>
    let '(a, w) := op (world st) in
    (a, {| world := w; ticks := ticks st; log := log st ++ [e];
           processedMessages := processedMessages st;
           sentNotificationMessages := sentNotificationMessages st |}).

(** [Date.now()] *)
Definition dateNow : M Z :=
  fun st =>
    (clock (ticks st),
     {| world := world st; ticks := S (ticks st); log := log st;
        processedMessages := processedMessages st;
        sentNotificationMessages := sentNotificationMessages st |}).

(** [sleep(ms)] *)
Definition sleep (ms : Z) : M unit :=
  fun st =>
    (tt, {| world := world st; ticks := ticks st; log := log st ++ [EvSleep ms];
            processedMessages := processedMessages st;
            sentNotificationMessages := sentNotificationMessages st |}).

Definition getProcessed : M (gmap jsstring Entry) :=
  fun st => (processedMessages st, st).

Definition setProcessed (pm : gmap jsstring Entry) : M unit :=
  fun st =>
    (tt, {| world := world st; ticks := ticks st; log := log st;
            processedMessages := pm;
            sentNotificationMessages := sentNotificationMessages st |}).

Definition getSent : M (gmap jsstring (list Z)) :=
  fun st => (sentNotificationMessages st, st).

Definition setSent (sn : gmap jsstring (list Z)) : M unit :=
  fun st =>
    (tt, {| world := world st; ticks := ticks st; log := log st;
            processedMessages := processedMessages st;
            sentNotificationMessages := sn |}).

(** ** utils/messageUtils.js *)

(** Both ids are big integers when present, compared with [equals]. *)
Definition compareSenderId (sender targetId : option Z) : bool :=
  match sender, targetId with
  | Some s, Some t => s =? t
  | _, _ => false
  end.

(** [a || b] on strings *)
Definition strOr (a b : jsstring) : jsstring := if truthy a then a else b.

Definition extractMessageText (m : Message) : jsstring :=
  strOr (message m)
    (strOr (caption m)
       (match media m with
        | Some md => strOr (media_title md) (media_caption md)
        | None => []
        end)).

(** The display texts of a message without text: the bracketed Chinese for
    [media message] and for [message without content], as code units. *)
Definition mediaMessageText : jsstring := [91; 23186; 20307; 28040; 24687; 93]%N.
Definition emptyMessageText : jsstring :=
  [91; 26080; 20869; 23481; 28040; 24687; 93]%N.

Record MessageContent : Type := {
  content_text : jsstring;
  displayText : jsstring;
  hasMedia : bool
}.

Definition processMessageContent (m : Message) : MessageContent :=
  let t := extractMessageText m in
  let hm := present (media m) || attachment m in
  {| content_text := t;
     displayText :=
       if truthy t then t else if hm then mediaMessageText else emptyMessageText;
     hasMedia := hm |}.

Definition isDeletableMessage (msg : option Message) : bool :=
  match msg with
  | None => false
  | Some m =>
      if isService m || action m then false
      else truthy (message m) || present (media m)
  end.

Definition shouldDeletePreviousNotifications
    (messageText : jsstring) (deleteNotificationKeywords : list jsstring) : bool :=
  match deleteNotificationKeywords with
  | [] => false
  | _ => existsb (fun keyword => includes messageText keyword)
           deleteNotificationKeywords
  end.

(** The Bot API loop of [deletePreviousNotifications]: one [deleteMessage]
    request per id, each in its own [try]; returns [successCount]. *)
Fixpoint botDeleteEach (token chat : jsstring) (ids : list Z) (successCount : Z)
  : M Z :=
  match ids with
  | [] => mret successCount
  | messageId :: rest =>
      let q := BotDeleteMessage token chat messageId in
      r ← call (EvFetch q) (fetch q);
      let ok :=
        match r with
        | Returned resp =>
            resp_ok resp &&
            match resp_json resp with
            | Returned j => json_ok j
            | Threw => false
            end
        | Threw => false
        end in
      botDeleteEach token chat rest (if ok then successCount + 1 else successCount)
  end.

(** The one-by-one loop after a failed bulk delete; returns [successCount]. *)
Fixpoint clientDeleteEach (chatEntity : Chat) (ids : list Z) (successCount : Z)
  : M Z :=
  match ids with
  | [] => mret successCount
  | messageId :: rest =>
      ok ← call (EvDeleteMessages chatEntity [messageId])
             (deleteMessages chatEntity [messageId]);
      clientDeleteEach chatEntity rest
        (if ok : bool then successCount + 1 else successCount)
  end.

(** [client.getEntity(id)], and [client.getInputEntity(id)] when it throws. *)
Definition resolveTarget (id : jsstring) : M (Attempt (option Chat)) :=
  r ← call (EvGetEntity (RefId id)) (getEntity (RefId id));
  match r with
  | Returned e => mret (Returned e)
  | Threw => call (EvGetInputEntity (RefId id)) (getInputEntity (RefId id))
  end.

(** The client branch of [deletePreviousNotifications]: resolve the chat,
    delete in bulk, and one by one when the bulk call throws. *)
Definition clientDeletePrevious (notificationChatId : jsstring)
    (chatNotificationMessages : list Z) : M Z :=
  e ← resolveTarget notificationChatId;
  match e with
  | Returned (Some chatEntity) =>
      ok ← call (EvDeleteMessages chatEntity chatNotificationMessages)
             (deleteMessages chatEntity chatNotificationMessages);
      if ok : bool
      then mret (Z.of_nat (length chatNotificationMessages))
      else clientDeleteEach chatEntity chatNotificationMessages 0
  | Returned None => mret 0
  | Threw => mret 0
  end.

Definition deletePreviousNotifications
    (notificationChatId : jsstring) (telegramBotToken : option jsstring)
  : M unit :=
  sn ← getSent;
  let chatNotificationMessages := default [] (sn !! notificationChatId) in
  match chatNotificationMessages with
  | [] => mret tt
  | _ :: _ =>
      _ ← (match telegramBotToken with
           | Some token =>
               if truthy token
               then botDeleteEach token notificationChatId
                      chatNotificationMessages 0
               else clientDeletePrevious notificationChatId
                      chatNotificationMessages
           | None =>
               clientDeletePrevious notificationChatId chatNotificationMessages
           end);
      sn' ← getSent;
      setSent (<[notificationChatId := []]> sn')
  end.

(** ** utils/telegramUtil.js *)

Fixpoint fetchWithRetryFrom (q : BotRequest) (attempt : Z) (remaining : nat)
  : M (Attempt Response) :=
  match remaining with
  | O => mret Threw
  | S r =>
      a ← call (EvFetch q) (fetch q);
      match a with
      | Returned resp => mret (Returned resp)
      | Threw =>
          _ ← (match r with
               | O => mret tt
               | S _ => sleep (1000 * 2 ^ attempt)
               end);
          fetchWithRetryFrom q (attempt + 1) r
      end
  end.

Definition fetchWithRetry (q : BotRequest) (maxRetries : nat)
  : M (Attempt Response) :=
  fetchWithRetryFrom q 0 maxRetries.

(** Append a dispatched message id to the record of a target. *)
Definition recordSent (targetChatId : jsstring) (messageId : Z) : M unit :=
  sn ← getSent;
  setSent (<[targetChatId := default [] (sn !! targetChatId) ++ [messageId]]> sn).

(** One target of the Bot API branch; the result is the settled promise:
    [Returned response] when fulfilled, [Threw] when rejected. *)
Definition botSendOne (token targetChatId formattedMessage : jsstring)
  : M (Attempt Response) :=
  r ← fetchWithRetry (BotSendMessage token targetChatId formattedMessage) 3;
  match r with
  | Threw => mret Threw
  | Returned response =>
      if resp_ok response then
        match resp_json response with
        | Threw => mret Threw
        | Returned result =>
            _ ← (match json_ok result, json_message_id result with
                 | true, Some mid => recordSent targetChatId mid
                 | _, _ => mret tt
                 end);
            mret (Returned response)
        end
      else mret (Returned response)
  end.

(** The targets are started together by the source and awaited with
    [Promise.allSettled]; here they run one after the other, in order. *)
Fixpoint botSendAll (token : jsstring) (chatIds : list jsstring)
    (formattedMessage : jsstring) : M (list (Attempt Response)) :=
  match chatIds with
  | [] => mret []
  | targetChatId :: rest =>
      r ← botSendOne token targetChatId formattedMessage;
      rs ← botSendAll token rest formattedMessage;
      mret (r :: rs)
  end.

Fixpoint countFulfilledOk (sendResults : list (Attempt Response))
    (successCount : Z) : Z :=
  match sendResults with
  | [] => successCount
  | Returned v :: rest =>
      countFulfilledOk rest (if resp_ok v then successCount + 1 else successCount)
  | Threw :: rest => countFulfilledOk rest successCount
  end.

(** One target of the client branch; [true] when the message was sent. *)
Definition clientSendOne (targetChatId formattedMessage : jsstring) : M bool :=
  e ← resolveTarget targetChatId;
  match e with
  | Returned (Some targetChat) =>
      s ← call (EvSendMessage targetChat formattedMessage)
            (sendMessage targetChat formattedMessage);
      match s with
      | Returned (Some mid) => _ ← recordSent targetChatId mid; mret true
      | _ => mret false
      end
  | _ => mret false
  end.

Fixpoint clientSendAll (chatIds : list jsstring) (formattedMessage : jsstring)
    (successCount : Z) : M Z :=
  match chatIds with
  | [] => mret successCount
  | targetChatId :: rest =>
      ok ← clientSendOne targetChatId formattedMessage;
      clientSendAll rest formattedMessage
        (if ok : bool then successCount + 1 else successCount)
  end.

Definition sendNotification (m : Message) (chat : option Chat)
    (NOTIFICATION_CHAT_ID TELEGRAM_BOT_TOKEN USER_KEYWORDS : option jsstring)
  : M bool :=
  match NOTIFICATION_CHAT_ID with
  | None => mret false
  | Some targets =>
      if negb (truthy targets) then mret false
      else
        let chatIds := map trim (splitComma targets) in
        let formattedMessage := formatNotification m chat USER_KEYWORDS in
        match TELEGRAM_BOT_TOKEN with
        | Some token =>
            if truthy token then
              sendResults ← botSendAll token chatIds formattedMessage;
              mret (0 <? countFulfilledOk sendResults 0)
            else
              successCount ← clientSendAll chatIds formattedMessage 0;
              mret (0 <? successCount)
        | None =>
            successCount ← clientSendAll chatIds formattedMessage 0;
            mret (0 <? successCount)
        end
  end.

(** ** The keyword pattern of [handleMessage] *)

(** The pattern built for a keyword: a word boundary, the keyword with every
    syntax character escaped (so each of its characters is a literal), a
    word boundary; flag [i]. *)
Inductive Atom : Type :=
| WordBoundary
| Literal (c : N).

Definition keywordPattern (keyword : jsstring) : list Atom :=
  WordBoundary :: map Literal keyword ++ [WordBoundary].

Definition asciiUpper (c : N) : N :=
  if inRange 97 122 c then (c - 32)%N else c.

(** Case-insensitive comparison of a literal below 128 with a code unit:
    both are canonicalized by upper-casing, and a code unit from 128 on
    never canonicalizes to one below 128.  (The patterns built by
    [matchKeyword] only have [\w] literals, see [matchKeyword].) *)
Definition canonEq (c d : N) : bool := (asciiUpper c =? asciiUpper d)%N.

Definition isWordAt (c : option N) : bool :=
  match c with Some x => isWordChar x | None => false end.

(** Match the atoms at one position: [prev] is the code unit before the
    position, [s] the input from the position on. *)
Fixpoint matchAtoms (atoms : list Atom) (prev : option N) (s : jsstring) : bool :=
  match atoms with
  | [] => true
  | WordBoundary :: rest =>
      xorb (isWordAt prev) (isWordAt (head s)) && matchAtoms rest prev s
  | Literal c :: rest =>
      match s with
      | d :: s' => canonEq c d && matchAtoms rest (Some d) s'
      | [] => false
      end
  end.

(** [regex.test(s)]: try every start position, left to right. *)
Fixpoint testFrom (atoms : list Atom) (prev : option N) (s : jsstring) : bool :=
  matchAtoms atoms prev s ||
  match s with
  | d :: s' => testFrom atoms (Some d) s'
  | [] => false
  end.

Definition regexTest (atoms : list Atom) (s : jsstring) : bool :=
  testFrom atoms None s.

(** The closure [matchKeyword] of [handleMessage], with the [textLower] it
    captures.  The first test is true as soon as the keyword has a code unit
    outside [\w] (one that is neither [\w] nor white space, or one that is
    white space), so the pattern is built for [\w]-only keywords. *)
Definition matchKeyword (textLower : jsstring) (keywordList : list jsstring)
  : bool :=
  existsb
    (fun keyword =>
       if existsb (fun c => negb (isWordChar c) && negb (isWhiteSpace c)) keyword
          || existsb isWhiteSpace keyword
       then includes textLower keyword
       else regexTest (keywordPattern keyword) textLower)
    keywordList.

(** ** [handleMessage] *)

(** The arguments of [handleMessage] other than the message and the maps. *)
Record Rules : Type := {
  normalizedMonitorIds : list jsstring;
  monitorChatIds : list jsstring;
  targetUserIdsNormalized : list jsstring;
  userKeywordsNormalized : list jsstring;
  monitorKeywordsNormalized : list jsstring;
  SELF_USER_ID_NORMALIZED : jsstring;
  BOT_USER_ID_NORMALIZED : jsstring;
  NOTIFICATION_CHAT_ID : option jsstring;
  TELEGRAM_BOT_TOKEN : option jsstring;
  USER_KEYWORDS : option jsstring;
  normalizedNotMonitorIds : list jsstring;
  deleteNotificationKeywords : list jsstring
}.

(** Where [handleMessage] returns. *)
Inductive Outcome : Type :=
| PrivateChat
| BroadcastChannel
| Excluded
| RetractedInNotificationChat
| OwnBotMessage
| OwnMessage
| NotInMonitorList
| NotMonitored
| EmptyContent
| NoKeywordMatch
| Duplicate (dedupKey : jsstring)
| Notified (dedupKey : jsstring) (sent : bool)
| Failed.

Definition isMember (x : jsstring) (l : list jsstring) : bool :=
  bool_decide (x ∈ l).

Definition strEq (a b : jsstring) : bool := bool_decide (a = b).

(** [deletePreviousNotifications] for every id of
    [NOTIFICATION_CHAT_ID.split(',')], trimmed. *)
Fixpoint deleteForTargets (notificationChatIds : list jsstring)
    (token : option jsstring) : M unit :=
  match notificationChatIds with
  | [] => mret tt
  | target :: rest =>
      _ ← deletePreviousNotifications target token;
      deleteForTargets rest token
  end.

(** Steps 1 and 2: the chat entity and the chat id; [None] when
    [handleMessage] returns there. *)
Definition resolveChat (m : Message)
  : M (option (option Chat * RawId)) :=
  match peerId m with
  | None => mret (Some (None, RawNull))
  | Some p =>
      r ← call (EvGetEntity (RefPeer p)) (getEntity (RefPeer p));
      match r with
      | Returned (Some chat) =>
          if match className chat with ClsChannel => broadcast chat | _ => false end
          then mret None
          else mret (Some (Some chat, RawStr (numToString (chat_id chat))))
      | _ =>
          mret (Some (None,
            match channelId p, chatId p, userId p with
            | Some c, _, _ => RawStr (u "-100" ++ numToString c)
            | None, Some c, _ => RawStr (u "-" ++ numToString c)
            | None, None, Some c => RawStr (numToString c)
            | None, None, None => RawNull
            end))
      end
  end.

Definition rawSenderId (from : FromId) : RawId :=
  match from with
  | FromNone => RawUndefined
  | FromUser id => RawInt id
  | FromOther => RawStr (u "[object Object]")
  end.

(** From the dedup key on: the end of [handleMessage]. *)
Definition dedupAndNotify (r : Rules) (m : Message) (chat : option Chat)
    (normalizedChatId text : jsstring) : M Outcome :=
  let dedupKey := normalizedChatId ++ u ":" ++ numToString (msg_id m) in
  pm ← getProcessed;
  match pm !! dedupKey with
  | Some prev =>
      _ ← dateNow;
      mret (Duplicate dedupKey)
  | None =>
      now ← dateNow;
      _ ← setProcessed (<[dedupKey := {| ts := now; text := text |}]> pm);
      sent ← sendNotification m chat (NOTIFICATION_CHAT_ID r)
               (TELEGRAM_BOT_TOKEN r) (USER_KEYWORDS r);
      mret (Notified dedupKey sent)
  end.

(** From step 5 on. *)
Definition handleMonitored (r : Rules) (m : Message) (chat : option Chat)
    (normalizedChatId normalizedSenderId : jsstring) : M Outcome :=
  let isMonitored :=
    match normalizedMonitorIds r with
    | [] => true
    | _ => truthy normalizedChatId
           && isMember normalizedChatId (normalizedMonitorIds r)
    end in
  if match monitorChatIds r with [] => false | _ => negb isMonitored end
  then mret NotInMonitorList
  else
    let isMonitored :=
      if negb isMonitored then
        match peerId m with
        | Some p =>
            match chatId p, channelId p with
            | Some old, Some _ =>
                isMember (normalizeId (RawStr (u "-" ++ numToString old)))
                  (normalizedMonitorIds r)
            | _, _ => false
            end
        | None => false
        end
      else true in
    if negb isMonitored then mret NotMonitored
    else
      let text := displayText (processMessageContent m) in
      if negb (truthy text) then mret EmptyContent
      else
        let shouldCheckDeleteKeyword :=
          match targetUserIdsNormalized r with
          | [] => true
          | _ => truthy normalizedSenderId
                 && isMember normalizedSenderId (targetUserIdsNormalized r)
          end in
        let retract :=
          match deleteNotificationKeywords r with
          | [] => false
          | _ => shouldCheckDeleteKeyword
                 && shouldDeletePreviousNotifications text
                      (deleteNotificationKeywords r)
          end in
        let classify : M Outcome :=
          let textLower := toLowerCase text in
          let isTargetUser :=
            match targetUserIdsNormalized r with
            | [] => false
            | _ => truthy normalizedSenderId
                   && isMember normalizedSenderId (targetUserIdsNormalized r)
            end in
          let hasUserKeyword := matchKeyword textLower (userKeywordsNormalized r) in
          let hasMonitorKeyword :=
            matchKeyword textLower (monitorKeywordsNormalized r) in
          let shouldProcessMessage :=
            if isTargetUser
               && (match userKeywordsNormalized r with [] => true | _ => false end
                   || hasUserKeyword)
            then true
            else if hasMonitorKeyword then true
            else match monitorKeywordsNormalized r, userKeywordsNormalized r with
                 | [], [] => true
                 | _, _ => false
                 end in
          if negb shouldProcessMessage then mret NoKeywordMatch
          else dedupAndNotify r m chat normalizedChatId text in
        if retract then
          match NOTIFICATION_CHAT_ID r with
          | None => mret Failed
          | Some targets =>
              _ ← deleteForTargets (map trim (splitComma targets))
                    (TELEGRAM_BOT_TOKEN r);
              classify
          end
        else classify.

Definition handleMessage (r : Rules) (m : Message) : M Outcome :=
  if match peerId m with Some p => present (userId p) | None => false end
  then mret PrivateChat
  else
    c ← resolveChat m;
    match c with
    | None => mret BroadcastChannel
    | Some (chat, rawChatId) =>
        let normalizedChatId := normalizeId rawChatId in
        let normalizedNotifChatId :=
          normalizeId (match NOTIFICATION_CHAT_ID r with
                       | Some s => RawStr s
                       | None => RawUndefined
                       end) in
        if isMember normalizedChatId (normalizedNotMonitorIds r)
        then mret Excluded
        else
          let normalizedSenderId := normalizeId (rawSenderId (fromId m)) in
          let continue : M Outcome :=
            if truthy normalizedSenderId && truthy (BOT_USER_ID_NORMALIZED r)
               && strEq normalizedSenderId (BOT_USER_ID_NORMALIZED r)
            then mret OwnBotMessage
            else if truthy normalizedSenderId
                    && strEq normalizedSenderId (SELF_USER_ID_NORMALIZED r)
            then mret OwnMessage
            else handleMonitored r m chat normalizedChatId normalizedSenderId in
          if strEq normalizedChatId normalizedNotifChatId then
            let text := displayText (processMessageContent m) in
            if match deleteNotificationKeywords r with
               | [] => false
               | _ => shouldDeletePreviousNotifications text
                        (deleteNotificationKeywords r)
               end
            then
              match NOTIFICATION_CHAT_ID r with
              | None => mret Failed
              | Some targets =>
                  _ ← deleteForTargets (map trim (splitComma targets))
                        (TELEGRAM_BOT_TOKEN r);
                  if match normalizedMonitorIds r with
                     | [] => true
                     | _ => truthy normalizedChatId
                            && isMember normalizedChatId (normalizedMonitorIds r)
                     end
                  then mret RetractedInNotificationChat
                  else continue
              end
            else continue
          else handleMonitored r m chat normalizedChatId normalizedSenderId
    end.

(** ** core/telegram-monitor.js *)

(** The [config] object of [initializeMonitoring]. *)
Record Config : Type := {
  monitorChatIdsRaw : option jsstring;
  notMonitorChatIdsRaw : option jsstring;
  monitorKeywordsRaw : option jsstring;
  autoDeleteMinutes : Z;
  notificationChatId : option jsstring;
  telegramBotToken : option jsstring;
  targetUserIdsRaw : option jsstring;
  userKeywordsRaw : option jsstring;
  dedupWindowMinutes : Z;
  deleteNotificationKeywordsRaw : option jsstring
}.

Definition parseConfigList (rawConfig : option jsstring) : list jsstring :=
  match rawConfig with
  | Some s =>
      if truthy s
      then filter (fun item => truthy item = true) (map trim (splitComma s))
      else []
  | None => []
  end.

Definition normalizeIds (ids : list jsstring) : list jsstring :=
  filter (fun id => truthy id = true) (map (fun id => normalizeId (RawStr id)) ids).

Definition normalizeKeywords (keywords : list jsstring) : list jsstring :=
  filter (fun k => truthy k = true) (map toLowerCase keywords).

Record MonitoringData : Type := {
  md_rules : Rules;
  md_autoDeleteMinutes : Z;
  md_dedupWindowMinutes : Z
}.

(** What [initializeMonitoring] computes from its configuration: the
    arguments it passes to [handleMessage] on every update and the data
    it returns.  [self] and [bot] are the normalized ids it obtains from
    [client.getMe()] and [fetchBotInfo].  Its [parseInt] is given the
    window as a Number and reads the text [String] makes of it. *)
Definition initializeMonitoring (config : Config) (self bot : jsstring)
  : MonitoringData :=
  let monitorChatIds := parseConfigList (monitorChatIdsRaw config) in
  {| md_rules :=
       {| normalizedMonitorIds := normalizeIds monitorChatIds;
          monitorChatIds := monitorChatIds;
          targetUserIdsNormalized :=
            normalizeIds (parseConfigList (targetUserIdsRaw config));
          userKeywordsNormalized :=
            normalizeKeywords (parseConfigList (userKeywordsRaw config));
          monitorKeywordsNormalized :=
            normalizeKeywords (parseConfigList (monitorKeywordsRaw config));
          SELF_USER_ID_NORMALIZED := self;
          BOT_USER_ID_NORMALIZED := bot;
          NOTIFICATION_CHAT_ID := notificationChatId config;
          TELEGRAM_BOT_TOKEN := telegramBotToken config;
          USER_KEYWORDS := userKeywordsRaw config;
          normalizedNotMonitorIds :=
            normalizeIds (parseConfigList (notMonitorChatIdsRaw config));
          deleteNotificationKeywords :=
            parseConfigList (deleteNotificationKeywordsRaw config) |};
     md_autoDeleteMinutes := autoDeleteMinutes config;
     md_dedupWindowMinutes :=
       numOr (parseInt (numberToString (dedupWindowMinutes config)))
             (Z.max 1 (autoDeleteMinutes config)) |}.

(** The keys are collected first and deleted afterwards, as in the source. *)
Definition cleanupProcessedMessages (dedupWindowMinutes : Z) : M unit :=
  now ← dateNow;
  let ttl := dedupWindowMinutes * 60 * 1000 in
  pm ← getProcessed;
  let keysToDelete :=
    map fst (filter (fun kv : jsstring * Entry => now - ts kv.2 > ttl)
               (map_to_list pm)) in
  setProcessed (foldr delete pm keysToDelete).

(** The period of the sweep timer set by [startCleanupInterval]. *)
Definition CLEANUP_INTERVAL_MS : Z := 60 * 1000.

(** The longest delay a timer of Node takes, in ms. *)
Definition TIMEOUT_MAX : Z := 2147483647.

(** The delay a timer of Node runs with, for [setTimeout(callback, after)]
    and [setInterval(callback, after)] alike: a delay below 1 or above
    [TIMEOUT_MAX] is replaced by 1 ms. *)
Definition timerDelay (after : Z) : Z :=
  if (1 <=? after) && (after <=? TIMEOUT_MAX) then after else 1.

(** [startAutoDeleteInterval]: the period of the timer it sets, or [None]
    when it sets none. *)
Definition startAutoDeleteInterval (intervalMs : Z) : option Z :=
  if 0 <? intervalMs then Some (timerDelay intervalMs) else None.

(** ** core/message-deleter.js *)

(** The variables of [process.env] read by the program. *)
Record ProcessEnv : Type := {
  env_AUTO_DELETE_MINUTES : option jsstring;
  env_DEDUP_WINDOW_MINUTES : option jsstring;
  env_NOT_MONITOR_CHAT_IDS : option jsstring;
  env_DELETE_CONCURRENCY : option jsstring;
  env_DELETE_BATCH_SIZE : option jsstring;
  env_MONITOR_CHAT_IDS : option jsstring;
  env_MONITOR_KEYWORDS : option jsstring;
  env_NOTIFICATION_CHAT_ID : option jsstring;
  env_TELEGRAM_BOT_TOKEN : option jsstring;
  env_TARGET_USER_IDS : option jsstring;
  env_USER_KEYWORDS : option jsstring;
  env_DELETE_NOTIFICATION_KEYWORDS : option jsstring
}.

Definition RECENT_LIMIT : Z := 200.

(** The loop of [getRecentMessagesRealtime] over the fetched messages. *)
Fixpoint recentLoop (messages : list (option Message)) (myUserId : option Z)
    (cutoffTime : Z) (recentMessages : list Message) : M (list Message) :=
  match messages with
  | [] => mret recentMessages
  | None :: rest => recentLoop rest myUserId cutoffTime recentMessages
  | Some msg :: rest =>
      now ← dateNow;
      if date msg <? now / 1000 - 600 then mret recentMessages
      else if negb (isDeletableMessage (Some msg))
      then recentLoop rest myUserId cutoffTime recentMessages
      else if compareSenderId (senderId msg) myUserId && (date msg <? cutoffTime)
      then recentLoop rest myUserId cutoffTime (recentMessages ++ [msg])
      else recentLoop rest myUserId cutoffTime recentMessages
  end.

Definition getRecentMessagesRealtime (chat : Chat) (myUserId : option Z)
    (cutoffTime : Z) : M (list Message) :=
  r ← call (EvGetMessages chat RECENT_LIMIT) (getMessages chat RECENT_LIMIT);
  match r with
  | Returned (Some messages) => recentLoop messages myUserId cutoffTime []
  | Returned None => mret []
  | Threw => mret []
  end.

Definition expiredOf (cutoffTime : Z) (messages : list (option Message))
  : list Message :=
  omap (fun o =>
          match o with
          | Some msg =>
              if isDeletableMessage (Some msg) && (date msg <? cutoffTime)
              then Some msg else None
          | None => None
          end) messages.

(** The paging loop of [searchOlderMessages]; [Threw] is the [catch], which
    returns the empty list. *)
Fixpoint searchLoop (chat : Chat) (userId : option Z) (userAccessHash : Z)
    (cutoffTime todayStartTimestamp searchMaxDate offsetId : Z)
    (pagesLeft : nat) (olderMessages : list Message)
  : M (Attempt (list Message)) :=
  match pagesLeft with
  | O => mret (Returned olderMessages)
  | S pagesLeft' =>
      let q := {| search_peer := chat; search_fromId := userId;
                  search_accessHash := userAccessHash;
                  search_minDate := todayStartTimestamp;
                  search_maxDate := searchMaxDate;
                  search_limit := 100; search_offsetId := offsetId |} in
      r ← call (EvSearch q) (searchMessages q);
      match r with
      | Threw => mret Threw
      | Returned [] => mret (Returned olderMessages)
      | Returned messages =>
          let olderMessages' := olderMessages ++ expiredOf cutoffTime messages in
          let offsetId' :=
            match last messages with
            | Some (Some msg) => msg_id msg
            | _ => 0
            end in
          if Z.of_nat (length messages) <? 100
          then mret (Returned olderMessages')
          else
            _ ← sleep 200;
            searchLoop chat userId userAccessHash cutoffTime todayStartTimestamp
              searchMaxDate offsetId' pagesLeft' olderMessages'
      end
  end.

Definition searchOlderMessages (chat : Chat) (userId : option Z)
    (userAccessHash cutoffTime todayStartTimestamp : Z) : M (list Message) :=
  now ← dateNow;
  let searchMaxDate := now / 1000 - 600 in
  r ← searchLoop chat userId userAccessHash cutoffTime todayStartTimestamp
        searchMaxDate 0 10 [];
  match r with
  | Returned olderMessages => mret olderMessages
  | Threw => mret []
  end.

Record DeleteResult : Type := {
  deleted : Z;
  failed : Z
}.

(** The one-by-one loop of [safeDeleteMessages]. *)
Fixpoint deleteOneByOne (chat : Chat) (ids : list Z) (deleted failed : Z)
  : M DeleteResult :=
  match ids with
  | [] => mret {| deleted := deleted; failed := failed |}
  | id :: rest =>
      ok ← call (EvDeleteMessages chat [id]) (deleteMessages chat [id]);
      _ ← sleep 120;
      if ok : bool
      then deleteOneByOne chat rest (deleted + 1) failed
      else deleteOneByOne chat rest deleted (failed + 1)
  end.

Definition safeDeleteMessages (chat : Chat) (ids : list Z) : M DeleteResult :=
  ok ← call (EvDeleteMessages chat ids) (deleteMessages chat ids);
  if ok : bool
  then mret {| deleted := Z.of_nat (length ids); failed := 0 |}
  else deleteOneByOne chat ids 0 0.

(** Merge by message id, the first occurrence of an id wins. *)
Fixpoint mergeById (messages : list Message) (seen : list Z) : list Message :=
  match messages with
  | [] => []
  | msg :: rest =>
      if bool_decide (msg_id msg ∈ seen) then mergeById rest seen
      else msg :: mergeById rest (msg_id msg :: seen)
  end.

Record ScanResult : Type := {
  scan_chat : Chat;
  expiredMessages : list Message
}.

(** One scan task.  The source awaits both passes with [Promise.all]; here
    the recent pass runs first. *)
Definition scanTask (chat : Chat) (fullUser : User) (cutoffTime : Z)
  : M ScanResult :=
  recentExpired ← getRecentMessagesRealtime chat (user_id fullUser) cutoffTime;
  olderExpired ← searchOlderMessages chat (user_id fullUser) (accessHash fullUser)
                   cutoffTime 0;
  mret {| scan_chat := chat;
          expiredMessages := mergeById (recentExpired ++ olderExpired) [] |}.

(** The tasks of one slice of [runInBatches]: the source starts them
    together and awaits them with [Promise.all]; here they run in order. *)
Fixpoint scanBatch (chats : list Chat) (fullUser : User) (cutoffTime : Z)
  : M (list ScanResult) :=
  match chats with
  | [] => mret []
  | c :: rest =>
      r ← scanTask c fullUser cutoffTime;
      rs ← scanBatch rest fullUser cutoffTime;
      mret (r :: rs)
  end.

(** [runInBatches] over the scan tasks: slices of [concurrency] tasks, one
    slice after the other.  [fuel] bounds the number of slices. *)
Fixpoint runInBatches (chats : list Chat) (fullUser : User) (cutoffTime : Z)
    (concurrency : nat) (fuel : nat) (scanResults : list ScanResult)
  : M (list ScanResult) :=
  match fuel, chats with
  | _, [] => mret scanResults
  | O, _ => mret scanResults
  | S fuel', _ =>
      rs ← scanBatch (take concurrency chats) fullUser cutoffTime;
      runInBatches (drop concurrency chats) fullUser cutoffTime concurrency fuel'
        (scanResults ++ rs)
  end.

(** The batches of one chat in the delete phase; returns the counts. *)
Fixpoint deleteInBatches (chat : Chat) (messageIds : list Z) (batchSize : nat)
    (fuel : nat) (acc : DeleteResult) : M DeleteResult :=
  match fuel, messageIds with
  | _, [] => mret acc
  | O, _ => mret acc
  | S fuel', _ =>
      r ← safeDeleteMessages chat (take batchSize messageIds);
      _ ← sleep 150;
      deleteInBatches chat (drop batchSize messageIds) batchSize fuel'
        {| deleted := deleted acc + deleted r; failed := failed acc + failed r |}
  end.

Fixpoint deletePhase (scanResults : list ScanResult) (batchSize : nat)
    (total : DeleteResult) : M DeleteResult :=
  match scanResults with
  | [] => mret total
  | res :: rest =>
      match expiredMessages res with
      | [] => deletePhase rest batchSize total
      | msgs =>
          let messageIds := map msg_id msgs in
          r ← deleteInBatches (scan_chat res) messageIds batchSize
                (length messageIds) {| deleted := 0; failed := 0 |};
          deletePhase rest batchSize
            {| deleted := deleted total + deleted r;
               failed := failed total + failed r |}
      end
  end.

Definition isGroupDialog (notMonitorChatIds : list jsstring) (dialog : Dialog)
  : bool :=
  match entity dialog with
  | None => false
  | Some chat =>
      match className chat with
      | ClsUser => false
      | ClsChannel =>
          if broadcast chat then false
          else
            let id := normalizeId (RawInt (chat_id chat)) in
            truthy id && negb (isMember id notMonitorChatIds)
      | ClsChat =>
          let id := normalizeId (RawInt (chat_id chat)) in
          truthy id && negb (isMember id notMonitorChatIds)
      end
  end.

(** [deleteExpiredMessages(client)].  The result is [None] when it returns
    at its guard ("disabled"), and the counts of the delete phase otherwise
    ([0], [0] when it returns or fails before that phase). *)
Definition deleteExpiredMessages (env : ProcessEnv) : M (option DeleteResult) :=
  let none := Some {| deleted := 0; failed := 0 |} in
  let AUTO_DELETE_MINUTES :=
    numOr (parseInt (envToString (env_AUTO_DELETE_MINUTES env))) 10 in
  if AUTO_DELETE_MINUTES <=? 0 then mret None
  else
    me ← call EvGetMe getMe;
    match me with
    | Returned (Some {| user_id := Some myId |}) =>
        fullUser ← call (EvGetUser myId) (getUserEntity myId);
        match fullUser with
        | Returned (Some fullUser) =>
            now ← dateNow;
            let nowTimestamp := now / 1000 in
            let cutoffTime := nowTimestamp - AUTO_DELETE_MINUTES * 60 in
            let notMonitorChatIds :=
              parseChatIds (env_NOT_MONITOR_CHAT_IDS env) false in
            dialogs ← call EvGetDialogs getDialogs;
            match dialogs with
            | Threw => mret none
            | Returned dialogs =>
                let groupDialogs :=
                  omap (fun d => if isGroupDialog notMonitorChatIds d
                                 then entity d else None) dialogs in
                match groupDialogs with
                | [] => mret none
                | _ =>
                    let DELETE_CONCURRENCY :=
                      Z.max 1 (numOr (parseInt (envToString
                                 (env_DELETE_CONCURRENCY env))) 3) in
                    scanResults ← runInBatches groupDialogs fullUser cutoffTime
                                    (Z.to_nat DELETE_CONCURRENCY)
                                    (length groupDialogs) [];
                    let DELETE_BATCH_SIZE :=
                      Z.max 1 (numOr (parseInt (envToString
                                 (env_DELETE_BATCH_SIZE env))) 100) in
                    r ← deletePhase scanResults (Z.to_nat DELETE_BATCH_SIZE)
                          {| deleted := 0; failed := 0 |};
                    mret (Some r)
                end
            end
        | _ => mret none
        end
    | _ => mret none
    end.

(** ** realtime-monitor.js *)

Definition AUTO_DELETE_MINUTES (env : ProcessEnv) : Z :=
  numOr (parseInt (envToString (env_AUTO_DELETE_MINUTES env))) 10.

Definition DEDUP_WINDOW_MINUTES (env : ProcessEnv) : Z :=
  numOr (parseInt (envToString (env_DEDUP_WINDOW_MINUTES env)))
        (Z.max 1 (AUTO_DELETE_MINUTES env)).

(** The configuration [startMonitoring] passes to [initializeMonitoring]. *)
Definition monitoringConfig (env : ProcessEnv) : Config :=
  {| monitorChatIdsRaw := env_MONITOR_CHAT_IDS env;
     notMonitorChatIdsRaw := env_NOT_MONITOR_CHAT_IDS env;
     monitorKeywordsRaw := env_MONITOR_KEYWORDS env;
     autoDeleteMinutes := AUTO_DELETE_MINUTES env;
     notificationChatId := env_NOTIFICATION_CHAT_ID env;
     telegramBotToken := env_TELEGRAM_BOT_TOKEN env;
     targetUserIdsRaw := env_TARGET_USER_IDS env;
     userKeywordsRaw := env_USER_KEYWORDS env;
     dedupWindowMinutes := DEDUP_WINDOW_MINUTES env;
     deleteNotificationKeywordsRaw := env_DELETE_NOTIFICATION_KEYWORDS env |}.

Definition intervalMs (monitoringData : MonitoringData) : Z :=
  if 0 <? md_autoDeleteMinutes monitoringData
  then Z.max 1 (md_autoDeleteMinutes monitoringData) * 60 * 1000
  else 0.

(** What makes the running service act: an update carrying a message, the
    cleanup timer, the auto-delete timer. *)
Inductive Trigger : Type :=
| Update (m : Message)
| CleanupTimer
| AutoDeleteTimer.

(** One reaction of the service started by [startMonitoring].  Handlers are
    taken to run one at a time.  The auto-delete timer only exists when
    [startAutoDeleteInterval] set it. *)
Definition react (env : ProcessEnv) (monitoringData : MonitoringData)
    (t : Trigger) : M unit :=
  match t with
  | Update m => _ ← handleMessage (md_rules monitoringData) m; mret tt
  | CleanupTimer =>
      cleanupProcessedMessages (md_dedupWindowMinutes monitoringData)
  | AutoDeleteTimer =>
      match startAutoDeleteInterval (intervalMs monitoringData) with
      | Some _ => _ ← deleteExpiredMessages env; mret tt
      | None => mret tt
      end
  end.

Fixpoint reactAll (env : ProcessEnv) (monitoringData : MonitoringData)
    (ts : list Trigger) : M unit :=
  match ts with
  | [] => mret tt
  | t :: rest =>
      _ ← react env monitoringData t;
      reactAll env monitoringData rest
  end.

End Effects.


(** ** Notions used to state the properties *)

(** [k] occurs in [s]. *)
Definition Substring (k s : jsstring) : Prop :=
  exists pre post, s = pre ++ k ++ post.

(** [a] and [b] are equal up to the case of ASCII letters. *)
Definition SameIgnoringCase (a b : jsstring) : Prop :=
  Forall2 (fun x y => asciiUpper x = asciiUpper y) a b.

(** There is a word boundary between two neighbours: exactly one of them is
    a word character (the ends of the text count as non-word). *)
Definition Boundary (before after : option N) : Prop :=
  isWordAt before <> isWordAt after.

(** [k] occurs in [s] up to case, with a word boundary on each side of the
    occurrence. *)
Definition WordBoundaryMatch (k s : jsstring) : Prop :=
  exists pre mid post,
    s = pre ++ mid ++ post /\ SameIgnoringCase mid k
    /\ Boundary (last pre) (head (mid ++ post))
    /\ Boundary (last (pre ++ mid)) (head post).

(** [k] occurs in [s] the way a keyword of its kind has to: at word
    boundaries and up to the case of ASCII letters when every code unit of
    [k] is a word character (a letter or digit of ASCII, or the
    underscore), anywhere in [s] and as it is written otherwise. *)
Definition KeywordOccurs (k s : jsstring) : Prop :=
  if forallb isWordChar k then WordBoundaryMatch k s else Substring k s.

(** The code unit before the position reached after reading [read]. *)
Definition lastOr (prev : option N) (read : jsstring) : option N :=
  match last read with Some c => Some c | None => prev end.

(** Test data: the keyword of the red-packet messages. *)
Definition hongbao : jsstring := [32418; 21253]%N.

(** ** A client for examples *)

Definition asciiLower (c : N) : N :=
  if inRange 65 90 c then (c + 32)%N else c.

(** A client for examples: every lookup, search, fetch and send throws,
    [deleteOk] says which delete calls resolve, and [getMessages] returns
    [history].  Its clock reads [clk n] at the [n]-th reading; its
    [toLowerCase] is the one of ASCII text. *)
Definition testClient (deleteOk : list Z -> bool) (history : list (option Message))
    (clk : nat -> Z) : Client unit :=
  {| clock := clk;
     toLowerCase := map asciiLower;
     getMe := fun w => (Threw, w);
     getEntity := fun _ w => (Threw, w);
     getInputEntity := fun _ w => (Threw, w);
     getUserEntity := fun _ w => (Threw, w);
     getDialogs := fun w => (Threw, w);
     getMessages := fun _ _ w => (Returned (Some history), w);
     searchMessages := fun _ w => (Threw, w);
     deleteMessages := fun _ ids w => (deleteOk ids, w);
     sendMessage := fun _ _ w => (Threw, w);
     fetch := fun _ w => (Threw, w);
     formatNotification := fun m _ _ => displayText (processMessageContent m) |}.

Definition initialState {W : Type} (w : W) : State W :=
  {| world := w; ticks := 0; log := [];
     processedMessages := ∅; sentNotificationMessages := ∅ |}.

(** ** Outcomes of the one-by-one deletes *)

(** Whether each single delete of [ids], made in order from world [w],
    resolves. *)
Fixpoint singleDeleteOutcomes {W : Type} `{Client W} (chat : Chat) (ids : list Z)
    (w : W) : list bool :=
  match ids with
  | [] => []
  | id :: rest =>
      let '(ok, w') := deleteMessages chat [id] w in
      ok :: singleDeleteOutcomes chat rest w'
  end.

Definition countb (b : bool) (l : list bool) : Z :=
  Z.of_nat (length (filter (fun x => x = b) l)).

(** The calls of the fallback: each id alone, each followed by its pause. *)
Definition singleDeleteCalls (chat : Chat) (ids : list Z) : list Event :=
  flat_map (fun id => [EvDeleteMessages chat [id]; EvSleep 120]) ids.

(** The client of the batch example: the bulk call fails, and so do the
    single deletes of ids 2 and 4. *)
Definition flakyDelete (ids : list Z) : bool :=
  match ids with
  | [id] => negb ((id =? 2) || (id =? 4))
  | _ => false
  end.

Definition someChat : Chat :=
  {| className := ClsChat; broadcast := false; chat_id := 77 |}.

(** A text message of user 42, sent at [sentAt] (in seconds). *)
Definition ownTextAt (sentAt : Z) : Message :=
  {| msg_id := sentAt; peerId := None; fromId := FromUser 42;
     senderId := Some 42; date := sentAt; isService := false; action := false;
     message := u "hello"; caption := []; media := None; attachment := false |}.

(** The time [T] of the boundary scenario, in seconds. *)
Definition scenarioT : Z := 1700000000.

(** ** Notions used in the proofs *)

(** The calls that dispatch a notification. *)
Definition isSend (e : Event) : bool :=
  match e with
  | EvSendMessage _ _ => true
  | EvFetch (BotSendMessage _ _ _) => true
  | _ => false
  end.

Definition sendEvents (l : list Event) : list Event :=
  List.filter isSend l.

(** One step of reading a decimal numeral. *)
Definition decimalStep (acc : Z) (c : N) : Z :=
  acc * 10 + default 0 (digitValue 10 c).

Section ProofNotions.
Context {W : Type} `{Client W}.

(** Every run of [m] takes a state to one related to it by [R]. *)
Definition preserves (R : relation (State W)) {A : Type} (m : @M W A) : Prop :=
  forall st, R st (m st).2.

(** The dedup map is as it was, and no clock reading was taken back. *)
Definition quiet : relation (State W) :=
  fun st st' =>
    processedMessages st' = processedMessages st /\ (ticks st <= ticks st')%nat.

(** [quiet], and no notification was dispatched. *)
Definition calm : relation (State W) :=
  fun st st' => quiet st st' /\ sendEvents (log st') = sendEvents (log st).

(** The dispatch records are as they were. *)
Definition sentKept : relation (State W) :=
  fun st st' => sentNotificationMessages st' = sentNotificationMessages st.

(** The deletions of [deletePreviousNotifications], before the record is
    cleared. *)
Definition deleteRecorded (target : jsstring) (token : option jsstring)
    (ids : list Z) : @M W Z :=
  match token with
  | Some t => if truthy t then botDeleteEach t target ids 0
              else clientDeletePrevious target ids
  | None => clientDeletePrevious target ids
  end.

(** What a run of [handleMessage] from [st] may leave behind: it returns
    [Notified k] only for a key that was absent, which it then records with
    the time it read; it returns [Duplicate k] only for a key that was
    present; in every other case the dedup map is untouched and no
    notification was dispatched. *)
Definition handled (st : State W) (r : Outcome * State W) : Prop :=
  (ticks st <= ticks r.2)%nat
  /\ match r.1 with
     | Notified k _ =>
         processedMessages st !! k = None
         /\ exists n txt,
              (ticks st <= n < ticks r.2)%nat
              /\ processedMessages r.2
                 = <[k := {| ts := clock n; text := txt |}]> (processedMessages st)
     | Duplicate k =>
         is_Some (processedMessages st !! k)
         /\ processedMessages r.2 = processedMessages st
         /\ sendEvents (log r.2) = sendEvents (log st)
     | _ =>
         processedMessages r.2 = processedMessages st
         /\ sendEvents (log r.2) = sendEvents (log st)
     end.

Definition handledBy (m : @M W Outcome) : Prop :=
  forall st, handled st (m st).

End ProofNotions.

(** ** Test data for [handleMessage] *)

(** Monitor every chat, no keyword lists, notifications to one channel
    through the client (no bot token). *)
Definition monitorAll : Rules :=
  {| normalizedMonitorIds := []; monitorChatIds := [];
     targetUserIdsNormalized := []; userKeywordsNormalized := [];
     monitorKeywordsNormalized := [];
     SELF_USER_ID_NORMALIZED := u "42"; BOT_USER_ID_NORMALIZED := [];
     NOTIFICATION_CHAT_ID := Some (u "-1009000"); TELEGRAM_BOT_TOKEN := None;
     USER_KEYWORDS := None; normalizedNotMonitorIds := [];
     deleteNotificationKeywords := [] |}.

(** Message 55 of user 7 in the basic group 4242. *)
Definition groupMessage : Message :=
  {| msg_id := 55;
     peerId := Some {| userId := None; chatId := Some 4242; channelId := None |};
     fromId := FromUser 7; senderId := Some 7; date := 1700000000;
     isService := false; action := false; message := u "hello";
     caption := []; media := None; attachment := false |}.

Definition groupMessageKey : jsstring := u "4242:55".

(** A message of a group that was migrated: its peer carries the old chat
    id 12345 and the new channel id 67890. *)
Definition migratedMessage : Message :=
  {| msg_id := 9;
     peerId := Some {| userId := None; chatId := Some 12345;
                       channelId := Some 67890 |};
     fromId := FromUser 7; senderId := Some 7; date := 1700000000;
     isService := false; action := false; message := u "hello";
     caption := []; media := None; attachment := false |}.

(** The environment with nothing set. *)
Definition emptyEnv : ProcessEnv :=
  {| env_AUTO_DELETE_MINUTES := None; env_DEDUP_WINDOW_MINUTES := None;
     env_NOT_MONITOR_CHAT_IDS := None; env_DELETE_CONCURRENCY := None;
     env_DELETE_BATCH_SIZE := None; env_MONITOR_CHAT_IDS := None;
     env_MONITOR_KEYWORDS := None; env_NOTIFICATION_CHAT_ID := None;
     env_TELEGRAM_BOT_TOKEN := None; env_TARGET_USER_IDS := None;
     env_USER_KEYWORDS := None; env_DELETE_NOTIFICATION_KEYWORDS := None |}.

(** The allow-list holds the old id of the migrated group. *)
Definition oldIdEnv : ProcessEnv :=
  {| env_AUTO_DELETE_MINUTES := None; env_DEDUP_WINDOW_MINUTES := None;
     env_NOT_MONITOR_CHAT_IDS := None; env_DELETE_CONCURRENCY := None;
     env_DELETE_BATCH_SIZE := None; env_MONITOR_CHAT_IDS := Some (u "-12345");
     env_MONITOR_KEYWORDS := None; env_NOTIFICATION_CHAT_ID := None;
     env_TELEGRAM_BOT_TOKEN := None; env_TARGET_USER_IDS := None;
     env_USER_KEYWORDS := None; env_DELETE_NOTIFICATION_KEYWORDS := None |}.

(** [AUTO_DELETE_MINUTES=0] *)
Definition zeroAutoDeleteEnv : ProcessEnv :=
  {| env_AUTO_DELETE_MINUTES := Some (u "0"); env_DEDUP_WINDOW_MINUTES := None;
     env_NOT_MONITOR_CHAT_IDS := None; env_DELETE_CONCURRENCY := None;
     env_DELETE_BATCH_SIZE := None; env_MONITOR_CHAT_IDS := None;
     env_MONITOR_KEYWORDS := None; env_NOTIFICATION_CHAT_ID := None;
     env_TELEGRAM_BOT_TOKEN := None; env_TARGET_USER_IDS := None;
     env_USER_KEYWORDS := None; env_DELETE_NOTIFICATION_KEYWORDS := None |}.

(** [AUTO_DELETE_MINUTES=-5] *)
Definition negativeAutoDeleteEnv : ProcessEnv :=
  {| env_AUTO_DELETE_MINUTES := Some (u "-5"); env_DEDUP_WINDOW_MINUTES := None;
     env_NOT_MONITOR_CHAT_IDS := None; env_DELETE_CONCURRENCY := None;
     env_DELETE_BATCH_SIZE := None; env_MONITOR_CHAT_IDS := None;
     env_MONITOR_KEYWORDS := None; env_NOTIFICATION_CHAT_ID := None;
     env_TELEGRAM_BOT_TOKEN := None; env_TARGET_USER_IDS := None;
     env_USER_KEYWORDS := None; env_DELETE_NOTIFICATION_KEYWORDS := None |}.

(** [DEDUP_WINDOW_MINUTES=-5] *)
Definition negativeWindowEnv : ProcessEnv :=
  {| env_AUTO_DELETE_MINUTES := None; env_DEDUP_WINDOW_MINUTES := Some (u "-5");
     env_NOT_MONITOR_CHAT_IDS := None; env_DELETE_CONCURRENCY := None;
     env_DELETE_BATCH_SIZE := None; env_MONITOR_CHAT_IDS := None;
     env_MONITOR_KEYWORDS := None; env_NOTIFICATION_CHAT_ID := None;
     env_TELEGRAM_BOT_TOKEN := None; env_TARGET_USER_IDS := None;
     env_USER_KEYWORDS := None; env_DELETE_NOTIFICATION_KEYWORDS := None |}.

Definition localUser : User := {| user_id := Some 42; accessHash := 1 |}.

(** A client with a session: the local user is 42, the only dialog is
    [someChat], [getMessages] returns [history], the search returns [found],
    every delete resolves, and the clock always reads [now] (in ms). *)
Definition liveClient (history found : list (option Message)) (now : Z)
  : Client unit :=
  {| clock := fun _ => now;
     toLowerCase := map asciiLower;
     getMe := fun w => (Returned (Some localUser), w);
     getEntity := fun _ w => (Threw, w);
     getInputEntity := fun _ w => (Threw, w);
     getUserEntity := fun _ w => (Returned (Some localUser), w);
     getDialogs := fun w => (Returned [ {| entity := Some someChat |} ], w);
     getMessages := fun _ _ w => (Returned (Some history), w);
     searchMessages := fun _ w => (Returned found, w);
     deleteMessages := fun _ _ w => (true, w);
     sendMessage := fun _ _ w => (Threw, w);
     fetch := fun _ w => (Threw, w);
     formatNotification := fun m _ _ => displayText (processMessageContent m) |}.

(** [DEDUP_WINDOW_MINUTES=1] *)
Definition oneMinuteWindowEnv : ProcessEnv :=
  {| env_AUTO_DELETE_MINUTES := None; env_DEDUP_WINDOW_MINUTES := Some (u "1");
     env_NOT_MONITOR_CHAT_IDS := None; env_DELETE_CONCURRENCY := None;
     env_DELETE_BATCH_SIZE := None; env_MONITOR_CHAT_IDS := None;
     env_MONITOR_KEYWORDS := None; env_NOTIFICATION_CHAT_ID := None;
     env_TELEGRAM_BOT_TOKEN := None; env_TARGET_USER_IDS := None;
     env_USER_KEYWORDS := None; env_DELETE_NOTIFICATION_KEYWORDS := None |}.

(** A clock for the window scenario (in ms): the readings are 0, 59999,
    60001, then 119999, 120000, ... *)
Definition windowClock (n : nat) : Z :=
  if (n <? 1)%nat then 0
  else if (n <? 2)%nat then 59999
  else if (n <? 3)%nat then 60001
  else 119996 + Z.of_nat n.

(** ** utils/formatUtils.js: the text of a notification *)

(** [text.replace(pattern, replacement)] for a global pattern that is the
    one character [c]. *)
Fixpoint replaceAll (c : N) (replacement : jsstring) (s : jsstring) : jsstring :=
  match s with
  | [] => []
  | x :: r => (if (x =? c)%N then replacement else [x]) ++ replaceAll c replacement r
  end.

(** The closure [escapeHtml] of [buildFormattedMessage], on a string (every
    other value gives the empty string, as the empty string does). *)
Definition escapeHtml (text : jsstring) : jsstring :=
  if truthy text then
    replaceAll 39 (u "&#039;")
      (replaceAll 34 (u "&quot;")
         (replaceAll 62 (u "&gt;")
            (replaceAll 60 (u "&lt;")
               (replaceAll 38 (u "&amp;") text))))
  else [].

(** What [parseLotteryMessage] returns when it returns an object. *)
Record Prize : Type := {
  prize_name : jsstring;
  prize_count : Z
}.

Record LotteryInfo : Type := {
  createTime : option jsstring;
  prizes : list Prize;
  keyword : option jsstring;
  creator : option jsstring;
  autoOpenCount : option Z
}.

(** A heading of the lottery layout: the bold tag around an icon, a space,
    two ideographs separated by an ideographic space and a full-width
    colon; then a space. *)
Definition heading (icon : jsstring) (first second : N) : jsstring :=
  u "<b>" ++ icon ++ [32; first; 12288; second; 65306]%N ++ u "</b>".

(** The icons, as code units: bell, flag, crown, clock, family, copyright
    sign, gift, memo. *)
Definition iconBell : jsstring := [55357; 56596]%N.
Definition iconFlag : jsstring := [55357; 57001]%N.
Definition iconCrown : jsstring := [55357; 56401]%N.
Definition iconClock : jsstring := [55357; 56662]%N.
Definition iconFamily : jsstring :=
  [55357; 56425; 8205; 55357; 56423; 8205; 55357; 56423]%N.
Definition iconCopyright : jsstring := [169; 65039]%N.
Definition iconGift : jsstring := [55356; 57217]%N.
Definition iconMemo : jsstring := [55357; 56541]%N.

(** The title line of the lottery layout (its text is the Chinese for
    lottery and red-packet reminder) and the heading of the plain layout
    (message content). *)
Definition lotteryTitle : jsstring :=
  u "<b>" ++ iconBell
    ++ [32; 25277; 22870; 32418; 21253; 25552; 37266; 36890; 30693]%N
    ++ u "</b>" ++ [10; 10]%N.

Definition plainHeading : jsstring :=
  [10]%N ++ u "<b>" ++ [28040; 24687; 20869; 23481; 58]%N ++ u "</b>" ++ [10]%N.

(** The hint after the keyword (click to copy), in brackets. *)
Definition copyHint : jsstring :=
  [32; 40; 28857; 20987; 21487; 22797; 21046; 41; 10]%N.

Definition prizeLine (prize : Prize) : jsstring :=
  u "               " ++ escapeHtml (prize_name prize)
    ++ [32; 215; 32]%N ++ numToString (prize_count prize) ++ [10]%N.

(** [buildFormattedMessage], with the arguments [sendNotification] passes:
    the title and the id of the chat are strings, [fromId] is the id of the
    message, [lotteryInfo] is what [parseLotteryMessage] returned ([None]
    is [null]).  Nothing in its [try] block throws on such values. *)
Definition buildFormattedMessage (chatTitle chatId : jsstring) (fromId : Z)
    (lotteryInfo : option LotteryInfo) (displayText : jsstring) : jsstring :=
  let escapedChatTitle := escapeHtml chatTitle in
  let escapedChatId := escapeHtml chatId in
  match lotteryInfo with
  | Some info =>
      lotteryTitle
      ++ (heading iconFlag 32676 32452 ++ u " " ++ escapedChatTitle
            ++ u " (ID: " ++ escapedChatId ++ u ")" ++ [10]%N)
      ++ match creator info with
         | Some c => heading iconCrown 36130 31070 ++ u " " ++ escapeHtml c ++ [10]%N
         | None => []
         end
      ++ match createTime info with
         | Some t => heading iconClock 26102 38388 ++ u " " ++ escapeHtml t ++ [10]%N
         | None => []
         end
      ++ match autoOpenCount info with
         | Some n => heading iconFamily 21442 19982 ++ u " " ++ numToString n
                       ++ [32; 20154; 10]%N
         | None => []
         end
      ++ match keyword info with
         | Some k => heading iconCopyright 21475 20196 ++ u " <code>"
                       ++ escapeHtml k ++ u "</code>" ++ copyHint
         | None => []
         end
      ++ match prizes info with
         | [] => []
         | ps => heading iconGift 22870 21697 ++ [10]%N ++ flat_map prizeLine ps
         end
      ++ (heading iconMemo 38142 25509 ++ u " https://t.me/c/" ++ escapedChatId
            ++ u "/" ++ numToString fromId)
  | None => plainHeading ++ escapeHtml displayText
  end.

(** ** delete-all-history.js *)

(** What the purge script observes beyond [Client]: the message of a
    thrown error, and the connection. *)
Class Session (W : Type) : Type := {
  (** [error.message] of the error thrown by the last call that threw,
      read from the world the call left; [None] when it has none *)
  errorMessage : W -> option jsstring;
  (** [client.start(..)]: [true] when it resolves, [false] when it throws *)
  clientStart : W -> bool * W;
  (** [client.destroy()] *)
  clientDestroy : W -> bool * W
}.

(** [CONFIG] *)
Definition BATCH_SIZE : nat := 100.
Definition FETCH_LIMIT : Z := 100.
Definition BATCH_DELAY : Z := 1000.
Definition CHAT_DELAY : Z := 2000.

(** The pattern of [handleFloodWait], which is the text [FLOOD_WAIT_]
    followed by a captured run of one or more digits: the capture of the
    first match, if there is one. *)
Fixpoint matchFloodWait (s : jsstring) : option jsstring :=
  match s with
  | [] => None
  | _ :: r =>
      if startsWith (u "FLOOD_WAIT_") s then
        match takeWhile isDigit (drop 11 s) with
        | [] => matchFloodWait r
        | digits => Some digits
        end
      else matchFloodWait r
  end.

(** The seconds to wait that [handleFloodWait] reads from the message of
    an error, if it finds any.  ([parseInt] of the capture is never [NaN]:
    the capture is a run of digits.) *)
Definition floodWaitSeconds (message : option jsstring) : option Z :=
  match message with
  | Some s =>
      if includes s (u "FLOOD_WAIT") then
        match matchFloodWait s with
        | Some digits => Some (default 0 (parseInt digits))
        | None => None
        end
      else None
  | None => None
  end.

(** The messages of the two [TypeError]s the script can raise itself (the
    texts are those of V8). *)
Definition nullIdError : jsstring :=
  u "Cannot read properties of null (reading 'id')".
Definition undefinedToStringError : jsstring :=
  u "Cannot read properties of undefined (reading 'toString')".

Definition shouldProcessChat (chat : Chat) : bool :=
  match className chat with
  | ClsUser => false
  | ClsChannel => negb (broadcast chat)
  | ClsChat => true
  end.

(** The filter of [fetchMessagesFromChat] over one page; [None] when its
    callback throws ([currentUserId] is [undefined] and some message has a
    truthy id). *)
Definition validMessages (batch : list (option Message)) (currentUserId : option Z)
  : option (list Message) :=
  match currentUserId with
  | Some uid =>
      Some (omap (fun o =>
                    match o with
                    | Some msg =>
                        if msg_id msg =? 0 then None
                        else if match fromId msg with
                                | FromUser id => strEq (numToString id) (numToString uid)
                                | _ => false
                                end
                        then if isDeletableMessage (Some msg) then Some msg else None
                        else None
                    | None => None
                    end) batch)
  | None =>
      if existsb (fun o => match o with
                           | Some msg => negb (msg_id msg =? 0)
                           | None => false
                           end) batch
      then None else Some []
  end.

(** What one chat gave: [{ chatTitle, messageCount, error }], without the
    title. *)
Record ChatResult : Type := {
  messageCount : Z;
  failedWith : bool
}.

(** The filter callback of [filterDialogs] on the entity of a dialog. *)
Definition keepDialog (notMonitorChatIds monitorChatIds : list jsstring)
    (limited : bool) (chat : Chat) : bool :=
  let chatId := numToString (chat_id chat) in
  if isMember chatId notMonitorChatIds then false
  else if negb (shouldProcessChat chat) then false
  else negb (limited && negb (isMember chatId monitorChatIds)).

(** [filterDialogs]: the entities of the dialogs kept.  The callback reads
    [chat.id] of every dialog, so a dialog without entity makes it throw. *)
Definition filterDialogs (notMonitorChatIds monitorChatIds : list jsstring)
    (limited : bool) (dialogs : list Dialog) : Attempt (list Chat) :=
  if forallb (fun d => present (entity d)) dialogs
  then Returned (filter (fun chat => keepDialog notMonitorChatIds monitorChatIds
                                       limited chat = true)
                   (omap entity dialogs))
  else Threw.

Section Purge.
Context {W : Type} `{Client W} `{Session W}.

(** A call that is not recorded in the log: the connection calls. *)
Definition perform {A : Type} (op : W -> A * W) : @M W A :=
  fun st =>
    let '(a, w) := op (world st) in
    (a, {| world := w; ticks := ticks st; log := log st;
           processedMessages := processedMessages st;
           sentNotificationMessages := sentNotificationMessages st |}).

(** [error.message] in a [catch] block. *)
Definition thrownMessage : @M W (option jsstring) :=
  fun st => (errorMessage (world st), st).

(** [handleFloodWait(error, retries)] on the message of the error.  Every
    caller leaves [retries] out, so it is 0; the power is the one of
    JavaScript for the non-negative integers. *)
Definition handleFloodWait (message : option jsstring) (retries : Z) : @M W bool :=
  match floodWaitSeconds message with
  | Some waitSeconds =>
      _ ← sleep (waitSeconds * 1000);
      mret true
  | None =>
      if retries <? 3 then
        _ ← sleep (1000 * 2 ^ retries);
        mret true
      else mret false
  end.

(** The paging loop of [fetchMessagesFromChat], with the pages it may still
    ask for.  It returns the messages collected and, when something threw
    inside the [try] block, the message of the error. *)
Fixpoint fetchPages (pagesLeft : nat) (chat : Chat) (currentUserId : option Z)
    (currentUserAccessHash offsetId : Z) (messages : list Message)
  : @M W (list Message * option (option jsstring)) :=
  match pagesLeft with
  | O => mret (messages, None)
  | S pagesLeft' =>
      let q := {| search_peer := chat; search_fromId := currentUserId;
                  search_accessHash := currentUserAccessHash;
                  search_minDate := 0; search_maxDate := 0;
                  search_limit := FETCH_LIMIT; search_offsetId := offsetId |} in
      r ← call (EvSearch q) (searchMessages q);
      match r with
      | Threw =>
          message ← thrownMessage;
          mret (messages, Some message)
      | Returned [] => mret (messages, None)
      | Returned batch =>
          match validMessages batch currentUserId with
          | None => mret (messages, Some (Some undefinedToStringError))
          | Some valid =>
              let messages' := messages ++ valid in
              match last batch with
              | Some (Some lastMessage) =>
                  if Z.of_nat (length batch) <? FETCH_LIMIT
                  then mret (messages', None)
                  else
                    _ ← sleep BATCH_DELAY;
                    fetchPages pagesLeft' chat currentUserId
                      currentUserAccessHash (msg_id lastMessage) messages'
              | _ => mret (messages', Some (Some nullIdError))
              end
          end
      end
  end.

(** [Threw] when the function rethrows the error it caught. *)
Definition fetchMessagesFromChat (chat : Chat) (currentUserId : option Z)
    (currentUserAccessHash : Z) : @M W (Attempt (list Message)) :=
  r ← fetchPages 20 chat currentUserId currentUserAccessHash 0 [];
  match r with
  | (messages, None) => mret (Returned messages)
  | (messages, Some message) =>
      retry ← handleFloodWait message 0;
      if retry : bool then mret (Returned messages) else mret Threw
  end.

(** The loop of [deleteMessagesInBatches] from index [i] on.  A failed
    batch is tried again when [handleFloodWait] says so (the index is set
    back and then advanced), so the loop need not end: [fuel] bounds its
    iterations, and the result is [None] when they do not suffice.  When
    the loop ends the result is its [deletedCount]. *)
Fixpoint deleteBatchesFrom (fuel : nat) (chat : Chat) (messageIds : list Z)
    (totalBatches : Z) (i : nat) (deletedCount : Z) : @M W (option Z) :=
  match fuel with
  | O => mret None
  | S fuel' =>
      if (i <? length messageIds)%nat then
        let batch := take BATCH_SIZE (drop i messageIds) in
        ok ← call (EvDeleteMessages chat batch) (deleteMessages chat batch);
        if ok : bool then
          _ ← (if (1 <? totalBatches) && (i + BATCH_SIZE <? length messageIds)%nat
               then sleep BATCH_DELAY else mret tt);
          deleteBatchesFrom fuel' chat messageIds totalBatches (i + BATCH_SIZE)
            (deletedCount + Z.of_nat (length batch))
        else
          message ← thrownMessage;
          retry ← handleFloodWait message 0;
          if retry : bool
          then deleteBatchesFrom fuel' chat messageIds totalBatches i deletedCount
          else deleteBatchesFrom fuel' chat messageIds totalBatches
                 (i + BATCH_SIZE) deletedCount
      else mret (Some deletedCount)
  end.

Definition deleteMessagesInBatches (fuel : nat) (chat : Chat)
    (messageIds : list Z) : @M W (option Z) :=
  match messageIds with
  | [] => mret (Some 0)
  | _ =>
      let totalBatches :=
        (Z.of_nat (length messageIds) + Z.of_nat BATCH_SIZE - 1)
        / Z.of_nat BATCH_SIZE in
      deleteBatchesFrom fuel chat messageIds totalBatches 0 0
  end.

(** [processChat] on the entity of a dialog; [None] when the deletions did
    not end within [fuel] iterations. *)
Definition processChat (fuel : nat) (chat : Chat) (currentUserId : option Z)
    (currentUserAccessHash chatIndex totalChats : Z) : @M W (option ChatResult) :=
  r ← fetchMessagesFromChat chat currentUserId currentUserAccessHash;
  match r with
  | Threw => mret (Some {| messageCount := 0; failedWith := true |})
  | Returned [] => mret (Some {| messageCount := 0; failedWith := false |})
  | Returned userMessages =>
      d ← deleteMessagesInBatches fuel chat (map msg_id userMessages);
      match d with
      | None => mret None
      | Some _ =>
          _ ← (if chatIndex <? totalChats then sleep CHAT_DELAY else mret tt);
          mret (Some {| messageCount := Z.of_nat (length userMessages);
                        failedWith := false |})
      end
  end.

Fixpoint processChats (fuel : nat) (chats : list Chat) (currentUserId : option Z)
    (currentUserAccessHash chatIndex totalChats : Z) (results : list ChatResult)
  : @M W (option (list ChatResult)) :=
  match chats with
  | [] => mret (Some results)
  | chat :: rest =>
      r ← processChat fuel chat currentUserId currentUserAccessHash chatIndex
            totalChats;
      match r with
      | None => mret None
      | Some result =>
          processChats fuel rest currentUserId currentUserAccessHash
            (chatIndex + 1) totalChats (results ++ [result])
      end
  end.

(** [deleteAllHistory], from [client.start] on, with the three variables
    of the environment it reads.  The result is the list [results] (empty
    when it returns or fails before the loop over the chats), or [None]
    when the deletions did not end within [fuel] iterations each. *)
Definition deleteAllHistory (fuel : nat)
    (MONITOR_CHAT_IDS NOT_MONITOR_CHAT_IDS DELETE_HISTORY_MODE : option jsstring)
  : @M W (option (list ChatResult)) :=
  let monitorChatIds := parseChatIds MONITOR_CHAT_IDS true in
  let notMonitorChatIds := parseChatIds NOT_MONITOR_CHAT_IDS false in
  let isLimitedMode := match monitorChatIds with [] => false | _ => true end in
  let limited :=
    match DELETE_HISTORY_MODE with
    | Some mode => if strEq mode (u "true") then false else isLimitedMode
    | None => isLimitedMode
    end in
  started ← perform clientStart;
  r ← (if started : bool then
         me ← call EvGetMe getMe;
         match me with
         | Threw => mret (Some [])
         | Returned me =>
             dialogs ← call EvGetDialogs getDialogs;
             match dialogs with
             | Threw => mret (Some [])
             | Returned dialogs =>
                 match filterDialogs notMonitorChatIds monitorChatIds limited
                         dialogs with
                 | Threw => mret (Some [])
                 | Returned [] => mret (Some [])
                 | Returned dialogsToProcess =>
                     match me with
                     | Some me =>
                         processChats fuel dialogsToProcess (user_id me)
                           (accessHash me) 1
                           (Z.of_nat (length dialogsToProcess)) []
                     | None => mret (Some [])
                     end
                 end
             end
         end
       else mret (Some []));
  match r with
  | None => mret None
  | Some results =>
      _ ← perform clientDestroy;
      mret (Some results)
  end.

End Purge.

(** ** Notions used to state the further properties *)

Section MoreNotions.
Context {W : Type} `{Client W}.

(** Every run of [m] returns a value that satisfies [P]. *)
Definition returns {A : Type} (P : A -> Prop) (m : @M W A) : Prop :=
  forall st, P (m st).1.

(** The calls made between two states, all of which satisfy [P]: the log
    only grows, by calls that satisfy [P]. *)
Definition emits (P : Event -> Prop) : relation (State W) :=
  fun st st' => exists evs, log st' = log st ++ evs /\ Forall P evs.

(** The outcomes of [handleMessage] that reach the dedup stage, with the
    key they reach it under. *)
Definition dedupKeyOf (o : Outcome) : option jsstring :=
  match o with
  | Notified k _ | Duplicate k => Some k
  | _ => None
  end.

(** The allow-list rule of [handleMessage] on a normalized chat id: no
    allow-list, or the id is in it, or (with an empty raw list) the peer
    carries an old chat id that is. *)
Definition allowRule (r : Rules) (m : Message) (normalizedChatId : jsstring)
  : Prop :=
  normalizedMonitorIds r = []
  \/ (normalizedChatId <> [] /\ normalizedChatId ∈ normalizedMonitorIds r)
  \/ (monitorChatIds r = []
      /\ exists p old new,
           peerId m = Some p /\ chatId p = Some old /\ channelId p = Some new
           /\ normalizeId (RawStr (u "-" ++ numToString old))
              ∈ normalizedMonitorIds r).

(** The sender is one of the target users. *)
Definition isTargetSender (r : Rules) (normalizedSenderId : jsstring) : Prop :=
  normalizedSenderId <> []
  /\ normalizedSenderId ∈ targetUserIdsNormalized r.

(** The keyword rule of [handleMessage]: a target user with a user keyword
    (or with no user keywords configured), or a monitor keyword, or no
    keywords configured at all. *)
Definition keywordRule (r : Rules) (m : Message) (normalizedSenderId : jsstring)
  : Prop :=
  let textLower := toLowerCase (displayText (processMessageContent m)) in
  (isTargetSender r normalizedSenderId
   /\ (userKeywordsNormalized r = []
       \/ matchKeyword textLower (userKeywordsNormalized r) = true))
  \/ matchKeyword textLower (monitorKeywordsNormalized r) = true
  \/ (monitorKeywordsNormalized r = [] /\ userKeywordsNormalized r = []).

(** The normalized form of [NOTIFICATION_CHAT_ID] as [handleMessage]
    computes it. *)
Definition normalizedNotifChatId (r : Rules) : jsstring :=
  normalizeId (match NOTIFICATION_CHAT_ID r with
               | Some s => RawStr s
               | None => RawUndefined
               end).

(** The calls made between two states include every call of [es]. *)
Definition logsAll (es : list Event) : relation (State W) :=
  fun st st' => exists evs, log st' = log st ++ evs /\ forall e, e ∈ es -> e ∈ evs.

(** The dispatch records only grow, by ids appended to the records of
    [targets]; the record of any other chat is left as it was. *)
Definition sentGrowsAt (targets : list jsstring) : relation (State W) :=
  fun st st' => forall t,
    (exists new, default [] (sentNotificationMessages st' !! t)
                 = default [] (sentNotificationMessages st !! t) ++ new)
    /\ (t ∉ targets ->
        sentNotificationMessages st' !! t = sentNotificationMessages st !! t).

End MoreNotions.

(** The calls of [fetchWithRetry] that makes [fetches] requests, the first
    of them being attempt number [attempt]: each request but the last is
    followed by a pause of [1000 * 2 ^ attempt] ms. *)
Fixpoint retrySchedule (q : BotRequest) (attempt : Z) (fetches : nat)
  : list Event :=
  match fetches with
  | O => []
  | S n =>
      EvFetch q ::
      match n with
      | O => []
      | S _ => EvSleep (1000 * 2 ^ attempt) :: retrySchedule q (attempt + 1) n
      end
  end.

(** The targets of a notification: the items of [NOTIFICATION_CHAT_ID]. *)
Definition notificationTargets (NOTIFICATION_CHAT_ID : option jsstring)
  : list jsstring :=
  match NOTIFICATION_CHAT_ID with
  | Some targets => if truthy targets then map trim (splitComma targets) else []
  | None => []
  end.

(** The first call [sendNotification] makes for a target: the Bot API
    request with a token, the lookup of the chat without one. *)
Definition attemptEvent (token : option jsstring) (target text : jsstring)
  : Event :=
  match token with
  | Some tk => if truthy tk then EvFetch (BotSendMessage tk target text)
               else EvGetEntity (RefId target)
  | None => EvGetEntity (RefId target)
  end.

(** The calls [deletePreviousNotifications] may make for a target whose
    record holds [ids]: lookups of the target, and deletions of recorded
    ids only, through the client or the Bot API. *)
Definition retractionCall (target : jsstring) (ids : list Z) (e : Event) : Prop :=
  match e with
  | EvFetch (BotDeleteMessage _ chat id) => chat = target /\ id ∈ ids
  | EvDeleteMessages _ l => l ⊆ ids
  | EvGetEntity (RefId id) | EvGetInputEntity (RefId id) => id = target
  | _ => False
  end.

(** A message of the local user 42 in the notification channel 9000 of
    [monitorAll]. *)
Definition ownNotification : Message :=
  {| msg_id := 56;
     peerId := Some {| userId := None; chatId := None; channelId := Some 9000 |};
     fromId := FromUser 42; senderId := Some 42; date := 1700000000;
     isService := false; action := false; message := u "hello";
     caption := []; media := None; attachment := false |}.

(** ** Notions for the expiry sweep *)

(** A message the sweep may delete: deletable, and older than the cutoff. *)
Definition expiredDeletable (cutoffTime : Z) (msg : Message) : Prop :=
  isDeletableMessage (Some msg) = true /\ date msg < cutoffTime.

Definition isSearch (e : Event) : bool :=
  match e with EvSearch _ => true | _ => false end.

(** The calls of the historical search pass: searches of the chat for the
    messages of the user within the date range, 100 per page, and pauses of
    200 ms between pages. *)
Definition searchCall (chat : Chat) (userId : option Z)
    (userAccessHash minDate maxDate : Z) (e : Event) : Prop :=
  match e with
  | EvSearch q =>
      search_peer q = chat /\ search_fromId q = userId
      /\ search_accessHash q = userAccessHash
      /\ search_minDate q = minDate /\ search_maxDate q = maxDate
      /\ search_limit q = 100
  | EvSleep ms => ms = 200
  | _ => False
  end.

(** The calls of the scan phase over [chats]: reads of the newest 200
    messages and searches, in those chats only. *)
Definition scanCall (chats : list Chat) (e : Event) : Prop :=
  match e with
  | EvGetMessages chat limit => chat ∈ chats /\ limit = RECENT_LIMIT
  | EvSearch q => search_peer q ∈ chats /\ search_limit q = 100
  | EvSleep _ => True
  | _ => False
  end.

(** The calls of the delete phase in one chat: deletions, in that chat, of
    at most [batchSize] of the ids [all] at a time, and pauses. *)
Definition chatDeleteCall (chat : Chat) (all : list Z) (batchSize : nat)
    (e : Event) : Prop :=
  match e with
  | EvDeleteMessages c l => c = chat /\ l ⊆ all /\ (length l <= batchSize)%nat
  | EvSleep _ => True
  | _ => False
  end.

(** The calls of the delete phase over the scan results. *)
Definition deleteCall (results : list ScanResult) (batchSize : nat)
    (e : Event) : Prop :=
  match e with
  | EvDeleteMessages c l =>
      exists res, res ∈ results /\ c = scan_chat res
                  /\ l ⊆ map msg_id (expiredMessages res)
                  /\ (length l <= batchSize)%nat
  | EvSleep _ => True
  | _ => False
  end.

(** [DELETE_BATCH_SIZE] as [deleteExpiredMessages] reads it. *)
Definition DELETE_BATCH_SIZE (env : ProcessEnv) : nat :=
  Z.to_nat (Z.max 1 (numOr (parseInt (envToString (env_DELETE_BATCH_SIZE env))) 100)).

(** The calls of a whole run of [deleteExpiredMessages]: lookups, reads and
    searches, pauses, and deletions of at most [DELETE_BATCH_SIZE] ids in a
    chat that its dialog filter accepts. *)
Definition sweepCall (env : ProcessEnv) (e : Event) : Prop :=
  match e with
  | EvDeleteMessages chat ids =>
      isGroupDialog (parseChatIds (env_NOT_MONITOR_CHAT_IDS env) false)
        {| entity := Some chat |} = true
      /\ (length ids <= DELETE_BATCH_SIZE env)%nat
  | EvGetMessages chat _ =>
      isGroupDialog (parseChatIds (env_NOT_MONITOR_CHAT_IDS env) false)
        {| entity := Some chat |} = true
  | EvSearch q =>
      isGroupDialog (parseChatIds (env_NOT_MONITOR_CHAT_IDS env) false)
        {| entity := Some (search_peer q) |} = true
  | EvGetMe | EvGetUser _ | EvGetDialogs | EvSleep _ => True
  | EvGetEntity _ | EvGetInputEntity _ | EvSendMessage _ _ | EvFetch _ => False
  end.

(** A scan result is sound for a cutoff: its messages are deletable and
    older than the cutoff, and no id occurs twice. *)
Definition soundScan (cutoffTime : Z) (res : ScanResult) : Prop :=
  Forall (expiredDeletable cutoffTime) (expiredMessages res)
  /\ NoDup (map msg_id (expiredMessages res)).

(** ** Notions for the text of a notification *)

(** What [escapeHtml] writes for one code unit. *)
Definition htmlEntity (c : N) : jsstring :=
  if (c =? 38)%N then u "&amp;"
  else if (c =? 60)%N then u "&lt;"
  else if (c =? 62)%N then u "&gt;"
  else if (c =? 34)%N then u "&quot;"
  else if (c =? 39)%N then u "&#039;"
  else [c].

(** Markup that the HTML parse mode accepts whatever the texts around it:
    every [<] opens one of the tags [b], [/b], [code], [/code], closed at
    once, and every [&] opens one of the five entities of [escapeHtml]. *)
Fixpoint wellFormed (s : jsstring) : bool :=
  match s with
  | [] => true
  | c :: r =>
      (if (c =? 60)%N then
         startsWith (u "b>") r || startsWith (u "/b>") r
         || startsWith (u "code>") r || startsWith (u "/code>") r
       else if (c =? 38)%N then
         startsWith (u "amp;") r || startsWith (u "lt;") r
         || startsWith (u "gt;") r || startsWith (u "quot;") r
         || startsWith (u "#039;") r
       else true)
      && wellFormed r
  end.

(** A lottery with every field set, whose texts hold markup. *)
Definition sampleLottery : LotteryInfo :=
  {| createTime := Some (u "2024-01-01 <10:00>");
     prizes := [ {| prize_name := u "A&B"; prize_count := 2 |} ];
     keyword := Some (u "<b>go</b>");
     creator := Some (u "Tom & 'Jerry'");
     autoOpenCount := Some 50 |}.

(** ** Notions for the purge script *)

(** A message the purge may delete: its id is not 0, it is from the
    current user, and it is deletable. *)
Definition ownDeletable (currentUserId : option Z) (msg : Message) : Prop :=
  msg_id msg <> 0
  /\ (exists id, currentUserId = Some id /\ fromId msg = FromUser id)
  /\ isDeletableMessage (Some msg) = true.

(** The calls of [fetchMessagesFromChat]: searches of the chat for the
    messages of the user, without date bounds, [FETCH_LIMIT] per page, and
    pauses. *)
Definition fetchCall (chat : Chat) (userId : option Z) (userAccessHash : Z)
    (e : Event) : Prop :=
  match e with
  | EvSearch q =>
      search_peer q = chat /\ search_fromId q = userId
      /\ search_accessHash q = userAccessHash
      /\ search_minDate q = 0 /\ search_maxDate q = 0
      /\ search_limit q = FETCH_LIMIT
  | EvSleep _ => True
  | _ => False
  end.

(** Whether [deleteAllHistory] runs in limited mode. *)
Definition limitedMode (MONITOR_CHAT_IDS DELETE_HISTORY_MODE : option jsstring)
  : bool :=
  match DELETE_HISTORY_MODE with
  | Some mode =>
      if strEq mode (u "true") then false
      else match parseChatIds MONITOR_CHAT_IDS true with [] => false | _ => true end
  | None => match parseChatIds MONITOR_CHAT_IDS true with [] => false | _ => true end
  end.

(** The calls of a run of [deleteAllHistory]: the two lookups, pauses, and
    searches and deletions (of at most [BATCH_SIZE] ids) in chats that its
    dialog filter keeps. *)
Definition purgeCall (notMonitorChatIds monitorChatIds : list jsstring)
    (limited : bool) (e : Event) : Prop :=
  match e with
  | EvDeleteMessages chat ids =>
      keepDialog notMonitorChatIds monitorChatIds limited chat = true
      /\ (length ids <= BATCH_SIZE)%nat
  | EvSearch q =>
      keepDialog notMonitorChatIds monitorChatIds limited (search_peer q) = true
  | EvGetMe | EvGetDialogs | EvSleep _ => True
  | _ => False
  end.

(** A session for examples: every thrown error has the message [message],
    and the connection calls resolve. *)
Definition testSession (message : option jsstring) : Session unit :=
  {| errorMessage := fun _ => message;
     clientStart := fun w => (true, w);
     clientDestroy := fun w => (true, w) |}.

(** The message of a flood-wait error that asks for 30 seconds. *)
Definition floodWaitMessage : jsstring :=
  u "420: " ++ u "FLOOD_WAIT_" ++ numToString 30
    ++ u " (caused by messages.DeleteMessages)".

(** [DEDUP_WINDOW_MINUTES=1000000000000000000000], that is [10^21]. *)
Definition hugeWindowEnv : ProcessEnv :=
  {| env_AUTO_DELETE_MINUTES := None;
     env_DEDUP_WINDOW_MINUTES := Some (u "1000000000000000000000");
     env_NOT_MONITOR_CHAT_IDS := None; env_DELETE_CONCURRENCY := None;
     env_DELETE_BATCH_SIZE := None; env_MONITOR_CHAT_IDS := None;
     env_MONITOR_KEYWORDS := None; env_NOTIFICATION_CHAT_ID := None;
     env_TELEGRAM_BOT_TOKEN := None; env_TARGET_USER_IDS := None;
     env_USER_KEYWORDS := None; env_DELETE_NOTIFICATION_KEYWORDS := None |}.

(** [AUTO_DELETE_MINUTES=43200], that is thirty days. *)
Definition thirtyDaysEnv : ProcessEnv :=
  {| env_AUTO_DELETE_MINUTES := Some (u "43200"); env_DEDUP_WINDOW_MINUTES := None;
     env_NOT_MONITOR_CHAT_IDS := None; env_DELETE_CONCURRENCY := None;
     env_DELETE_BATCH_SIZE := None; env_MONITOR_CHAT_IDS := None;
     env_MONITOR_KEYWORDS := None; env_NOTIFICATION_CHAT_ID := None;
     env_TELEGRAM_BOT_TOKEN := None; env_TARGET_USER_IDS := None;
     env_USER_KEYWORDS := None; env_DELETE_NOTIFICATION_KEYWORDS := None |}.

(** The world after [n] requests [q] made one after the other from [w]. *)
Fixpoint fetchWorld {W : Type} `{Client W} (q : BotRequest) (n : nat) (w : W) : W :=
  match n with
  | O => w
  | S n' => fetchWorld q n' (fetch q w).2
  end.

(** The answer of the Bot API to a message that was sent, with its id. *)
Definition sentResponse (id : Z) : Response :=
  {| resp_ok := true;
     resp_json := Returned {| json_ok := true; json_message_id := Some id |} |}.

(** A client whose world counts the requests to the Bot API: the first two
    throw, every later one returns; every other call throws. *)
Definition flakyBot : Client nat :=
  {| clock := fun n => Z.of_nat n;
     toLowerCase := map asciiLower;
     getMe := fun w => (Threw, w);
     getEntity := fun _ w => (Threw, w);
     getInputEntity := fun _ w => (Threw, w);
     getUserEntity := fun _ w => (Threw, w);
     getDialogs := fun w => (Threw, w);
     getMessages := fun _ _ w => (Threw, w);
     searchMessages := fun _ w => (Threw, w);
     deleteMessages := fun _ _ w => (false, w);
     sendMessage := fun _ _ w => (Threw, w);
     fetch := fun _ w =>
       (if (w <? 2)%nat then Threw else Returned (sentResponse (Z.of_nat w)), S w);
     formatNotification := fun m _ _ => displayText (processMessageContent m) |}.

(** ** The pages of [fetchMessagesFromChat] *)

(** What a request for a page comes back with: the page, or an error. *)
Definition Reply : Type := Attempt (list (option Message)).

(** The request for the page that starts at [offsetId]. *)
Definition pageRequest (chat : Chat) (currentUserId : option Z)
    (currentUserAccessHash offsetId : Z) : SearchRequest :=
  {| search_peer := chat; search_fromId := currentUserId;
     search_accessHash := currentUserAccessHash;
     search_minDate := 0; search_maxDate := 0;
     search_limit := FETCH_LIMIT; search_offsetId := offsetId |}.

(** The messages of a reply that are kept: those of the page that pass
    the filter, none when there is no page or the filter throws. *)
Definition keptOf (currentUserId : option Z) (reply : Reply) : list Message :=
  match reply with
  | Returned batch => default [] (validMessages batch currentUserId)
  | Threw => []
  end.

(** The reply after which another page is asked for: a full page whose
    filter ran and whose last message is there; the next page starts at
    the id of that message. *)
Definition nextOffset (currentUserId : option Z) (reply : Reply) : option Z :=
  match reply with
  | Returned batch =>
      match validMessages batch currentUserId, last batch with
      | Some _, Some (Some lastMessage) =>
          if Z.of_nat (length batch) <? FETCH_LIMIT then None
          else Some (msg_id lastMessage)
      | _, _ => None
      end
  | Threw => None
  end.

(** The error a reply ends the paging with, if it does: the one the
    request threw, with the message [thrown]; the one of the filter; the
    one of reading the id of a last message that is not there. *)
Definition failureOf (currentUserId : option Z) (reply : Reply)
    (thrown : option jsstring) : option (option jsstring) :=
  match reply with
  | Threw => Some thrown
  | Returned [] => None
  | Returned batch =>
      match validMessages batch currentUserId with
      | None => Some (Some undefinedToStringError)
      | Some _ =>
          match last batch with
          | Some (Some _) => None
          | _ => Some (Some nullIdError)
          end
      end
  end.

(** The pause after an error with this message: the seconds of a flood
    wait, one second otherwise. *)
Definition failurePause (message : option jsstring) : Z :=
  match floodWaitSeconds message with
  | Some waitSeconds => waitSeconds * 1000
  | None => 1000
  end.

(** [replies] are the answers of the client to the requests for the
    pages from [offsetId] on, made one after the other from the world [w]
    and leaving the world [w']: each page starts where the reply before
    says, and no request follows a reply that does not ask for one. *)
Fixpoint Answered {W : Type} `{Client W} (chat : Chat) (currentUserId : option Z)
    (currentUserAccessHash offsetId : Z) (w : W) (replies : list Reply) (w' : W)
  : Prop :=
  match replies with
  | [] => w' = w
  | reply :: rest =>
      let r := searchMessages
                 (pageRequest chat currentUserId currentUserAccessHash offsetId) w in
      r.1 = reply
      /\ match nextOffset currentUserId reply with
         | Some next =>
             Answered chat currentUserId currentUserAccessHash next r.2 rest w'
         | None => rest = [] /\ w' = r.2
         end
  end.

(** The calls made for [replies]: one request for each, and a pause of
    [BATCH_DELAY] after every reply that asks for another page. *)
Fixpoint pageCalls (chat : Chat) (currentUserId : option Z)
    (currentUserAccessHash offsetId : Z) (replies : list Reply) : list Event :=
  match replies with
  | [] => []
  | reply :: rest =>
      EvSearch (pageRequest chat currentUserId currentUserAccessHash offsetId)
      :: match nextOffset currentUserId reply with
         | Some next =>
             EvSleep BATCH_DELAY
             :: pageCalls chat currentUserId currentUserAccessHash next rest
         | None => []
         end
  end.

(** The error the paging ended with, if it did. *)
Definition lastFailure (currentUserId : option Z) (replies : list Reply)
    (thrown : option jsstring) : option (option jsstring) :=
  match last replies with
  | Some reply => failureOf currentUserId reply thrown
  | None => None
  end.

(** The one pause that follows an error. *)
Definition finalPause (currentUserId : option Z) (replies : list Reply)
    (thrown : option jsstring) : list Event :=
  match lastFailure currentUserId replies thrown with
  | Some message => [EvSleep (failurePause message)]
  | None => []
  end.

(** A full page: the messages 200 down to 101, all of user 42. *)
Definition fullPage : list (option Message) :=
  map (fun i => Some (ownTextAt (201 - Z.of_nat i))) (seq 1 100).

(** A client whose world counts the searches: the first returns
    [fullPage], every later one throws; the local user is 42. *)
Definition pagedClient : Client nat :=
  {| clock := fun n => Z.of_nat n;
     toLowerCase := map asciiLower;
     getMe := fun w => (Returned (Some localUser), w);
     getEntity := fun _ w => (Threw, w);
     getInputEntity := fun _ w => (Threw, w);
     getUserEntity := fun _ w => (Returned (Some localUser), w);
     getDialogs := fun w => (Returned [ {| entity := Some someChat |} ], w);
     getMessages := fun _ _ w => (Threw, w);
     searchMessages := fun _ w =>
       (match w with O => Returned fullPage | S _ => Threw end, S w);
     deleteMessages := fun _ _ w => (true, w);
     sendMessage := fun _ _ w => (Threw, w);
     fetch := fun _ w => (Threw, w);
     formatNotification := fun m _ _ => displayText (processMessageContent m) |}.

(** A session whose errors are flood waits of 30 seconds. *)
Definition floodSession : Session nat :=
  {| errorMessage := fun _ => Some floodWaitMessage;
     clientStart := fun w => (true, w);
     clientDestroy := fun w => (true, w) |}.

(** ** Two notification targets *)

(** Every chat is monitored, without keyword lists; notifications go
    through the Bot API to the channels 9000 and 9001; the local user is
    42. *)
Definition twoTargets : Rules :=
  {| normalizedMonitorIds := []; monitorChatIds := [];
     targetUserIdsNormalized := []; userKeywordsNormalized := [];
     monitorKeywordsNormalized := [];
     SELF_USER_ID_NORMALIZED := u "42"; BOT_USER_ID_NORMALIZED := [];
     NOTIFICATION_CHAT_ID := Some (u "-1009000,-1009001");
     TELEGRAM_BOT_TOKEN := Some (u "token");
     USER_KEYWORDS := None; normalizedNotMonitorIds := [];
     deleteNotificationKeywords := [] |}.

(** Message 56 of the local user 42 in the channel [channel]. *)
Definition ownMessageIn (channel : Z) : Message :=
  {| msg_id := 56;
     peerId := Some {| userId := None; chatId := None; channelId := Some channel |};
     fromId := FromUser 42; senderId := Some 42; date := 1700000000;
     isService := false; action := false; message := u "hello";
     caption := []; media := None; attachment := false |}.

(** A client whose Bot API delivers every message, as message 900; its
    lookups throw. *)
Definition deliveringClient : Client unit :=
  {| clock := fun n => Z.of_nat n;
     toLowerCase := map asciiLower;
     getMe := fun w => (Threw, w);
     getEntity := fun _ w => (Threw, w);
     getInputEntity := fun _ w => (Threw, w);
     getUserEntity := fun _ w => (Threw, w);
     getDialogs := fun w => (Threw, w);
     getMessages := fun _ _ w => (Threw, w);
     searchMessages := fun _ w => (Threw, w);
     deleteMessages := fun _ _ w => (false, w);
     sendMessage := fun _ _ w => (Threw, w);
     fetch := fun _ w => (Returned (sentResponse 900), w);
     formatNotification := fun m _ _ => displayText (processMessageContent m) |}.

(** * Properties *)

(** ** Tactics for the state monad *)

Ltac unfold_M :=
  unfold mbind, M_bind, mret, M_ret, call, sleep, dateNow, getProcessed,
    setProcessed, getSent, setSent in *; cbn [world ticks log processedMessages
    sentNotificationMessages fst snd] in *.

Ltac simpl_state :=
  cbn [world ticks log processedMessages sentNotificationMessages fst snd] in *.

(** ** ID normalization *)

Section NormalizeId.

Lemma isDigit_not_whitespace c : isDigit c = true -> isWhiteSpace c = false.
Proof.
  unfold isDigit, isWhiteSpace, inRange. intros Hd.
  rewrite andb_true_iff, !N.leb_le in Hd.
  rewrite !orb_false_iff, !andb_false_iff, !N.leb_gt, !N.eqb_neq. lia.
Qed.

Lemma isLineTerminator_whitespace c :
  isLineTerminator c = true -> isWhiteSpace c = true.
Proof.
  unfold isLineTerminator, isWhiteSpace, inRange. intros Hl.
  repeat (apply orb_true_iff in Hl as [Hl|Hl]);
    apply N.eqb_eq in Hl; subst c; reflexivity.
Qed.

Lemma removeWhitespace_clean s :
  Forall (fun c => isWhiteSpace c = false) (removeWhitespace s).
Proof.
  unfold removeWhitespace. apply Forall_forall. intros c Hc.
  apply list_elem_of_filter in Hc. tauto.
Qed.

Lemma removeWhitespace_digits s :
  Forall (fun c => isDigit c = true) s -> removeWhitespace s = s.
Proof.
  unfold removeWhitespace. induction 1 as [|c s Hc _ IH]; [reflexivity|].
  rewrite filter_cons_True by (apply isDigit_not_whitespace, Hc).
  now rewrite IH.
Qed.

Lemma takeWhile_all p s : Forall (fun c => p c = true) (takeWhile p s).
Proof.
  induction s as [|c s IH]; simpl; [constructor|].
  destruct (p c) eqn:E; constructor; assumption.
Qed.

Lemma takeWhile_id p s : Forall (fun c => p c = true) s -> takeWhile p s = s.
Proof. induction 1 as [|c s Hc _ IH]; simpl; [|rewrite Hc, IH]; reflexivity. Qed.

Lemma dropWhile_all p s : Forall (fun c => p c = true) s -> dropWhile p s = [].
Proof. induction 1 as [|c s Hc _ IH]; simpl; [|rewrite Hc]; auto. Qed.

Lemma dropWhile_Forall (P : N -> Prop) p s : Forall P s -> Forall P (dropWhile p s).
Proof.
  induction 1 as [|c s Hc Hs IH]; simpl; [constructor|].
  destruct (p c); [assumption | constructor; assumption].
Qed.

Lemma stripIdPrefix_Forall (P : N -> Prop) s :
  Forall P s -> Forall P (stripIdPrefix s).
Proof.
  intros Hs. unfold stripIdPrefix.
  repeat match goal with |- context [if ?b then _ else _] => destruct b end;
    try apply Forall_drop; assumption.
Qed.

(** On an input without white space the pattern consumes everything: the
    result is the run of digits after the prefix. *)
Lemma replaceIdPattern_clean s :
  Forall (fun c => isWhiteSpace c = false) s ->
  replaceIdPattern s = takeWhile isDigit (stripIdPrefix s).
Proof.
  intros Hs. unfold replaceIdPattern.
  rewrite (dropWhile_all (fun c => negb (isLineTerminator c))).
  - apply app_nil_r.
  - apply dropWhile_Forall, stripIdPrefix_Forall.
    eapply Forall_impl; [exact Hs|]. intros c Hc. simpl in *.
    destruct (isLineTerminator c) eqn:E; [|reflexivity].
    apply isLineTerminator_whitespace in E. congruence.
Qed.

(** A normalized id is a run of decimal digits. *)
Lemma normalizeId_digits x : Forall (fun c => isDigit c = true) (normalizeId x).
Proof.
  destruct x; simpl; try constructor;
    rewrite replaceIdPattern_clean by apply removeWhitespace_clean;
    apply takeWhile_all.
Qed.

Lemma startsWith_digit_minus p s :
  Forall (fun c => isDigit c = true) s -> startsWith (45%N :: p) s = false.
Proof.
  intros Hs. destruct Hs as [|c s Hc _]; cbn [startsWith]; [reflexivity|].
  destruct (N.eqb_spec 45 c) as [<-|]; [discriminate Hc | reflexivity].
Qed.

(** What a second normalization does to a run of digits. *)
Lemma normalizeId_of_digits n :
  Forall (fun c => isDigit c = true) n ->
  normalizeId (RawStr n) = if startsWith (u "100") n then drop 3 n else n.
Proof.
  intros Hn. cbn [normalizeId ToString].
  rewrite removeWhitespace_digits by assumption.
  rewrite replaceIdPattern_clean
    by (eapply Forall_impl; [exact Hn|]; apply isDigit_not_whitespace).
  unfold stripIdPrefix.
  change (u "-100") with (45%N :: u "100"). change (u "-") with (45%N :: []).
  rewrite !startsWith_digit_minus by assumption.
  destruct (startsWith (u "100") n); apply takeWhile_id;
    [apply Forall_drop|]; assumption.
Qed.

Lemma startsWith_length p s : startsWith p s = true -> (length p <= length s)%nat.
Proof.
  revert s. induction p as [|x p IH]; intros [|y s]; simpl; try lia; try discriminate.
  intros Hp. apply andb_true_iff in Hp as [_ Hp]. apply IH in Hp. lia.
Qed.

End NormalizeId.

(** C2, as the code has it: normalizing twice gives the same id as
    normalizing once exactly when the normalized id does not itself begin
    with [100]; otherwise the second normalization strips that [100] as
    the channel prefix. *)
Theorem normalizeId_idempotent_iff (x : RawId) :
  normalizeId (RawStr (normalizeId x)) = normalizeId x
  <-> startsWith (u "100") (normalizeId x) = false.
Proof.
  rewrite normalizeId_of_digits by apply normalizeId_digits.
  destruct (startsWith (u "100") (normalizeId x)) eqn:E; split; try done.
  intros Hd. apply startsWith_length in E. simpl in E.
  apply (f_equal length) in Hd. rewrite length_drop in Hd. lia.
Qed.

(** C2 fails as stated: a channel whose own id begins with [100]. *)
Lemma normalizeId_not_idempotent :
  normalizeId (RawStr (normalizeId (RawStr (u "-100100200300"))))
  <> normalizeId (RawStr (u "-100100200300")).
Proof. vm_compute. discriminate. Qed.

(** ** Keyword matching *)

Section KeywordMatching.

Lemma startsWith_spec k s : startsWith k s = true <-> exists post, s = k ++ post.
Proof.
  revert s. induction k as [|x k IH]; intros s; cbn [startsWith].
  - split; [intros _; now exists s | reflexivity].
  - destruct s as [|y s].
    + split; [discriminate | intros [post Hp]; discriminate Hp].
    + rewrite andb_true_iff, N.eqb_eq, IH. split.
      * intros [-> [post ->]]. now exists post.
      * intros [post Hp]. injection Hp as -> ->. split; [reflexivity | now exists post].
Qed.

Lemma includes_spec s k : includes s k = true <-> Substring k s.
Proof.
  unfold Substring. induction s as [|c s IH]; cbn [includes].
  - rewrite orb_false_r, startsWith_spec. split.
    + intros [post Hp]. now exists [], post.
    + intros [pre [post Hp]]. destruct pre; [now exists post|discriminate Hp].
  - rewrite orb_true_iff, startsWith_spec, IH. split.
    + intros [[post Hp] | [pre [post Hp]]].
      * now exists [], post.
      * exists (c :: pre), post. now rewrite Hp.
    + intros [[|d pre] [post Hp]].
      * left. now exists post.
      * right. injection Hp as -> ->. now exists pre, post.
Qed.

Lemma lastOr_cons prev c read : lastOr prev (c :: read) = lastOr (Some c) read.
Proof.
  unfold lastOr. destruct read as [|d read]; [reflexivity|].
  rewrite last_cons. now destruct (last (d :: read)).
Qed.

Lemma lastOr_last pre read : lastOr (last pre) read = last (pre ++ read).
Proof.
  unfold lastOr. rewrite last_app. now destruct (last read).
Qed.

Lemma xorb_Boundary a b : xorb (isWordAt a) (isWordAt b) = true <-> Boundary a b.
Proof. unfold Boundary. destruct (isWordAt a), (isWordAt b); simpl; split; congruence. Qed.

Lemma canonEq_spec c d : canonEq c d = true <-> asciiUpper d = asciiUpper c.
Proof. unfold canonEq. rewrite N.eqb_eq. split; congruence. Qed.

Lemma matchAtoms_literals k rest prev s :
  matchAtoms (map Literal k ++ rest) prev s = true
  <-> exists mid post, s = mid ++ post /\ SameIgnoringCase mid k
        /\ matchAtoms rest (lastOr prev mid) post = true.
Proof.
  unfold SameIgnoringCase.
  revert prev s. induction k as [|c k IH]; intros prev s; cbn [map app matchAtoms].
  - split.
    + intros Hm. exists [], s. repeat split; [constructor | exact Hm].
    + intros (mid & post & -> & Hci & Hm). inversion Hci; subst. exact Hm.
  - destruct s as [|d s].
    + split; [discriminate|].
      intros (mid & post & Hs & Hci & _). inversion Hci; subst. discriminate Hs.
    + rewrite andb_true_iff, canonEq_spec, IH. split.
      * intros (Hcd & mid & post & -> & Hci & Hm).
        exists (d :: mid), post. rewrite lastOr_cons.
        repeat split; [constructor|]; assumption.
      * intros (mid & post & Hs & Hci & Hm).
        inversion Hci as [|d' c' mid' k' Hcd Hci']; subst.
        injection Hs as <- ->. rewrite lastOr_cons in Hm.
        split; [assumption|]. now exists mid', post.
Qed.

Lemma testFrom_spec atoms prev s :
  testFrom atoms prev s = true
  <-> exists pre rest, s = pre ++ rest /\ matchAtoms atoms (lastOr prev pre) rest = true.
Proof.
  revert prev. induction s as [|d s IH]; intros prev; cbn [testFrom].
  - rewrite orb_false_r. split.
    + intros Hm. now exists [], [].
    + intros (pre & rest & Hs & Hm). symmetry in Hs.
      apply app_eq_nil in Hs as [-> ->]. exact Hm.
  - rewrite orb_true_iff, IH. split.
    + intros [Hm | (pre & rest & -> & Hm)].
      * now exists [], (d :: s).
      * exists (d :: pre), rest. now rewrite lastOr_cons.
    + intros ([|d' pre] & rest & Hs & Hm).
      * left. simpl in Hs. now subst rest.
      * right. injection Hs as <- ->. rewrite lastOr_cons in Hm. now exists pre, rest.
Qed.

(** The pattern built for a keyword tests for a word-boundary match. *)
Lemma regexTest_keywordPattern k s :
  regexTest (keywordPattern k) s = true <-> WordBoundaryMatch k s.
Proof.
  unfold regexTest, keywordPattern, WordBoundaryMatch.
  rewrite testFrom_spec. split.
  - intros (pre & rest & -> & Hm). cbn [matchAtoms] in Hm.
    apply andb_true_iff in Hm as [Hb Hm].
    apply matchAtoms_literals in Hm as (mid & post & -> & Hci & Hm).
    cbn [matchAtoms] in Hm. rewrite andb_true_r in Hm.
    exists pre, mid, post. unfold lastOr at 1 in Hb. unfold lastOr at 2 in Hm.
    change (match last pre with Some c => Some c | None => None end)
      with (lastOr None pre) in *.
    assert (Hl : lastOr None pre = last pre) by (unfold lastOr; now destruct (last pre)).
    rewrite Hl in *. rewrite lastOr_last in Hm.
    repeat split; [assumption | now apply xorb_Boundary | now apply xorb_Boundary].
  - intros (pre & mid & post & -> & Hci & Hb1 & Hb2).
    exists pre, (mid ++ post). split; [reflexivity|].
    assert (Hl : lastOr None pre = last pre) by (unfold lastOr; now destruct (last pre)).
    rewrite Hl. cbn [matchAtoms]. apply andb_true_iff. split.
    + now apply xorb_Boundary.
    + apply matchAtoms_literals. exists mid, post.
      repeat split; [assumption|]. cbn [matchAtoms].
      rewrite andb_true_r, lastOr_last. now apply xorb_Boundary.
Qed.

Lemma whitespace_not_word c : isWhiteSpace c = true -> isWordChar c = false.
Proof.
  unfold isWordChar, isWhiteSpace, isDigit, inRange.
  rewrite !orb_true_iff, !andb_true_iff, !N.leb_le, !N.eqb_eq.
  rewrite !orb_false_iff, !andb_false_iff, !N.leb_gt, !N.eqb_neq. lia.
Qed.

(** The test that sends a keyword to substring matching: it has a code
    unit outside [\w]. *)
Lemma substring_branch_spec k :
  existsb (fun c => negb (isWordChar c) && negb (isWhiteSpace c)) k
    || existsb isWhiteSpace k = true
  <-> exists c, c ∈ k /\ isWordChar c = false.
Proof.
  rewrite orb_true_iff, !existsb_exists. split.
  - intros [(c & Hc & Ht) | (c & Hc & Ht)]; exists c; rewrite list_elem_of_In.
    + apply andb_true_iff in Ht as [Ht _]. apply negb_true_iff in Ht. now split.
    + split; [assumption | now apply whitespace_not_word].
  - intros (c & Hc & Hw). rewrite list_elem_of_In in Hc.
    destruct (isWhiteSpace c) eqn:E.
    + right. now exists c.
    + left. exists c. split; [assumption | now rewrite Hw, E].
Qed.

(** What [matchKeyword] decides. *)
Lemma matchKeyword_spec textLower keywordList :
  matchKeyword textLower keywordList = true
  <-> exists k, k ∈ keywordList
        /\ ((exists c, c ∈ k /\ isWordChar c = false) /\ Substring k textLower
            \/ Forall (fun c => isWordChar c = true) k
               /\ WordBoundaryMatch k textLower).
Proof.
  unfold matchKeyword. rewrite existsb_exists.
  split; intros (k & Hk & Hm); exists k; rewrite list_elem_of_In in *;
    (split; [assumption|]).
  - destruct (_ || _) eqn:E in Hm.
    + left. split; [now apply substring_branch_spec | now apply includes_spec].
    + right. split; [|now apply regexTest_keywordPattern].
      apply Forall_forall. intros c Hc.
      destruct (isWordChar c) eqn:Ew; [reflexivity|].
      assert (Hs : existsb (fun c => negb (isWordChar c) && negb (isWhiteSpace c)) k
                   || existsb isWhiteSpace k = true)
        by (apply substring_branch_spec; now exists c).
      congruence.
  - destruct Hm as [[Hc Hs] | [Hw Hs]].
    + apply substring_branch_spec in Hc. rewrite Hc. now apply includes_spec.
    + destruct (_ || _) eqn:E.
      * apply substring_branch_spec in E as (c & Hc & Hn).
        rewrite Forall_forall in Hw. apply Hw in Hc. congruence.
      * now apply regexTest_keywordPattern.
Qed.

(** Case of ASCII letters: the word-boundary match does not see it. *)

Lemma asciiUpper_word x y :
  asciiUpper x = asciiUpper y -> isWordChar x = isWordChar y.
Proof.
  unfold asciiUpper, isWordChar, isDigit, inRange. intros Hxy.
  apply eq_iff_eq_true.
  rewrite !orb_true_iff, !andb_true_iff, !N.leb_le, !N.eqb_eq.
  destruct (N.leb_spec 97 x), (N.leb_spec x 122), (N.leb_spec 97 y),
    (N.leb_spec y 122); cbn [andb] in Hxy; lia.
Qed.

Lemma SameIgnoringCase_sym a b : SameIgnoringCase a b -> SameIgnoringCase b a.
Proof. induction 1; constructor; [congruence | assumption]. Qed.

Lemma SameIgnoringCase_trans a b c :
  SameIgnoringCase a b -> SameIgnoringCase b c -> SameIgnoringCase a c.
Proof.
  intros Hab. revert c. induction Hab as [|x y a b Hxy _ IH]; intros c Hbc;
    inversion Hbc; subst; constructor; [congruence | now apply IH].
Qed.

Lemma SameIgnoringCase_word a b :
  SameIgnoringCase a b ->
  Forall (fun c => isWordChar c = true) a -> Forall (fun c => isWordChar c = true) b.
Proof.
  induction 1 as [|x y a b Hxy _ IH]; intros Hw; [constructor|].
  inversion Hw; subst. constructor; [|now apply IH].
  now rewrite <- (asciiUpper_word x y Hxy).
Qed.

Lemma SameIgnoringCase_last a b :
  SameIgnoringCase a b -> isWordAt (last a) = isWordAt (last b).
Proof.
  induction 1 as [|x y a b Hxy Hab IH]; [reflexivity|].
  destruct Hab as [|x' y' a b Hxy' Hab]; [exact (asciiUpper_word x y Hxy)|].
  rewrite !last_cons_cons. exact IH.
Qed.

Lemma SameIgnoringCase_head a b :
  SameIgnoringCase a b -> isWordAt (head a) = isWordAt (head b).
Proof. destruct 1 as [|x y a b Hxy _]; [reflexivity | exact (asciiUpper_word x y Hxy)]. Qed.

Lemma SameIgnoringCase_app a1 a2 b1 b2 :
  SameIgnoringCase a1 b1 -> SameIgnoringCase a2 b2 ->
  SameIgnoringCase (a1 ++ a2) (b1 ++ b2).
Proof. apply Forall2_app. Qed.

Lemma WordBoundaryMatch_case k1 k2 s1 s2 :
  SameIgnoringCase k1 k2 -> SameIgnoringCase s1 s2 ->
  WordBoundaryMatch k1 s1 -> WordBoundaryMatch k2 s2.
Proof.
  intros Hk Hs (pre & mid & post & -> & Hmid & Hb1 & Hb2).
  apply Forall2_app_inv_l in Hs as (pre' & rest' & Hpre & Hrest & ->).
  apply Forall2_app_inv_l in Hrest as (mid' & post' & Hmid' & Hpost & ->).
  exists pre', mid', post'. split; [reflexivity|]. split.
  - eapply SameIgnoringCase_trans; [apply SameIgnoringCase_sym, Hmid'|].
    eapply SameIgnoringCase_trans; eassumption.
  - unfold Boundary in *.
    rewrite <- (SameIgnoringCase_last pre pre' Hpre).
    rewrite <- (SameIgnoringCase_head (mid ++ post) (mid' ++ post'))
      by now apply SameIgnoringCase_app.
    rewrite <- (SameIgnoringCase_last (pre ++ mid) (pre' ++ mid'))
      by now apply SameIgnoringCase_app.
    rewrite <- (SameIgnoringCase_head post post' Hpost). now split.
Qed.

End KeywordMatching.

Section KeywordClaim.
Context {W : Type} `{Client W}.

Lemma matchKeyword_single textLower k :
  matchKeyword textLower [k] = true
  <-> (exists c, c ∈ k /\ isWordChar c = false) /\ Substring k textLower
      \/ Forall (fun c => isWordChar c = true) k /\ WordBoundaryMatch k textLower.
Proof.
  rewrite matchKeyword_spec. split.
  - intros (k' & Hk & Hm). apply list_elem_of_singleton in Hk. now subst k'.
  - intros Hm. exists k. split; [apply list_elem_of_singleton; reflexivity | exact Hm].
Qed.

Lemma matchKeyword_word_case s1 s2 k1 k2 :
  Forall (fun c => isWordChar c = true) k1 ->
  SameIgnoringCase s1 s2 -> SameIgnoringCase k1 k2 ->
  matchKeyword s1 [k1] = matchKeyword s2 [k2].
Proof.
  intros Hw Hs Hk.
  pose proof (SameIgnoringCase_word k1 k2 Hk Hw) as Hw2.
  assert (Hnot : forall k, Forall (fun c => isWordChar c = true) k ->
                 ~ exists c, c ∈ k /\ isWordChar c = false).
  { intros k Hwk (c & Hc & Hn). rewrite Forall_forall in Hwk.
    apply Hwk in Hc. congruence. }
  apply eq_iff_eq_true. rewrite !matchKeyword_single. split.
  - intros [[Hc _] | [_ Hm]]; [now destruct (Hnot k1 Hw)|].
    right. split; [exact Hw2|]. exact (WordBoundaryMatch_case k1 k2 s1 s2 Hk Hs Hm).
  - intros [[Hc _] | [_ Hm]]; [now destruct (Hnot k2 Hw2)|].
    right. split; [exact Hw|].
    apply (WordBoundaryMatch_case k2 k1 s2 s1); auto using SameIgnoringCase_sym.
Qed.

Lemma matchKeyword_cons textLower k keywordList :
  matchKeyword textLower (k :: keywordList)
  = matchKeyword textLower [k] || matchKeyword textLower keywordList.
Proof. unfold matchKeyword. cbn [existsb]. now rewrite orb_false_r. Qed.

(** The word-boundary pattern ignores the case of ASCII letters by itself,
    in the text and in the keywords. *)
Lemma matchKeyword_words_case s1 s2 ks1 ks2 :
  Forall (Forall (fun c => isWordChar c = true)) ks1 ->
  SameIgnoringCase s1 s2 -> Forall2 SameIgnoringCase ks1 ks2 ->
  matchKeyword s1 ks1 = matchKeyword s2 ks2.
Proof.
  intros Hw Hs Hks. induction Hks as [|k1 k2 ks1 ks2 Hk Hks IH]; [reflexivity|].
  apply Forall_cons in Hw as [Hw1 Hw].
  rewrite (matchKeyword_cons s1), (matchKeyword_cons s2).
  now rewrite (matchKeyword_word_case s1 s2 k1 k2 Hw1 Hs Hk), IH.
Qed.

Lemma forallb_isWordChar k :
  (forallb isWordChar k = true <-> Forall (fun c => isWordChar c = true) k)
  /\ (forallb isWordChar k = false <-> exists c, c ∈ k /\ isWordChar c = false).
Proof.
  induction k as [|c k [IHt IHf]]; cbn [forallb].
  - split; [split; [constructor | reflexivity]|].
    split; [discriminate|]. intros (c & Hc & _). inversion Hc.
  - split.
    + rewrite andb_true_iff, IHt, Forall_cons. reflexivity.
    + rewrite andb_false_iff, IHf. split.
      * intros [Hc | (d & Hd & Hn)].
        -- exists c. split; [apply list_elem_of_here | exact Hc].
        -- exists d. split; [now apply list_elem_of_further | exact Hn].
      * intros (d & Hd & Hn). apply elem_of_cons in Hd as [-> | Hd].
        -- now left.
        -- right. now exists d.
Qed.

(** What [matchKeyword] decides, in one condition for each keyword. *)
Lemma matchKeyword_occurs textLower keywordList :
  matchKeyword textLower keywordList = true
  <-> exists keyword, keyword ∈ keywordList /\ KeywordOccurs keyword textLower.
Proof.
  rewrite matchKeyword_spec. unfold KeywordOccurs.
  split; intros (k & Hk & Hm); exists k; (split; [exact Hk|]);
    destruct (forallb_isWordChar k) as [Ht Hf].
  - destruct Hm as [[Hc Hs] | [Hw Hm]].
    + apply Hf in Hc. now rewrite Hc.
    + apply Ht in Hw. now rewrite Hw.
  - destruct (forallb isWordChar k) eqn:E.
    + right. split; [now apply Ht | exact Hm].
    + left. split; [now apply Hf | exact Hm].
Qed.

Lemma normalizeKeywords_spec (keywords : list jsstring) keyword :
  keyword ∈ normalizeKeywords keywords
  <-> exists configured, configured ∈ keywords
        /\ keyword = toLowerCase configured /\ keyword <> [].
Proof.
  unfold normalizeKeywords. rewrite list_elem_of_filter, list_elem_of_In, in_map_iff.
  split.
  - intros [Ht (configured & <- & Hin)]. exists configured.
    rewrite list_elem_of_In. repeat split; [exact Hin|].
    intros E. rewrite E in Ht. discriminate Ht.
  - intros (configured & Hin & -> & Hne). rewrite list_elem_of_In in Hin. split.
    + destruct (toLowerCase configured); [now destruct Hne | reflexivity].
    + now exists configured.
Qed.

(** C4, corrected: the keywords that are matched at word boundaries are
    those made only of word characters, which are the letters and digits of
    ASCII and the underscore; a keyword with any other code unit
    (punctuation other than the underscore, white space, a character
    outside ASCII) is matched as a substring.  For every text and every
    list of keywords: [matchKeyword] answers yes exactly when some keyword
    of the list occurs in the text in the way of its kind; in the
    classifier the comparison is between the lower-cased text and the
    lower-cased keywords that are not empty, so the case of neither
    matters; the word-boundary pattern ignores the case of ASCII letters
    by itself; a list of word-character keywords matches exactly when one
    of them occurs at word boundaries, and a keyword with another code
    unit makes the list match wherever it occurs; [win] does not match in
    [winner] and matches in [red win!]; the red-packet keyword matches any
    text that contains it; the keyword [a_b] is not found in [xa_b]. *)
Theorem keyword_matching_by_word_characters :
  (forall textLower keywordList,
      matchKeyword textLower keywordList = true
      <-> exists keyword, keyword ∈ keywordList /\ KeywordOccurs keyword textLower)
  /\ (forall (text : jsstring) (keywords : list jsstring),
        matchKeyword (toLowerCase text) (normalizeKeywords keywords) = true
        <-> exists keyword, keyword ∈ keywords /\ toLowerCase keyword <> []
              /\ KeywordOccurs (toLowerCase keyword) (toLowerCase text))
  /\ (forall s1 s2 ks1 ks2,
        Forall (Forall (fun c => isWordChar c = true)) ks1 ->
        SameIgnoringCase s1 s2 -> Forall2 SameIgnoringCase ks1 ks2 ->
        matchKeyword s1 ks1 = matchKeyword s2 ks2)
  /\ (forall textLower keywordList,
        Forall (Forall (fun c => isWordChar c = true)) keywordList ->
        (matchKeyword textLower keywordList = true
         <-> exists keyword, keyword ∈ keywordList
               /\ WordBoundaryMatch keyword textLower))
  /\ (forall textLower keywordList keyword c,
        keyword ∈ keywordList -> c ∈ keyword -> isWordChar c = false ->
        Substring keyword textLower ->
        matchKeyword textLower keywordList = true)
  /\ (forall textLower keywordList,
        Forall (fun keyword => exists c, c ∈ keyword /\ isWordChar c = false)
               keywordList ->
        (matchKeyword textLower keywordList = true
         <-> exists keyword, keyword ∈ keywordList /\ Substring keyword textLower))
  /\ matchKeyword (u "winner") [u "win"] = false
  /\ matchKeyword (u "red win!") [u "win"] = true
  /\ (forall textLower keywordList,
        hongbao ∈ keywordList -> Substring hongbao textLower ->
        matchKeyword textLower keywordList = true)
  /\ matchKeyword (u "xa_b") [u "a_b"] = false.
Proof.
  assert (Hsub : forall textLower keywordList keyword c,
             keyword ∈ keywordList -> c ∈ keyword -> isWordChar c = false ->
             Substring keyword textLower ->
             matchKeyword textLower keywordList = true).
  { intros textLower keywordList keyword c Hk Hc Hn Hs.
    apply matchKeyword_spec. exists keyword. split; [exact Hk|].
    left. split; [now exists c | exact Hs]. }
  split; [exact matchKeyword_occurs|].
  split.
  { intros text keywords. rewrite matchKeyword_occurs. split.
    - intros (keyword & Hk & Hm). apply normalizeKeywords_spec in Hk
        as (configured & Hin & -> & Hne). now exists configured.
    - intros (configured & Hin & Hne & Hm). exists (toLowerCase configured).
      split; [|exact Hm]. apply normalizeKeywords_spec. now exists configured. }
  split; [exact matchKeyword_words_case|].
  split.
  { intros textLower keywordList Hw. rewrite matchKeyword_spec.
    rewrite Forall_forall in Hw.
    split; intros (k & Hk & Hm); exists k; (split; [exact Hk|]).
    - destruct Hm as [[(c & Hc & Hn) _] | [_ Hm]]; [|exact Hm].
      pose proof (Hw k Hk) as Hwk. rewrite Forall_forall in Hwk.
      apply Hwk in Hc. congruence.
    - right. split; [now apply Hw | exact Hm]. }
  split; [exact Hsub|].
  split.
  { intros textLower keywordList Hp. rewrite matchKeyword_spec.
    rewrite Forall_forall in Hp.
    split; intros (k & Hk & Hm); exists k; (split; [exact Hk|]).
    - destruct Hm as [[_ Hs] | [Hw _]]; [exact Hs|].
      destruct (Hp k Hk) as (c & Hc & Hn). rewrite Forall_forall in Hw.
      apply Hw in Hc. congruence.
    - left. split; [now apply Hp | exact Hm]. }
  split; [reflexivity|]. split; [reflexivity|].
  split; [|reflexivity].
  intros textLower keywordList Hk Hs.
  apply (Hsub textLower keywordList hongbao 32418%N);
    [exact Hk | apply list_elem_of_here | reflexivity | exact Hs].
Qed.

End KeywordClaim.

(** C4 at work with ASCII lower-casing: the upper-case text [RED WIN!]
    against the configured keywords [Win] and [A_B]; the word [win] at its
    boundaries; the red-packet keyword inside a longer text. *)
Lemma keyword_matching_by_word_characters_witness :
  @matchKeyword (map asciiLower (u "RED WIN!"))
     (@normalizeKeywords unit (testClient (fun _ => true) [] (fun n => Z.of_nat n))
        [u "A_B"; u "Win"]) = true
  /\ @matchKeyword (u "red win!") [u "a_b"; u "win"]
     = @matchKeyword (u "RED WIN!") [u "A_B"; u "WIN"]
  /\ (exists keyword, keyword ∈ [u "a_b"; u "win"]
        /\ WordBoundaryMatch keyword (u "red win!"))
  /\ @matchKeyword ([25250; 32418; 21253; 21862]%N) [u "win"; hongbao] = true.
Proof.
  pose proof (@keyword_matching_by_word_characters unit
                (testClient (fun _ => true) [] (fun n => Z.of_nat n)))
    as (_ & Hlow & Hci & Hwb & _ & _ & _ & _ & Hhb & _).
  split; [|split; [|split]].
  - apply (Hlow (u "RED WIN!") [u "A_B"; u "Win"]). exists (u "Win").
    split; [apply list_elem_of_further, list_elem_of_here|].
    split; [discriminate|].
    exists (u "red "), (u "win"), (u "!"). vm_compute.
    repeat split; try discriminate; repeat constructor.
  - apply (Hci (u "red win!") (u "RED WIN!") [u "a_b"; u "win"] [u "A_B"; u "WIN"]);
      repeat constructor.
  - apply (Hwb (u "red win!") [u "a_b"; u "win"]);
      [repeat constructor | reflexivity].
  - apply (Hhb _ [u "win"; hongbao]);
      [apply list_elem_of_further, list_elem_of_here|].
    now exists [25250%N], [21862%N].
Defined.

(** C4 fails as stated for a keyword with an underscore: [a_b] contains
    punctuation and occurs in [xa_b], as [includes] finds, but the keyword
    is matched at word boundaries and [matchKeyword] answers no; the same
    keyword is found in [x a_b]. *)
Lemma underscore_keyword_is_not_substring_matched :
  existsb (fun c => (c =? 95)%N) (u "a_b") = true
  /\ includes (u "xa_b") (u "a_b") = true
  /\ matchKeyword (u "xa_b") [u "a_b"] = false
  /\ matchKeyword (u "x a_b") [u "a_b"] = true.
Proof. repeat split. Qed.

(** ** Bulk delete with fallback *)

Section BulkDelete.
Context {W : Type} `{Client W}.

Lemma countb_cons b x l :
  countb b (x :: l) = (if bool_decide (x = b) then 1 else 0) + countb b l.
Proof.
  unfold countb. rewrite filter_cons. case_bool_decide.
  - rewrite decide_True by assumption. cbn [length]. lia.
  - rewrite decide_False by assumption. lia.
Qed.

Lemma countb_total l : countb true l + countb false l = Z.of_nat (length l).
Proof.
  induction l as [|x l IH]; [reflexivity|].
  rewrite !countb_cons. cbn [length]. destruct x; repeat case_bool_decide; try done; lia.
Qed.

Lemma deleteOneByOne_spec chat ids d f st :
  let r := deleteOneByOne chat ids d f st in
  deleted r.1 = d + countb true (singleDeleteOutcomes chat ids (world st))
  /\ failed r.1 = f + countb false (singleDeleteOutcomes chat ids (world st))
  /\ log r.2 = log st ++ singleDeleteCalls chat ids
  /\ ticks r.2 = ticks st
  /\ processedMessages r.2 = processedMessages st
  /\ sentNotificationMessages r.2 = sentNotificationMessages st.
Proof.
  revert d f st. induction ids as [|id ids IH]; intros d f st; cbn zeta.
  - cbn. unfold countb. cbn. rewrite app_nil_r. repeat split; lia.
  - cbn [deleteOneByOne singleDeleteOutcomes singleDeleteCalls flat_map].
    unfold_M. destruct (deleteMessages chat [id] (world st)) as [ok w'] eqn:E.
    rewrite !countb_cons.
    destruct ok; simpl_state.
    + match goal with |- context [deleteOneByOne chat ids ?d' ?f' ?s] =>
        specialize (IH d' f' s) end.
      cbn zeta in IH. cbn [world log ticks processedMessages sentNotificationMessages] in IH.
      destruct IH as (H1 & H2 & H3 & H4 & H5 & H6).
      rewrite H1, H2, H3, H4, H5, H6, <- !app_assoc.
      repeat case_bool_decide; try done. repeat split; try lia; reflexivity.
    + match goal with |- context [deleteOneByOne chat ids ?d' ?f' ?s] =>
        specialize (IH d' f' s) end.
      cbn zeta in IH. cbn [world log ticks processedMessages sentNotificationMessages] in IH.
      destruct IH as (H1 & H2 & H3 & H4 & H5 & H6).
      rewrite H1, H2, H3, H4, H5, H6, <- !app_assoc.
      repeat case_bool_decide; try done. repeat split; try lia; reflexivity.
Qed.

(** C5: [safeDeleteMessages] first makes one bulk call for the whole list
    and, when it resolves, reports every id deleted.  When it throws, every
    id is then deleted on its own, in order and whatever the earlier
    outcomes; the counts are those of the single deletes that resolved and
    that threw, so a batch of five with two failures gives 3 and 2. *)
Theorem safeDeleteMessages_fallback (chat : Chat) (ids : list Z) (st : State W) :
  let r := safeDeleteMessages chat ids st in
  let bulk := deleteMessages chat ids (world st) in
  let outcomes := singleDeleteOutcomes chat ids bulk.2 in
  (bulk.1 = true ->
     r.1 = {| deleted := Z.of_nat (length ids); failed := 0 |}
     /\ log r.2 = log st ++ [EvDeleteMessages chat ids])
  /\ (bulk.1 = false ->
        r.1 = {| deleted := countb true outcomes; failed := countb false outcomes |}
        /\ deleted r.1 + failed r.1 = Z.of_nat (length ids)
        /\ log r.2 = log st ++ EvDeleteMessages chat ids :: singleDeleteCalls chat ids
        /\ (length ids = 5%nat -> countb false outcomes = 2 ->
            r.1 = {| deleted := 3; failed := 2 |})).
Proof.
  cbn zeta. unfold safeDeleteMessages. unfold_M.
  destruct (deleteMessages chat ids (world st)) as [ok w'] eqn:E. cbn [fst snd].
  split; intros ->.
  - cbn. split; reflexivity.
  - pose proof (deleteOneByOne_spec chat ids 0 0
      {| world := w'; ticks := ticks st; log := log st ++ [EvDeleteMessages chat ids];
         processedMessages := processedMessages st;
         sentNotificationMessages := sentNotificationMessages st |}) as Hs.
    cbn zeta in Hs. cbn [world log] in Hs.
    destruct Hs as (Hd & Hf & Hl & _).
    destruct (deleteOneByOne chat ids 0 0 _) as [[d f] st'] eqn:Er.
    cbn [fst snd deleted failed] in *.
    pose proof (countb_total (singleDeleteOutcomes chat ids w')) as Ht.
    assert (Hlen : length (singleDeleteOutcomes chat ids w') = length ids).
    { clear. revert w'. induction ids as [|i ids IH]; intros w'; [reflexivity|].
      cbn [singleDeleteOutcomes]. destruct (deleteMessages chat [i] w') as [o w''].
      cbn [length]. now rewrite IH. }
    rewrite Hlen in Ht.
    repeat split.
    + f_equal; lia.
    + lia.
    + rewrite Hl, <- app_assoc. reflexivity.
    + intros H5 H2. rewrite H5 in Ht. f_equal; lia.
Qed.

End BulkDelete.

(** C5 on a batch of five where the bulk call and the single deletes of ids
    2 and 4 throw: the result is 3 deleted and 2 failed, and all five ids
    were tried. *)
Lemma safeDeleteMessages_fallback_witness :
  let st := initialState tt in
  let r := @safeDeleteMessages unit (testClient flakyDelete [] (fun n => Z.of_nat n)) someChat
             [1; 2; 3; 4; 5] st in
  r.1 = {| deleted := 3; failed := 2 |}
  /\ log r.2 = EvDeleteMessages someChat [1; 2; 3; 4; 5]
               :: singleDeleteCalls someChat [1; 2; 3; 4; 5].
Proof.
  cbn zeta.
  destruct (@safeDeleteMessages_fallback unit (testClient flakyDelete [] (fun n => Z.of_nat n))
              someChat [1; 2; 3; 4; 5] (initialState tt)) as [_ Hf].
  destruct (Hf eq_refl) as (_ & _ & Hl & H32).
  split; [apply H32; reflexivity | exact Hl].
Defined.

(** ** The recent pass of the expiry scanner *)

Section RecentPass.
Context {W : Type} `{Client W}.

(** With a cutoff at least 600 s before every later clock reading, the loop
    never adds a message: one old enough to be expired stops the loop, and
    one that does not stop it is not yet expired. *)
Lemma recentLoop_keeps (T cutoffTime : Z) messages myUserId acc st :
  (forall n, (ticks st <= n)%nat -> T <= clock n / 1000) ->
  cutoffTime <= T - 600 ->
  (recentLoop messages myUserId cutoffTime acc st).1 = acc.
Proof.
  intros Hclock Hcut. revert st Hclock.
  induction messages as [|[msg|] messages IH]; intros st Hclock;
    cbn [recentLoop]; [reflexivity | | now apply IH].
  unfold_M.
  pose proof (Hclock (ticks st) (le_n _)) as Hnow.
  destruct (date msg <? clock (ticks st) / 1000 - 600) eqn:Eold; [reflexivity|].
  apply Z.ltb_ge in Eold.
  assert (Hfresh : (date msg <? cutoffTime) = false) by (apply Z.ltb_ge; lia).
  rewrite Hfresh, andb_false_r.
  destruct (negb (isDeletableMessage (Some msg)));
    apply IH; simpl_state; intros n Hn; apply Hclock; lia.
Qed.

Lemma expiredOf_single cutoffTime msg :
  expiredOf cutoffTime [Some msg]
  = if isDeletableMessage (Some msg) && (date msg <? cutoffTime) then [msg] else [].
Proof.
  unfold expiredOf. cbn -[isDeletableMessage Z.ltb].
  now destruct (isDeletableMessage (Some msg) && (date msg <? cutoffTime)).
Qed.

(** C6, as the code has it.  With [autoDeleteMinutes = 10] the cutoff is
    600 s before the time [T] read when the sweep starts, and the clock does
    not run backwards afterwards.  Then the recent pass returns no message
    at all, whatever the newest 200 messages are: a message sent at
    [T - 601] stops its loop and is not included, one sent at [T - 599] is
    not yet expired and is not included either.  The filter of the
    historical pass is the one that keeps a deletable message sent at
    [T - 601], and it drops the one sent at [T - 599]. *)
Theorem recent_pass_boundary (chat : Chat) (myUserId : option Z) (st : State W)
    (n0 : nat) (old young : Message) :
  let T := clock n0 / 1000 in
  (n0 <= ticks st)%nat ->
  (forall i j, (i <= j)%nat -> clock i <= clock j) ->
  date old = T - 601 ->
  date young = T - 599 ->
  isDeletableMessage (Some old) = true ->
  let recent := (getRecentMessagesRealtime chat myUserId (T - 10 * 60) st).1 in
  recent = []
  /\ ~ In old recent /\ ~ In young recent
  /\ expiredOf (T - 10 * 60) [Some old] = [old]
  /\ expiredOf (T - 10 * 60) [Some young] = [].
Proof.
  intros T Hn0 Hmono Hold Hyoung Hdel recent.
  assert (Hempty : recent = []).
  { subst recent. unfold getRecentMessagesRealtime. unfold_M.
    destruct (getMessages chat RECENT_LIMIT (world st)) as [[|[messages|]] w'];
      try reflexivity.
    apply (recentLoop_keeps T); [|lia].
    simpl_state. intros n Hn. subst T.
    apply Z.div_le_mono; [lia|]. apply Hmono. lia. }
  split; [exact Hempty|]. rewrite Hempty.
  split; [intros []|]. split; [intros []|].
  rewrite !expiredOf_single, Hdel, Hold, Hyoung.
  replace (T - 601 <? T - 10 * 60) with true by (symmetry; apply Z.ltb_lt; lia).
  replace (T - 599 <? T - 10 * 60) with false by (symmetry; apply Z.ltb_ge; lia).
  rewrite andb_false_r. split; reflexivity.
Qed.

End RecentPass.

(** C6 fails as stated: at time [T], with the cutoff of
    [autoDeleteMinutes = 10], a deletable text message of the local user
    sent at [T - 601] and returned by [getMessages] is not in the output of
    the recent pass. *)
Lemma recent_pass_misses_expired :
  let client := testClient (fun _ => true) [Some (ownTextAt (scenarioT - 601))]
                  (fun _ => scenarioT * 1000) in
  ~ In (ownTextAt (scenarioT - 601))
       (@getRecentMessagesRealtime unit client someChat (Some 42)
          (scenarioT - 10 * 60) (initialState tt)).1.
Proof. vm_compute. intros []. Qed.

(** C6 as amended, in the scenario: both messages are among the newest
    messages of the chat and neither is in the output of the recent pass. *)
Lemma recent_pass_boundary_witness :
  let client := testClient (fun _ => true)
                  [Some (ownTextAt (scenarioT - 599));
                   Some (ownTextAt (scenarioT - 601))] (fun _ => scenarioT * 1000) in
  (@getRecentMessagesRealtime unit client someChat (Some 42)
     (scenarioT - 10 * 60) (initialState tt)).1 = []
  /\ expiredOf (scenarioT - 10 * 60) [Some (ownTextAt (scenarioT - 601))]
     = [ownTextAt (scenarioT - 601)].
Proof.
  cbn zeta.
  pose proof (@recent_pass_boundary unit
    (testClient (fun _ => true)
       [Some (ownTextAt (scenarioT - 599)); Some (ownTextAt (scenarioT - 601))]
       (fun _ => scenarioT * 1000))
    someChat (Some 42) (initialState tt) 0%nat
    (ownTextAt (scenarioT - 601)) (ownTextAt (scenarioT - 599))) as Hb.
  cbn zeta in Hb.
  destruct Hb as (He & _ & _ & Hx & _).
  - simpl. lia.
  - intros i j Hij. simpl. lia.
  - reflexivity.
  - reflexivity.
  - reflexivity.
  - split; [exact He | exact Hx].
Defined.

(** ** What the effects leave alone *)

Section Frame.
Context {W : Type} `{Client W}.

Lemma run_bind {A B : Type} (m : @M W A) (f : A -> @M W B) (st : State W) :
  (m ≫= f) st = f (m st).1 (m st).2.
Proof. unfold mbind, M_bind. now destruct (m st). Qed.

#[global] Instance quiet_preorder : PreOrder (quiet (W:=W)).
Proof.
  split.
  - intros st. split; [reflexivity | lia].
  - intros a b c [H1 H2] [H3 H4]. split; [congruence | lia].
Qed.

#[global] Instance calm_preorder : PreOrder (calm (W:=W)).
Proof.
  split.
  - intros st. split; reflexivity.
  - intros a b c [H1 H2] [H3 H4]. split; [now transitivity b | congruence].
Qed.

#[global] Instance sentKept_preorder : PreOrder (sentKept (W:=W)).
Proof. split; [now intros st | intros a b c; unfold sentKept; congruence]. Qed.

Lemma calm_quiet {A} (m : @M W A) : preserves calm m -> preserves quiet m.
Proof. intros Hm st. apply Hm. Qed.

Lemma preserves_bind R `{!Transitive R} {A B} (m : @M W A) (f : A -> @M W B) :
  preserves R m -> (forall a, preserves R (f a)) -> preserves R (m ≫= f).
Proof. intros Hm Hf st. rewrite run_bind. etransitivity; [apply Hm | apply Hf]. Qed.

Lemma preserves_ret R `{!Reflexive R} {A} (a : A) : preserves (W:=W) R (mret a).
Proof. intros st. reflexivity. Qed.

Lemma sendEvents_snoc l e :
  sendEvents (l ++ [e]) = if isSend e then sendEvents l ++ [e] else sendEvents l.
Proof.
  unfold sendEvents. rewrite List.filter_app. cbn [List.filter].
  destruct (isSend e); [reflexivity | apply app_nil_r].
Qed.

Lemma quiet_call {A} e (op : W -> A * W) : preserves quiet (call e op).
Proof. intros st. unfold call. destruct (op (world st)). split; [reflexivity | cbn; lia]. Qed.

Lemma calm_call {A} e (op : W -> A * W) :
  isSend e = false -> preserves calm (call e op).
Proof.
  intros He st. unfold call. destruct (op (world st)).
  split; [split; [reflexivity | cbn; lia]|].
  cbn. now rewrite sendEvents_snoc, He.
Qed.

Lemma sentKept_call {A} e (op : W -> A * W) : preserves sentKept (call e op).
Proof. intros st. unfold call. now destruct (op (world st)). Qed.

Lemma quiet_sleep ms : preserves (W:=W) quiet (sleep ms).
Proof. intros st. split; [reflexivity | cbn; lia]. Qed.

Lemma calm_sleep ms : preserves (W:=W) calm (sleep ms).
Proof.
  intros st. split; [apply quiet_sleep|]. cbn. now rewrite sendEvents_snoc.
Qed.

Lemma sentKept_sleep ms : preserves (W:=W) sentKept (sleep ms).
Proof. now intros st. Qed.

Lemma quiet_dateNow : preserves (W:=W) quiet dateNow.
Proof. intros st. split; [reflexivity | cbn; lia]. Qed.

Lemma calm_dateNow : preserves (W:=W) calm dateNow.
Proof. intros st. split; [apply quiet_dateNow | reflexivity]. Qed.

Lemma sentKept_dateNow : preserves (W:=W) sentKept dateNow.
Proof. now intros st. Qed.

Lemma quiet_getSent : preserves (W:=W) quiet getSent.
Proof. intros st. reflexivity. Qed.

Lemma calm_getSent : preserves (W:=W) calm getSent.
Proof. intros st. reflexivity. Qed.

Lemma quiet_setSent sn : preserves (W:=W) quiet (setSent sn).
Proof. intros st. split; [reflexivity | cbn; lia]. Qed.

Lemma calm_setSent sn : preserves (W:=W) calm (setSent sn).
Proof. intros st. split; [apply quiet_setSent | reflexivity]. Qed.

Lemma quiet_getProcessed : preserves (W:=W) quiet getProcessed.
Proof. intros st. reflexivity. Qed.

Lemma sentKept_getProcessed : preserves (W:=W) sentKept getProcessed.
Proof. now intros st. Qed.

Lemma sentKept_setProcessed pm : preserves (W:=W) sentKept (setProcessed pm).
Proof. now intros st. Qed.

End Frame.

Create HintDb frame.
#[export] Hint Resolve quiet_call calm_call sentKept_call quiet_sleep calm_sleep
  sentKept_sleep quiet_dateNow calm_dateNow sentKept_dateNow quiet_getSent
  calm_getSent quiet_setSent calm_setSent quiet_getProcessed
  sentKept_getProcessed sentKept_setProcessed : frame.
#[export] Hint Extern 1 (preserves _ (mret _)) =>
  apply preserves_ret; typeclasses eauto : frame.
#[export] Hint Extern 1 (isSend _ = false) => reflexivity : frame.

(** Split a goal about a computation along its binds and matches. *)
Ltac frame_step :=
  match goal with
  | |- preserves _ (_ ≫= _) =>
      apply preserves_bind; [typeclasses eauto | | intros ?]
  | |- preserves _ (match ?x with _ => _ end) => destruct x
  | |- preserves _ (if ?x then _ else _) => destruct x
  | |- _ => solve [auto with frame]
  end.

Ltac frame := repeat frame_step.

(** ** Retraction *)

Section Retraction.
Context {W : Type} `{Client W}.

Lemma botDeleteEach_keepsSent token chat ids n :
  preserves sentKept (botDeleteEach token chat ids n).
Proof. revert n. induction ids as [|id ids IH]; intros n; cbn [botDeleteEach]; frame. Qed.

Lemma clientDeleteEach_keepsSent chat ids n :
  preserves sentKept (clientDeleteEach chat ids n).
Proof. revert n. induction ids as [|id ids IH]; intros n; cbn [clientDeleteEach]; frame. Qed.

Lemma resolveTarget_keepsSent id : preserves sentKept (resolveTarget id).
Proof. unfold resolveTarget. frame. Qed.

Lemma clientDeletePrevious_keepsSent id ids :
  preserves sentKept (clientDeletePrevious id ids).
Proof.
  unfold clientDeletePrevious.
  apply preserves_bind; [typeclasses eauto | apply resolveTarget_keepsSent|]. intros e.
  frame. apply clientDeleteEach_keepsSent.
Qed.

Lemma deleteRecorded_keepsSent target token ids :
  preserves sentKept (deleteRecorded target token ids).
Proof.
  unfold deleteRecorded. destruct token as [t|]; [destruct (truthy t)|];
    auto using botDeleteEach_keepsSent, clientDeletePrevious_keepsSent.
Qed.

Lemma deletePreviousNotifications_run target token st :
  deletePreviousNotifications target token st
  = match default [] (sentNotificationMessages st !! target) with
    | [] => (tt, st)
    | ids =>
        let st1 := (deleteRecorded target token ids st).2 in
        (tt, {| world := world st1; ticks := ticks st1; log := log st1;
                processedMessages := processedMessages st1;
                sentNotificationMessages :=
                  <[target := []]> (sentNotificationMessages st1) |})
    end.
Proof.
  unfold deletePreviousNotifications. rewrite run_bind. cbn [getSent fst snd].
  destruct (default [] (sentNotificationMessages st !! target)) as [|id ids];
    [reflexivity|].
  rewrite run_bind. fold (deleteRecorded target token (id :: ids)).
  now rewrite run_bind.
Qed.

(** C9: after [deletePreviousNotifications] has run for a target, the
    target has no dispatched id left; if it had a record, the record is
    still there and is empty; the records of the other targets are as they
    were; and a retraction run again at once for the same target finds
    nothing to delete: it makes no call and changes nothing. *)
Theorem retraction_clears_record (target : jsstring) (token : option jsstring)
    (st : State W) :
  let st' := (deletePreviousNotifications target token st).2 in
  default [] (sentNotificationMessages st' !! target) = []
  /\ (is_Some (sentNotificationMessages st !! target) ->
      sentNotificationMessages st' !! target = Some [])
  /\ (forall other, other <> target ->
      sentNotificationMessages st' !! other = sentNotificationMessages st !! other)
  /\ (deletePreviousNotifications target token st').2 = st'.
Proof.
  cbn zeta. rewrite deletePreviousNotifications_run.
  destruct (default [] (sentNotificationMessages st !! target)) as [|id ids] eqn:E.
  - cbn [snd]. rewrite deletePreviousNotifications_run, E. repeat split; try done.
    intros [ids Hids]. rewrite Hids in E. cbn in E. now subst ids.
  - cbn zeta. cbn [snd]. rewrite deletePreviousNotifications_run.
    simpl_state. rewrite lookup_insert_eq. cbn [default].
    repeat split; try done.
    intros other Hother. rewrite lookup_insert_ne by congruence.
    now rewrite deleteRecorded_keepsSent.
Qed.

End Retraction.

(** C9 on a target with three dispatched ids. *)
Lemma retraction_clears_record_witness :
  let client := testClient (fun _ => true) [] (fun n => Z.of_nat n) in
  let st := {| world := tt; ticks := 0; log := [];
               processedMessages := ∅;
               sentNotificationMessages := {[ u "-1001" := [7; 8; 9] ]} |} in
  sentNotificationMessages
    (@deletePreviousNotifications unit client (u "-1001") None st).2 !! u "-1001"
  = Some [].
Proof.
  cbn zeta.
  refine (proj1 (proj2 (@retraction_clears_record unit
            (testClient (fun _ => true) [] (fun n => Z.of_nat n)) (u "-1001") None _)) _).
  cbn [sentNotificationMessages]. rewrite lookup_singleton_eq. eauto.
Defined.

(** ** [handleMessage] and the dedup map *)

Section HandleMessage.
Context {W : Type} `{Client W}.

Lemma resolveTarget_calm id : preserves calm (resolveTarget id).
Proof. unfold resolveTarget. frame. Qed.

Lemma botDeleteEach_calm token chat ids n :
  preserves calm (botDeleteEach token chat ids n).
Proof. revert n. induction ids as [|id ids IH]; intros n; cbn [botDeleteEach]; frame. Qed.

Lemma clientDeleteEach_calm chat ids n :
  preserves calm (clientDeleteEach chat ids n).
Proof. revert n. induction ids as [|id ids IH]; intros n; cbn [clientDeleteEach]; frame. Qed.

Lemma clientDeletePrevious_calm id ids : preserves calm (clientDeletePrevious id ids).
Proof.
  unfold clientDeletePrevious.
  apply preserves_bind; [typeclasses eauto | apply resolveTarget_calm|]. intros e.
  frame. apply clientDeleteEach_calm.
Qed.

Lemma deletePreviousNotifications_calm target token :
  preserves calm (deletePreviousNotifications target token).
Proof.
  unfold deletePreviousNotifications. frame;
    auto using botDeleteEach_calm, clientDeletePrevious_calm.
Qed.

Lemma deleteForTargets_calm targets token :
  preserves calm (deleteForTargets targets token).
Proof.
  induction targets as [|t targets IH]; cbn [deleteForTargets]; frame.
  apply deletePreviousNotifications_calm.
Qed.

Lemma resolveChat_calm m : preserves calm (resolveChat m).
Proof. unfold resolveChat. frame. Qed.

Lemma fetchWithRetryFrom_quiet q attempt remaining :
  preserves quiet (fetchWithRetryFrom q attempt remaining).
Proof.
  revert attempt. induction remaining as [|r IH]; intros attempt;
    cbn [fetchWithRetryFrom]; frame.
Qed.

Lemma recordSent_quiet target mid : preserves (W:=W) quiet (recordSent target mid).
Proof. unfold recordSent. frame. Qed.

Lemma botSendOne_quiet token target txt : preserves quiet (botSendOne token target txt).
Proof.
  unfold botSendOne, fetchWithRetry.
  apply preserves_bind; [typeclasses eauto | apply fetchWithRetryFrom_quiet|].
  intros r. frame; apply recordSent_quiet.
Qed.

Lemma botSendAll_quiet token targets txt : preserves quiet (botSendAll token targets txt).
Proof.
  induction targets as [|t targets IH]; cbn [botSendAll]; frame.
  apply botSendOne_quiet.
Qed.

Lemma clientSendOne_quiet target txt : preserves quiet (clientSendOne target txt).
Proof.
  unfold clientSendOne.
  apply preserves_bind;
    [typeclasses eauto | apply calm_quiet, resolveTarget_calm|].
  intros e. frame; apply recordSent_quiet.
Qed.

Lemma clientSendAll_quiet targets txt n : preserves quiet (clientSendAll targets txt n).
Proof.
  revert n. induction targets as [|t targets IH]; intros n; cbn [clientSendAll]; frame.
  apply clientSendOne_quiet.
Qed.

Lemma sendNotification_quiet m chat nid token kws :
  preserves quiet (sendNotification m chat nid token kws).
Proof.
  unfold sendNotification. frame;
    auto using botSendAll_quiet, clientSendAll_quiet.
Qed.

Lemma dedupAndNotify_handled r m chat normalizedChatId txt :
  handledBy (dedupAndNotify r m chat normalizedChatId txt).
Proof.
  intros st. unfold dedupAndNotify. cbn zeta. rewrite run_bind. cbn [getProcessed fst snd].
  destruct (processedMessages st !! _) as [prev|] eqn:E.
  - rewrite run_bind. unfold handled. cbn [dateNow mret M_ret fst snd]. simpl_state.
    rewrite E. repeat split; eauto; lia.
  - rewrite !run_bind. cbn [dateNow setProcessed fst snd].
    match goal with |- context [sendNotification ?a ?b ?c ?d ?e ?s] =>
      pose proof (sendNotification_quiet a b c d e s) as [Hpm Ht];
      destruct (sendNotification a b c d e s) as [sent st'] end.
    simpl_state. unfold handled. cbn [mret M_ret fst snd].
    split; [lia|]. split; [exact E|].
    exists (ticks st), txt. split; [lia | exact Hpm].
Qed.

Lemma handledBy_bind {A} (m : @M W A) (f : A -> @M W Outcome) :
  preserves calm m -> (forall a, handledBy (f a)) -> handledBy (m ≫= f).
Proof.
  intros Hm Hf st. rewrite run_bind.
  destruct (Hm st) as [[Hpm Ht] Hs].
  destruct (Hf (m st).1 (m st).2) as [Ht' Ho].
  split; [lia|].
  destruct (f (m st).1 (m st).2).1; rewrite ?Hpm, ?Hs in Ho;
    try exact Ho.
  destruct Ho as (Hn & n & txt' & Hr & Hi).
  split; [exact Hn|]. exists n, txt'. split; [lia | exact Hi].
Qed.

Lemma handledBy_ret o :
  match o with Notified _ _ | Duplicate _ => False | _ => True end ->
  handledBy (mret o).
Proof.
  intros Ho st. split; [cbn; lia|].
  destruct o; try contradiction; split; reflexivity.
Qed.

End HandleMessage.

(** Split a goal about [handleMessage] along its binds and matches. *)
Ltac handled_step :=
  match goal with
  | |- handledBy (mret _) => apply handledBy_ret; exact I
  | |- handledBy (dedupAndNotify _ _ _ _ _) => apply dedupAndNotify_handled
  | |- handledBy (_ ≫= _) =>
      apply handledBy_bind;
      [first [apply deleteForTargets_calm | apply resolveChat_calm] | intros ?]
  | |- handledBy (match ?x with _ => _ end) => destruct x
  | |- handledBy (if ?x then _ else _) => destruct x
  | |- handledBy (let _ := _ in _) => cbn zeta
  end.

Section HandleMessageSpec.
Context {W : Type} `{Client W}.

Lemma handleMonitored_handled r m chat normalizedChatId normalizedSenderId :
  handledBy (handleMonitored r m chat normalizedChatId normalizedSenderId).
Proof. unfold handleMonitored. cbn zeta. repeat handled_step. Qed.

Lemma handleMessage_handled r m : handledBy (handleMessage r m).
Proof.
  unfold handleMessage. cbn zeta.
  repeat first [apply handleMonitored_handled | handled_step].
Qed.

End HandleMessageSpec.

(** ** Dedup marking and dispatch *)

Section DedupMark.
Context {W : Type} `{Client W}.

(** The end of [handleMessage] on a key that is absent: the key is recorded
    first, and [sendNotification] runs from the state that has it. *)
Lemma dedupAndNotify_marks_first (r : Rules) (m : Message) (chat : option Chat)
    (normalizedChatId txt : jsstring) (st : State W) :
  let key := normalizedChatId ++ u ":" ++ numToString (msg_id m) in
  processedMessages st !! key = None ->
  let marked :=
    {| world := world st; ticks := S (ticks st); log := log st;
       processedMessages :=
         <[key := {| ts := clock (ticks st); text := txt |}]> (processedMessages st);
       sentNotificationMessages := sentNotificationMessages st |} in
  let dispatch := sendNotification m chat (NOTIFICATION_CHAT_ID r)
                    (TELEGRAM_BOT_TOKEN r) (USER_KEYWORDS r) marked in
  dedupAndNotify r m chat normalizedChatId txt st
  = (Notified key dispatch.1, dispatch.2).
Proof.
  intros key Hnone marked dispatch. unfold dedupAndNotify. cbn zeta.
  rewrite run_bind. cbn [getProcessed fst snd]. fold key. rewrite Hnone.
  rewrite !run_bind. cbn [dateNow setProcessed fst snd]. simpl_state.
  reflexivity.
Qed.

(** C10: when [handleMessage] reaches the dispatch for a key [k], the key
    was absent and is recorded with the time just read, whatever the
    dispatch then does and returns ([sent] may be [false]: no target
    received the notification).  While the key is recorded no message is
    dispatched for it, and a call that does not reach the dispatch writes
    nothing to the dedup map and dispatches nothing.  The recording comes
    first: the dispatch runs from a state that already holds the key. *)
Theorem dedup_mark_survives_dispatch (r : Rules) (m : Message) (st : State W)
    (k : jsstring) (sent : bool) :
  (handleMessage r m st).1 = Notified k sent ->
  let st' := (handleMessage r m st).2 in
  processedMessages st !! k = None
  /\ (exists n txt,
        (ticks st <= n < ticks st')%nat
        /\ processedMessages st'
           = <[k := {| ts := clock n; text := txt |}]> (processedMessages st))
  /\ (forall (m2 : Message) (st2 : State W),
        is_Some (processedMessages st2 !! k) ->
        let r2 := handleMessage r m2 st2 in
        (forall s, r2.1 <> Notified k s)
        /\ ((forall k' s, r2.1 <> Notified k' s) ->
            processedMessages r2.2 = processedMessages st2
            /\ sendEvents (log r2.2) = sendEvents (log st2)))
  /\ (forall chat normalizedChatId txt (st2 : State W),
        let key := normalizedChatId ++ u ":" ++ numToString (msg_id m) in
        processedMessages st2 !! key = None ->
        exists marked,
          is_Some (processedMessages marked !! key)
          /\ log marked = log st2
          /\ let dispatch := sendNotification m chat (NOTIFICATION_CHAT_ID r)
                               (TELEGRAM_BOT_TOKEN r) (USER_KEYWORDS r) marked in
             dedupAndNotify r m chat normalizedChatId txt st2
             = (Notified key dispatch.1, dispatch.2)).
Proof.
  intros Ho st'. subst st'.
  destruct (handleMessage_handled r m st) as [_ Hh]. rewrite Ho in Hh.
  destruct Hh as [Hnone Hins]. split; [exact Hnone|]. split; [exact Hins|].
  split; cycle 1.
  { intros chat ncid txt st2 key Hkey. eexists. split; [|split; [|
      exact (dedupAndNotify_marks_first r m chat ncid txt st2 Hkey)]].
    - cbn [processedMessages]. rewrite lookup_insert_eq. eauto.
    - reflexivity. }
  intros m2 st2 Hsome. cbn zeta.
  destruct (handleMessage_handled r m2 st2) as [_ Hh2].
  split.
  - intros s Hn. rewrite Hn in Hh2. destruct Hh2 as [Hn2 _].
    rewrite Hn2 in Hsome. now destruct Hsome.
  - intros Hnot. destruct (handleMessage r m2 st2).1 eqn:Eo;
      try exact Hh2; [tauto | now destruct (Hnot dedupKey sent0)].
Qed.

End DedupMark.

(** C10 without a network: every send throws, so no target receives the
    notification; the key is recorded all the same and the replay of the
    message is dropped as a duplicate. *)
Lemma dedup_mark_survives_dispatch_witness :
  let client := testClient (fun _ => true) [] (fun n => Z.of_nat n) in
  let res := @handleMessage unit client monitorAll groupMessage (initialState tt) in
  res.1 = Notified groupMessageKey false
  /\ is_Some (processedMessages res.2 !! groupMessageKey)
  /\ (@handleMessage unit client monitorAll groupMessage res.2).1
     = Duplicate groupMessageKey
  /\ forall s, (@handleMessage unit client monitorAll groupMessage res.2).1
               <> Notified groupMessageKey s.
Proof.
  cbn zeta.
  assert (Ho : (@handleMessage unit (testClient (fun _ => true) [] (fun n => Z.of_nat n))
                  monitorAll groupMessage (initialState tt)).1
               = Notified groupMessageKey false) by (vm_compute; reflexivity).
  destruct (@dedup_mark_survives_dispatch unit
              (testClient (fun _ => true) [] (fun n => Z.of_nat n))
              monitorAll groupMessage (initialState tt) groupMessageKey false Ho)
    as (_ & (n & txt & _ & Hins) & Hreplay & _).
  assert (Hsome : is_Some (processedMessages
            (@handleMessage unit (testClient (fun _ => true) [] (fun n => Z.of_nat n))
               monitorAll groupMessage (initialState tt)).2 !! groupMessageKey)).
  { rewrite Hins, lookup_insert_eq. eauto. }
  split; [exact Ho|]. split; [exact Hsome|].
  split; [vm_compute; reflexivity|].
  exact (proj1 (Hreplay groupMessage _ Hsome)).
Defined.

(** ** The allow-list and migrated groups *)

Section Migration.
Context {W : Type} `{Client W}.

Lemma normalizeIds_nil ids : ids = [] -> normalizeIds ids = [].
Proof. now intros ->. Qed.

(** With the rules [initializeMonitoring] derives, a chat that fails the
    membership test of step 5 is dropped there: the compatibility test of
    step 6 on the old chat id is never reached. *)
Lemma migration_test_unreachable (config : Config) (self bot : jsstring)
    (m : Message) (chat : option Chat) (normalizedChatId normalizedSenderId : jsstring)
    (st : State W) :
  let rules := md_rules (initializeMonitoring config self bot) in
  normalizedMonitorIds rules <> [] ->
  (truthy normalizedChatId
   && isMember normalizedChatId (normalizedMonitorIds rules)) = false ->
  handleMonitored rules m chat normalizedChatId normalizedSenderId st
  = (NotInMonitorList, st).
Proof.
  cbn zeta. unfold initializeMonitoring. cbn [md_rules]. intros Hne Hout.
  unfold handleMonitored. cbn zeta.
  cbn [normalizedMonitorIds monitorChatIds] in *.
  remember (parseConfigList (monitorChatIdsRaw config)) as ids eqn:E. clear E.
  destruct ids as [|i ids]; [now destruct Hne|].
  destruct (normalizeIds (i :: ids)) eqn:En; [now destruct Hne|].
  now rewrite Hout.
Qed.

End Migration.

(** C8 at the failing input: the allow-list holds the old id [-12345] of a
    group migrated to channel 67890.  The old id is in the normalized
    allow-list, yet the message is dropped at step 5, with nothing recorded
    and nothing dispatched. *)
Theorem migrated_group_dropped :
  let client := testClient (fun _ => true) [] (fun n => Z.of_nat n) in
  let rules := md_rules (@initializeMonitoring unit client
                           (monitoringConfig oldIdEnv) (u "42") []) in
  let res := @handleMessage unit client rules migratedMessage (initialState tt) in
  isMember (normalizeId (RawStr (u "-" ++ numToString 12345)))
    (normalizedMonitorIds rules) = true
  /\ res.1 = NotInMonitorList
  /\ processedMessages res.2 = ∅
  /\ sendEvents (log res.2) = [].
Proof. vm_compute. repeat split; reflexivity. Qed.

(** ** Disabling the expiry sweep *)

Section ExpiryGuard.
Context {W : Type} `{Client W}.

(** The configured age is never 0: [0] is replaced by the default. *)
Lemma AUTO_DELETE_MINUTES_nonzero env : AUTO_DELETE_MINUTES env <> 0.
Proof.
  unfold AUTO_DELETE_MINUTES, numOr.
  destruct (parseInt _) as [v|]; [|discriminate].
  destruct (v =? 0) eqn:E; [discriminate | now apply Z.eqb_neq].
Qed.

(** A negative age disables the sweep: no timer is set, and
    [deleteExpiredMessages] returns at its guard without any call. *)
Lemma expiry_disabled_when_negative env self bot (st : State W) :
  AUTO_DELETE_MINUTES env < 0 ->
  startAutoDeleteInterval
    (intervalMs (initializeMonitoring (monitoringConfig env) self bot)) = None
  /\ deleteExpiredMessages env st = (None, st).
Proof.
  intros Hneg. split.
  - unfold intervalMs, initializeMonitoring, monitoringConfig.
    cbn [md_autoDeleteMinutes autoDeleteMinutes].
    replace (0 <? AUTO_DELETE_MINUTES env) with false
      by (symmetry; apply Z.ltb_ge; lia).
    reflexivity.
  - unfold deleteExpiredMessages. cbn zeta. fold (AUTO_DELETE_MINUTES env).
    replace (AUTO_DELETE_MINUTES env <=? 0) with true
      by (symmetry; apply Z.leb_le; lia).
    reflexivity.
Qed.

End ExpiryGuard.

(** C3 at the failing input [AUTO_DELETE_MINUTES=0]: the age in force is
    10 minutes, the timer is set with a period of 10 minutes, and a run of
    [deleteExpiredMessages] scans the chat and deletes the message of the
    local user that is an hour old. *)
Theorem zero_age_does_not_disable :
  let T := scenarioT in
  let client := liveClient [Some (ownTextAt (T - 3600))]
                           [Some (ownTextAt (T - 3600))] (T * 1000) in
  let res := @deleteExpiredMessages unit client zeroAutoDeleteEnv (initialState tt) in
  AUTO_DELETE_MINUTES zeroAutoDeleteEnv = 10
  /\ startAutoDeleteInterval
       (intervalMs (@initializeMonitoring unit client
                      (monitoringConfig zeroAutoDeleteEnv) (u "42") []))
     = Some 600000
  /\ res.1 = Some {| deleted := 1; failed := 0 |}
  /\ In (EvGetMessages someChat RECENT_LIMIT) (log res.2)
  /\ In (EvDeleteMessages someChat [T - 3600]) (log res.2).
Proof. vm_compute. repeat split; try reflexivity; tauto. Qed.

(** The same sweep with [AUTO_DELETE_MINUTES=-5] is disabled. *)
Lemma negative_age_disables :
  let T := scenarioT in
  let client := liveClient [Some (ownTextAt (T - 3600))]
                           [Some (ownTextAt (T - 3600))] (T * 1000) in
  @deleteExpiredMessages unit client negativeAutoDeleteEnv (initialState tt)
  = (None, initialState tt)
  /\ startAutoDeleteInterval
       (intervalMs (@initializeMonitoring unit client
                      (monitoringConfig negativeAutoDeleteEnv) (u "42") []))
     = None.
Proof.
  cbn zeta.
  apply and_comm, (@expiry_disabled_when_negative unit). vm_compute. reflexivity.
Qed.

(** ** The dedup window *)

Section ExpiryQuiet.
Context {W : Type} `{Client W}.

Lemma recentLoop_quiet messages me cutoff acc :
  preserves quiet (recentLoop messages me cutoff acc).
Proof.
  revert acc. induction messages as [|[msg|] messages IH]; intros acc;
    cbn [recentLoop]; frame.
Qed.

Lemma getRecentMessagesRealtime_quiet chat me cutoff :
  preserves quiet (getRecentMessagesRealtime chat me cutoff).
Proof. unfold getRecentMessagesRealtime. frame. apply recentLoop_quiet. Qed.

Lemma searchLoop_quiet chat uid hash cutoff minDate maxDate offsetId pages older :
  preserves quiet
    (searchLoop chat uid hash cutoff minDate maxDate offsetId pages older).
Proof.
  revert offsetId older. induction pages as [|pages IH]; intros offsetId older;
    cbn [searchLoop]; cbn zeta; frame.
Qed.

Lemma searchOlderMessages_quiet chat uid hash cutoff minDate :
  preserves quiet (searchOlderMessages chat uid hash cutoff minDate).
Proof.
  unfold searchOlderMessages. cbn zeta.
  apply preserves_bind; [typeclasses eauto | apply quiet_dateNow|]. intros now.
  apply preserves_bind; [typeclasses eauto | apply searchLoop_quiet|]. intros r.
  frame.
Qed.

Lemma deleteOneByOne_quiet chat ids d f :
  preserves quiet (deleteOneByOne chat ids d f).
Proof.
  revert d f. induction ids as [|id ids IH]; intros d f; cbn [deleteOneByOne]; frame.
Qed.

Lemma safeDeleteMessages_quiet chat ids : preserves quiet (safeDeleteMessages chat ids).
Proof. unfold safeDeleteMessages. frame. apply deleteOneByOne_quiet. Qed.

Lemma scanTask_quiet chat user cutoff : preserves quiet (scanTask chat user cutoff).
Proof.
  unfold scanTask.
  apply preserves_bind;
    [typeclasses eauto | apply getRecentMessagesRealtime_quiet|]. intros r.
  apply preserves_bind; [typeclasses eauto | apply searchOlderMessages_quiet|].
  intros o. frame.
Qed.

Lemma scanBatch_quiet chats user cutoff : preserves quiet (scanBatch chats user cutoff).
Proof.
  induction chats as [|c chats IH]; cbn [scanBatch]; frame. apply scanTask_quiet.
Qed.

Lemma runInBatches_quiet chats user cutoff conc fuel acc :
  preserves quiet (runInBatches chats user cutoff conc fuel acc).
Proof.
  revert chats acc. induction fuel as [|fuel IH]; intros chats acc;
    destruct chats; cbn [runInBatches]; frame.
  apply scanBatch_quiet.
Qed.

Lemma deleteInBatches_quiet chat ids size fuel acc :
  preserves quiet (deleteInBatches chat ids size fuel acc).
Proof.
  revert ids acc. induction fuel as [|fuel IH]; intros ids acc;
    destruct ids; cbn [deleteInBatches]; frame.
  apply safeDeleteMessages_quiet.
Qed.

Lemma deletePhase_quiet results size total :
  preserves quiet (deletePhase results size total).
Proof.
  revert total. induction results as [|res results IH]; intros total;
    cbn [deletePhase]; [frame|].
  destruct (expiredMessages res); [apply IH|].
  apply preserves_bind; [typeclasses eauto | apply deleteInBatches_quiet|].
  intros r. apply IH.
Qed.

Lemma deleteExpiredMessages_quiet env : preserves quiet (deleteExpiredMessages env).
Proof.
  unfold deleteExpiredMessages. cbn zeta.
  repeat first
    [ apply runInBatches_quiet | apply deletePhase_quiet
    | match goal with
      | |- preserves _ (match ?x with _ => _ end) => destruct x
      | |- preserves _ (if ?x then _ else _) => destruct x
      | |- preserves _ (_ ≫= _) =>
          apply preserves_bind; [typeclasses eauto | | intros ?]
      end
    | solve [auto with frame] ].
Qed.

End ExpiryQuiet.

Section DedupWindow.
Context {W : Type} `{Client W}.

Lemma lookup_foldr_delete (m : gmap jsstring Entry) (ks : list jsstring) k :
  foldr delete m ks !! k = if decide (k ∈ ks) then None else m !! k.
Proof.
  induction ks as [|k' ks IH]; cbn [foldr].
  - rewrite decide_False by apply not_elem_of_nil. reflexivity.
  - destruct (decide (k' = k)) as [->|Hne].
    + rewrite lookup_delete_eq, decide_True by apply list_elem_of_here. reflexivity.
    + rewrite lookup_delete_ne, IH by assumption.
      destruct (decide (k ∈ ks)) as [Hin|Hnin].
      * rewrite decide_True by now apply list_elem_of_further. reflexivity.
      * rewrite decide_False; [reflexivity|].
        intros Hin. apply elem_of_cons in Hin as [->|Hin]; [now destruct Hne|tauto].
Qed.

(** What a sweep does to a key: its entry is removed exactly when it is
    older than the window at the time the sweep reads. *)
Lemma cleanupProcessedMessages_lookup (windowMinutes : Z) (st : State W) k :
  let st' := (cleanupProcessedMessages windowMinutes st).2 in
  processedMessages st' !! k
  = match processedMessages st !! k with
    | Some e =>
        if decide (clock (ticks st) - ts e > windowMinutes * 60 * 1000)
        then None else Some e
    | None => None
    end.
Proof.
  cbn zeta. unfold cleanupProcessedMessages. cbn zeta.
  rewrite !run_bind. cbn [dateNow getProcessed setProcessed fst snd]. simpl_state.
  rewrite lookup_foldr_delete.
  set (P := fun kv : jsstring * Entry =>
         clock (ticks st) - ts kv.2 > windowMinutes * 60 * 1000).
  destruct (processedMessages st !! k) as [e|] eqn:E.
  - destruct (decide (clock (ticks st) - ts e > windowMinutes * 60 * 1000)) as [Hold|Hnew].
    + rewrite decide_True; [reflexivity|].
      apply list_elem_of_In, in_map_iff. exists (k, e). split; [reflexivity|].
      apply list_elem_of_In, list_elem_of_filter. split; [exact Hold|].
      now apply elem_of_map_to_list.
    + rewrite decide_False; [reflexivity|].
      intros Hin. apply list_elem_of_In, in_map_iff in Hin as ([k' e'] & Hk & Hin).
      cbn in Hk. subst k'.
      apply list_elem_of_In, list_elem_of_filter in Hin as [Hold Hin].
      apply elem_of_map_to_list in Hin. rewrite E in Hin. injection Hin as <-.
      now apply Hnew.
  - destruct (decide _) as [Hin|]; reflexivity.
Qed.

Lemma cleanupProcessedMessages_ticks (windowMinutes : Z) (st : State W) :
  ticks (cleanupProcessedMessages windowMinutes st).2 = S (ticks st).
Proof.
  unfold cleanupProcessedMessages. cbn zeta.
  rewrite !run_bind. reflexivity.
Qed.

(** One reaction of the service keeps an entry, unless it is a sweep that
    reads a time at which the entry is older than the window. *)
Lemma react_keeps_entry env md t (st : State W) k e :
  processedMessages st !! k = Some e ->
  clock (ticks st) - ts e <= md_dedupWindowMinutes md * 60 * 1000 ->
  let st' := (react env md t st).2 in
  processedMessages st' !! k = Some e /\ (ticks st <= ticks st')%nat.
Proof.
  intros Hk Hfresh. cbn zeta. destruct t as [m| |]; cbn [react].
  - rewrite run_bind. cbn [mret M_ret snd].
    destruct (handleMessage_handled (md_rules md) m st) as [Ht Ho].
    split; [|exact Ht].
    destruct (handleMessage (md_rules md) m st).1;
      try (destruct Ho as [-> _]; exact Hk).
    + destruct Ho as (_ & -> & _). exact Hk.
    + destruct Ho as (Hnone & n & txt & _ & ->).
      rewrite lookup_insert_ne; [exact Hk|]. intros ->. congruence.
  - rewrite cleanupProcessedMessages_lookup, cleanupProcessedMessages_ticks, Hk.
    rewrite decide_False by lia. split; [reflexivity | lia].
  - destruct (startAutoDeleteInterval (intervalMs md)); [|split; [exact Hk | cbn; lia]].
    rewrite run_bind. cbn [mret M_ret snd].
    destruct (deleteExpiredMessages_quiet env st) as [-> Ht]. now split.
Qed.

Lemma react_ticks env md t (st : State W) :
  (ticks st <= ticks (react env md t st).2)%nat.
Proof.
  destruct t as [m| |]; cbn [react].
  - rewrite run_bind. apply handleMessage_handled.
  - rewrite cleanupProcessedMessages_ticks. lia.
  - destruct (startAutoDeleteInterval (intervalMs md)); [|cbn; lia].
    rewrite run_bind. apply deleteExpiredMessages_quiet.
Qed.

Lemma reactAll_ticks env md ts (st : State W) :
  (ticks st <= ticks (reactAll env md ts st).2)%nat.
Proof.
  revert st. induction ts as [|t ts IH]; intros st; cbn [reactAll]; [cbn; lia|].
  rewrite run_bind. etransitivity; [apply (react_ticks env md t)|apply IH].
Qed.

(** An entry outlives every reaction made before the end of its window. *)
Lemma reactAll_keeps_entry env md triggers (st : State W) k e :
  (forall i j, (i <= j)%nat -> clock i <= clock j) ->
  processedMessages st !! k = Some e ->
  clock (ticks (reactAll env md triggers st).2)
    <= ts e + md_dedupWindowMinutes md * 60 * 1000 ->
  processedMessages (reactAll env md triggers st).2 !! k = Some e.
Proof.
  intros Hmono. revert st.
  induction triggers as [|t triggers IH]; intros st Hk Hend; cbn [reactAll] in *;
    [exact Hk|].
  rewrite run_bind in *.
  pose proof (reactAll_ticks env md triggers (react env md t st).2) as Hlater.
  assert (Hfresh : clock (ticks st) - ts e <= md_dedupWindowMinutes md * 60 * 1000).
  { pose proof (react_ticks env md t st) as Hstep.
    pose proof (Hmono (ticks st) _ (Nat.le_trans _ _ _ Hstep Hlater)). lia. }
  destruct (react_keeps_entry env md t st k e Hk Hfresh) as [Hk' _].
  now apply IH.
Qed.

(** C1, as the code has it.  Let [handleMessage] accept a message with
    fingerprint [k]: the fingerprint is recorded with the time [ts e] read
    then.  Whatever the service does next, a message arriving before
    [ts e] plus the window is never dispatched under [k].  The fingerprint
    is accepted again once a sweep has run at a time later than [ts e] plus
    the window: the sweep removes the entry, and from then on a message
    reaching the dedup test with [k] is not a duplicate.  Until the entry
    is removed no message is dispatched under [k], also when the window has
    elapsed. *)
Theorem dedup_window (env : ProcessEnv) (md : MonitoringData) (m0 : Message)
    (st0 : State W) (k : jsstring) (sent : bool) :
  let rules := md_rules md in
  let ttl := md_dedupWindowMinutes md * 60 * 1000 in
  (forall i j, (i <= j)%nat -> clock i <= clock j) ->
  (handleMessage rules m0 st0).1 = Notified k sent ->
  let st1 := (handleMessage rules m0 st0).2 in
  is_Some (processedMessages st1 !! k)
  /\ (forall m1 (st : State W),
        is_Some (processedMessages st !! k) ->
        forall s, (handleMessage rules m1 st).1 <> Notified k s)
  /\ forall e, processedMessages st1 !! k = Some e ->
     (forall triggers m1,
         let st2 := (reactAll env md triggers st1).2 in
         clock (ticks st2) < ts e + ttl ->
         forall s, (handleMessage rules m1 st2).1 <> Notified k s)
     /\ (forall triggers m1,
           let st2 := (reactAll env md triggers st1).2 in
           processedMessages st2 !! k = Some e ->
           ts e + ttl < clock (ticks st2) ->
           let st3 := (cleanupProcessedMessages (md_dedupWindowMinutes md) st2).2 in
           processedMessages st3 !! k = None
           /\ (handleMessage rules m1 st3).1 <> Duplicate k).
Proof.
  intros rules ttl Hmono Ho st1.
  destruct (handleMessage_handled rules m0 st0) as [_ Hh]. rewrite Ho in Hh.
  destruct Hh as (_ & n & txt & _ & Hins).
  split; [subst st1; rewrite Hins, lookup_insert_eq; eauto|].
  split.
  { intros m1 st [e' He'] s Hn.
    destruct (handleMessage_handled rules m1 st) as [_ Hh1]. rewrite Hn in Hh1.
    destruct Hh1 as [Hnone _]. congruence. }
  intros e He. split.
  - intros triggers m1 st2 Hin s Hn.
    assert (Hk : processedMessages st2 !! k = Some e)
      by (subst st2 ttl; apply reactAll_keeps_entry; [assumption | assumption | lia]).
    destruct (handleMessage_handled rules m1 st2) as [_ Hh2]. rewrite Hn in Hh2.
    destruct Hh2 as [Hnone _]. congruence.
  - intros triggers m1 st2 Hk Hout st3.
    assert (Hgone : processedMessages st3 !! k = None).
    { subst st3 ttl. rewrite cleanupProcessedMessages_lookup, Hk.
      rewrite decide_True by lia. reflexivity. }
    split; [exact Hgone|]. intros Hd.
    destruct (handleMessage_handled rules m1 st3) as [_ Hh3]. rewrite Hd in Hh3.
    destruct Hh3 as [[e' He'] _]. congruence.
Qed.

End DedupWindow.

(** C1 fails as stated.  Window of one minute; the message is accepted at
    time 0; the sweep at 59999 ms keeps its entry; the same message arrives
    at 60001 ms, after the window, and is still dropped as a duplicate. *)
Lemma dedup_still_rejected_after_window :
  let client := testClient (fun _ => true) [] windowClock in
  let md := @initializeMonitoring unit client
              (monitoringConfig oneMinuteWindowEnv) (u "42") [] in
  let st1 := (@handleMessage unit client (md_rules md) groupMessage
                (initialState tt)) in
  let st2 := (@reactAll unit client oneMinuteWindowEnv md [CleanupTimer] st1.2).2 in
  md_dedupWindowMinutes md = 1
  /\ st1.1 = Notified groupMessageKey false
  /\ (ts <$> processedMessages st1.2 !! groupMessageKey) = Some 0
  /\ @clock unit client (ticks st2) = 0 + 1 * 60 * 1000 + 1
  /\ (@handleMessage unit client (md_rules md) groupMessage st2).1
     = Duplicate groupMessageKey.
Proof. vm_compute. repeat split; reflexivity. Qed.

(** C1 as amended, in the same scenario: the message is rejected at
    59999 ms; it is accepted again after the sweep that reads 119999 ms. *)
Lemma dedup_window_witness :
  let client := testClient (fun _ => true) [] windowClock in
  let md := @initializeMonitoring unit client
              (monitoringConfig oneMinuteWindowEnv) (u "42") [] in
  let st1 := (@handleMessage unit client (md_rules md) groupMessage
                (initialState tt)).2 in
  let st2 := (@reactAll unit client oneMinuteWindowEnv md
                [CleanupTimer; Update groupMessage] st1).2 in
  let st3 := (@cleanupProcessedMessages unit client 1 st2).2 in
  (forall s, (@handleMessage unit client (md_rules md) groupMessage st1).1
             <> Notified groupMessageKey s)
  /\ processedMessages st3 !! groupMessageKey = None
  /\ (@handleMessage unit client (md_rules md) groupMessage st3).1
     = Notified groupMessageKey false.
Proof.
  cbn zeta.
  pose proof (@dedup_window unit (testClient (fun _ => true) [] windowClock)
    oneMinuteWindowEnv
    (@initializeMonitoring unit (testClient (fun _ => true) [] windowClock)
       (monitoringConfig oneMinuteWindowEnv) (u "42") [])
    groupMessage (initialState tt) groupMessageKey false) as Hw.
  cbn zeta in Hw.
  destruct Hw as (_ & _ & He).
  { intros i j Hij. cbn [clock testClient]. unfold windowClock.
    repeat match goal with
           | |- context [(?a <? ?b)%nat] => destruct (Nat.ltb_spec a b)
           end; lia. }
  { vm_compute. reflexivity. }
  destruct (He {| ts := 0; text := u "hello" |} ltac:(vm_compute; reflexivity))
    as [Hin Hout].
  split; [|split].
  - apply (Hin [] groupMessage). vm_compute. reflexivity.
  - apply (Hout [CleanupTimer; Update groupMessage] groupMessage);
      vm_compute; reflexivity.
  - vm_compute. reflexivity.
Defined.

(** ** The configured dedup window *)

Section ParseInt.

Lemma isDigit_radix c : isDigit c = true -> isRadixDigit 10 c = true.
Proof.
  unfold isRadixDigit, digitValue. intros Hd. rewrite Hd.
  unfold isDigit, inRange in Hd. rewrite andb_true_iff, !N.leb_le in Hd.
  replace (Z.of_N c - 48 <? 10) with true by (symmetry; apply Z.ltb_lt; lia).
  reflexivity.
Qed.

Lemma uintDigits_digits d : Forall (fun c => isDigit c = true) (uintDigits d).
Proof. induction d; cbn [uintDigits]; constructor; auto. Qed.

Lemma uintDigits_nonempty d : d <> Decimal.Nil -> uintDigits d <> [].
Proof. destruct d; cbn [uintDigits]; congruence. Qed.

Lemma fold_decimal_acc d acc :
  fold_left decimalStep (uintDigits d) (Z.pos acc) = Z.pos (Pos.of_uint_acc d acc).
Proof.
  revert acc. induction d; intros acc; cbn [uintDigits fold_left Pos.of_uint_acc];
    [reflexivity|..];
    match goal with
    | |- fold_left _ _ (decimalStep _ ?c) = Z.pos (Pos.of_uint_acc _ ?p) =>
        let v := eval vm_compute in (default 0 (digitValue 10 c)) in
        replace (decimalStep (Z.pos acc) c) with (Z.pos p)
          by (unfold decimalStep;
              change (default 0 (digitValue 10 c)) with v; lia)
    end; apply IHd.
Qed.

Lemma digitsValue_uint d : digitsValue 10 (uintDigits d) = Z.of_N (Pos.of_uint d).
Proof.
  unfold digitsValue. fold decimalStep.
  induction d; cbn [uintDigits fold_left Pos.of_uint]; [reflexivity | exact IHd |..];
    match goal with
    | |- fold_left _ _ (decimalStep 0 ?c) = _ =>
        let v := eval vm_compute in (decimalStep 0 c) in
        change (decimalStep 0 c) with v
    end; apply fold_decimal_acc.
Qed.

Lemma startsWith_hex_digits s :
  Forall (fun c => isDigit c = true) s ->
  startsWith (u "0x") s || startsWith (u "0X") s = false.
Proof.
  intros Hs. destruct Hs as [|a s Ha Hs]; [reflexivity|].
  destruct Hs as [|b s Hb Hs]; cbn [u map list_ascii_of_string startsWith].
  - now rewrite !andb_false_r.
  - change (N_of_ascii "x") with 120%N. change (N_of_ascii "X") with 88%N.
    destruct (N.eqb_spec 120 b) as [<-|]; [discriminate Hb|].
    destruct (N.eqb_spec 88 b) as [<-|]; [discriminate Hb|].
    now rewrite !andb_false_r.
Qed.

(** Reading back the decimal form of a nonempty run of digits. *)
Lemma parseInt_digits ds :
  ds <> [] -> Forall (fun c => isDigit c = true) ds ->
  parseInt ds = Some (digitsValue 10 ds)
  /\ parseInt (45%N :: ds) = Some (- digitsValue 10 ds).
Proof.
  intros Hne Hds.
  assert (Hall : takeWhile (isRadixDigit 10) ds = ds).
  { apply takeWhile_id. eapply Forall_impl; [exact Hds|]. apply isDigit_radix. }
  pose proof (startsWith_hex_digits ds Hds) as Hhex.
  destruct ds as [|c ds]; [now destruct Hne|].
  assert (Hc : isDigit c = true) by now inversion Hds.
  pose proof (isDigit_not_whitespace c Hc) as Hws.
  unfold parseInt. split.
  - cbn [dropWhile]. rewrite Hws.
    destruct (N.eqb_spec c 45) as [->|]; [discriminate Hc|].
    destruct (N.eqb_spec c 43) as [->|]; [discriminate Hc|].
    rewrite Hhex, Hall. reflexivity.
  - cbn [dropWhile]. change (isWhiteSpace 45) with false. cbn iota.
    rewrite N.eqb_refl, Hhex, Hall. reflexivity.
Qed.

(** [parseInt] reads back the decimal form of an integer. *)
Lemma parseInt_numToString z : parseInt (numToString z) = Some z.
Proof.
  destruct z as [|p|p]; [reflexivity | |]; unfold numToString; cbn [Z.to_int];
    destruct (parseInt_digits (uintDigits (Pos.to_uint p))
                (uintDigits_nonempty _ (DecimalPos.Unsigned.to_uint_nonnil p))
                (uintDigits_digits _)) as [Hpos Hneg];
    [rewrite Hpos | rewrite Hneg];
    now rewrite digitsValue_uint, DecimalPos.Unsigned.of_to.
Qed.

End ParseInt.

Section WindowFallback.
Context {W : Type} `{Client W}.

(** A value that [parseInt] reads as 0 or cannot read falls back to the
    default, which is at least one minute. *)
Lemma DEDUP_WINDOW_MINUTES_fallback env :
  parseInt (envToString (env_DEDUP_WINDOW_MINUTES env)) = None
  \/ parseInt (envToString (env_DEDUP_WINDOW_MINUTES env)) = Some 0 ->
  DEDUP_WINDOW_MINUTES env = Z.max 1 (AUTO_DELETE_MINUTES env)
  /\ 1 <= DEDUP_WINDOW_MINUTES env.
Proof.
  unfold DEDUP_WINDOW_MINUTES. intros [-> | ->]; cbn [numOr Z.eqb]; lia.
Qed.

(** A value that [parseInt] reads as a non-zero number is kept as it is,
    negative or not. *)
Lemma DEDUP_WINDOW_MINUTES_kept env v :
  parseInt (envToString (env_DEDUP_WINDOW_MINUTES env)) = Some v -> v <> 0 ->
  DEDUP_WINDOW_MINUTES env = v.
Proof.
  unfold DEDUP_WINDOW_MINUTES, numOr. intros -> Hv.
  now rewrite (proj2 (Z.eqb_neq v 0) Hv).
Qed.

(** The default in force is at least one minute, and the window of
    realtime-monitor.js is never 0. *)
Lemma DEDUP_WINDOW_MINUTES_nonzero env : DEDUP_WINDOW_MINUTES env <> 0.
Proof.
  unfold DEDUP_WINDOW_MINUTES, numOr.
  destruct (parseInt _) as [v|]; [|lia].
  destruct (v =? 0) eqn:E; [lia | now apply Z.eqb_neq].
Qed.

(** [String] of an integer below [2^53] is its decimal digits. *)
Lemma numberToString_exact z :
  Z.abs z < 2 ^ 53 -> numberToString z = numToString z.
Proof.
  intros Hz. unfold numberToString, toDouble.
  now rewrite !(proj2 (Z.ltb_lt (Z.abs z) (2 ^ 53)) Hz).
Qed.

(** [initializeMonitoring] keeps the window it is given by
    realtime-monitor.js when that is below [2^53] in absolute value: its
    own fallback does not apply.  (From [10^21] on [String] gives the
    exponent form, of which [parseInt] reads the first digit only.) *)
Lemma initializeMonitoring_window env self bot :
  Z.abs (DEDUP_WINDOW_MINUTES env) < 2 ^ 53 ->
  md_dedupWindowMinutes (initializeMonitoring (monitoringConfig env) self bot)
  = DEDUP_WINDOW_MINUTES env.
Proof.
  intros Hw. unfold initializeMonitoring, monitoringConfig.
  cbn [md_dedupWindowMinutes dedupWindowMinutes autoDeleteMinutes].
  rewrite (numberToString_exact _ Hw), parseInt_numToString. unfold numOr at 1.
  now rewrite (proj2 (Z.eqb_neq _ 0) (DEDUP_WINDOW_MINUTES_nonzero env)).
Qed.

(** The window the sweep runs with: the configured number when [parseInt]
    reads one other than 0, positive or negative; the default otherwise. *)
Lemma effective_window env self bot :
  Z.abs (DEDUP_WINDOW_MINUTES env) < 2 ^ 53 ->
  md_dedupWindowMinutes (initializeMonitoring (monitoringConfig env) self bot)
  = match parseInt (envToString (env_DEDUP_WINDOW_MINUTES env)) with
    | Some v => if v =? 0 then Z.max 1 (AUTO_DELETE_MINUTES env) else v
    | None => Z.max 1 (AUTO_DELETE_MINUTES env)
    end.
Proof. intros Hw. rewrite (initializeMonitoring_window _ _ _ Hw). reflexivity. Qed.

(** With a negative configured value the sweep removes every entry that is
    not dated in the future, however recent. *)
Lemma negative_window_sweeps_all env self bot v (st : State W) k e :
  parseInt (envToString (env_DEDUP_WINDOW_MINUTES env)) = Some v ->
  - 2 ^ 53 < v < 0 ->
  let w := md_dedupWindowMinutes
             (initializeMonitoring (monitoringConfig env) self bot) in
  processedMessages st !! k = Some e ->
  ts e <= clock (ticks st) ->
  w = v /\ processedMessages (cleanupProcessedMessages w st).2 !! k = None.
Proof.
  intros Hv Hneg w Hk Hpast.
  assert (Hd : DEDUP_WINDOW_MINUTES env = v).
  { apply DEDUP_WINDOW_MINUTES_kept; [exact Hv | lia]. }
  assert (Hw : w = v).
  { subst w. rewrite initializeMonitoring_window; [exact Hd|].
    rewrite Hd. lia. }
  split; [exact Hw|].
  rewrite cleanupProcessedMessages_lookup, Hk, Hw.
  rewrite decide_True by lia. reflexivity.
Qed.

End WindowFallback.

(** C7 at the failing input [DEDUP_WINDOW_MINUTES=-5]: the window in force
    is -5 minutes, in realtime-monitor.js and in [initializeMonitoring]
    alike.  The sweep then runs with a negative TTL: it removes an entry
    recorded a moment before, and the replay of the message is dispatched
    again. *)
Theorem negative_window_is_kept :
  let client := testClient (fun _ => true) [] (fun n => Z.of_nat n) in
  let env := negativeWindowEnv in
  let md := @initializeMonitoring unit client (monitoringConfig env) (u "42") [] in
  let st1 := (@handleMessage unit client (md_rules md) groupMessage
                (initialState tt)) in
  let st2 := (@reactAll unit client env md [CleanupTimer] st1.2).2 in
  DEDUP_WINDOW_MINUTES env = -5
  /\ md_dedupWindowMinutes md = -5
  /\ md_dedupWindowMinutes md * 60 * 1000 < 0
  /\ st1.1 = Notified groupMessageKey false
  /\ processedMessages st2 !! groupMessageKey = None
  /\ (@handleMessage unit client (md_rules md) groupMessage st2).1
     = Notified groupMessageKey false.
Proof. vm_compute. repeat split; reflexivity. Qed.

(** ** The loops bounded by fuel run to their end *)

Section Fuel.
Context {W : Type} `{Client W}.

(** With a batch size of at least one, the batches of the delete phase
    need no more iterations than there are ids. *)
Lemma deleteInBatches_fuel chat size fuel1 fuel2 ids acc (st : State W) :
  (1 <= size)%nat -> (length ids <= fuel1)%nat -> (length ids <= fuel2)%nat ->
  deleteInBatches chat ids size fuel1 acc st
  = deleteInBatches chat ids size fuel2 acc st.
Proof.
  intros Hsize. revert fuel2 ids acc st.
  induction fuel1 as [|fuel1 IH]; intros fuel2 ids acc st H1 H2.
  - destruct ids; [|cbn in H1; lia]. now destruct fuel2.
  - destruct ids as [|id ids]; [now destruct fuel2|].
    destruct fuel2 as [|fuel2]; [cbn in H2; lia|].
    cbn [deleteInBatches]. rewrite !run_bind.
    apply IH; rewrite length_drop; cbn [length] in *; lia.
Qed.

(** With a concurrency of at least one, [runInBatches] needs no more
    slices than there are chats. *)
Lemma runInBatches_fuel user cutoff conc fuel1 fuel2 chats acc (st : State W) :
  (1 <= conc)%nat -> (length chats <= fuel1)%nat -> (length chats <= fuel2)%nat ->
  runInBatches chats user cutoff conc fuel1 acc st
  = runInBatches chats user cutoff conc fuel2 acc st.
Proof.
  intros Hconc. revert fuel2 chats acc st.
  induction fuel1 as [|fuel1 IH]; intros fuel2 chats acc st H1 H2.
  - destruct chats; [|cbn in H1; lia]. now destruct fuel2.
  - destruct chats as [|c chats]; [now destruct fuel2|].
    destruct fuel2 as [|fuel2]; [cbn in H2; lia|].
    cbn [runInBatches]. rewrite !run_bind.
    apply IH; rewrite length_drop; cbn [length] in *; lia.
Qed.

End Fuel.

(** ** Examples *)

Example trim_spaces : trim (u "  a b ") = u "a b".
Proof. reflexivity. Qed.

Example splitComma_empty_item : splitComma (u "a,,b") = [u "a"; []; u "b"].
Proof. reflexivity. Qed.

Example splitComma_empty : splitComma [] = [[]].
Proof. reflexivity. Qed.

Example parseConfigList_items :
  parseConfigList (Some (u " -1001, ,42 ")) = [u "-1001"; u "42"].
Proof. reflexivity. Qed.

Example parseInt_decimal : parseInt (u " -7px") = Some (-7).
Proof. reflexivity. Qed.

Example parseInt_hex : parseInt (u "0x1F") = Some 31.
Proof. reflexivity. Qed.

Example parseInt_unset : parseInt (envToString None) = None.
Proof. reflexivity. Qed.

Example defaults_when_unset :
  AUTO_DELETE_MINUTES emptyEnv = 10 /\ DEDUP_WINDOW_MINUTES emptyEnv = 10.
Proof. split; reflexivity. Qed.

Example parseInt_zero : numOr (parseInt (u "0")) 10 = 10.
Proof. reflexivity. Qed.

Example numToString_negative : numToString (-120) = u "-120".
Proof. reflexivity. Qed.

(** [String] of a Number: the digits of a small integer; the shortest
    digits, filled with zeros, up to [10^21]; the exponent form from there;
    [Infinity].  Each text read back by [parseInt]. *)
Example numberToString_forms :
  numberToString (-120) = u "-120"
  /\ numberToString (2 ^ 53 + 1) = u "9007199254740992"
  /\ numberToString (2 ^ 64) = u "18446744073709552000"
  /\ numberToString (10 ^ 21 - 1) = u "1e+21"
  /\ numberToString (-15 * 10 ^ 20) = u "-1.5e+21"
  /\ numberToString 123456789012345678901234567890 = u "1.2345678901234568e+29"
  /\ numberToString (10 ^ 23) = u "1e+23"
  /\ numberToString (2 ^ 1024) = u "Infinity"
  /\ parseInt (u "18446744073709552000") = Some 18446744073709552000
  /\ parseInt (u "-1.5e+21") = Some (-1)
  /\ parseInt (u "Infinity") = None.
Proof. vm_compute. repeat split; reflexivity. Qed.

Example timerDelay_clamps :
  timerDelay 600000 = 600000 /\ timerDelay 2147483647 = 2147483647
  /\ timerDelay 2147520000 = 1 /\ timerDelay 0 = 1.
Proof. repeat split. Qed.

Example normalizeId_channel :
  normalizeId (RawStr (u "-1002131053667")) = u "2131053667".
Proof. reflexivity. Qed.

Example normalizeId_signed : normalizeId (RawInt (-4512)) = u "4512".
Proof. reflexivity. Qed.

Example normalizeId_spaces : normalizeId (RawStr (u " 42 7x9")) = u "427".
Proof. reflexivity. Qed.

Example normalizeId_object : normalizeId (RawStr (u "[object Object]")) = [].
Proof. reflexivity. Qed.

Example normalizeId_null : normalizeId RawNull = [].
Proof. reflexivity. Qed.

Example parseChatIds_prefix :
  parseChatIds (Some (u "-100123, 456 ,x")) true = [u "123"; u "456"].
Proof. reflexivity. Qed.

Example matchKeyword_boundary_start : matchKeyword (u "win big") [u "win"] = true.
Proof. reflexivity. Qed.

Example matchKeyword_underscore : matchKeyword (u "a_win") [u "win"] = false.
Proof. reflexivity. Qed.

Example matchKeyword_punctuated : matchKeyword (u "so c++ it is") [u "c++"] = true.
Proof. reflexivity. Qed.

Example processMessageContent_empty :
  displayText (processMessageContent
    {| msg_id := 1; peerId := None; fromId := FromNone; senderId := None;
       date := 0; isService := false; action := false; message := [];
       caption := []; media := None; attachment := false |})
  = emptyMessageText.
Proof. reflexivity. Qed.

Example mergeById_first_wins :
  map date (mergeById [ownTextAt 5; ownTextAt 6; ownTextAt 5] []) = [5; 6].
Proof. reflexivity. Qed.

(** * Further properties *)

(** ** Normalized ids *)

Section NormalizedIds.

Lemma takeWhile_sublist p s : takeWhile p s `sublist_of` s.
Proof.
  induction s as [|c s IH]; cbn [takeWhile]; [constructor|].
  destruct (p c); [now constructor | apply sublist_nil_l].
Qed.

Lemma stripIdPrefix_sublist s : stripIdPrefix s `sublist_of` s.
Proof.
  unfold stripIdPrefix.
  repeat match goal with |- context [if ?b then _ else _] => destruct b end;
    try apply sublist_drop; reflexivity.
Qed.

Lemma removeWhitespace_app a b :
  removeWhitespace (a ++ b) = removeWhitespace a ++ removeWhitespace b.
Proof. apply filter_app. Qed.

Lemma digits_clean d :
  Forall (fun c => isDigit c = true) d -> Forall (fun c => isWhiteSpace c = false) d.
Proof. intros Hd. eapply Forall_impl; [exact Hd|]. apply isDigit_not_whitespace. Qed.

(** Normalizing a prefix without white space followed by digits. *)
Lemma normalizeId_prefixed p d :
  removeWhitespace p = p ->
  Forall (fun c => isDigit c = true) d ->
  normalizeId (RawStr (p ++ d)) = takeWhile isDigit (stripIdPrefix (p ++ d)).
Proof.
  intros Hp Hd. cbn [normalizeId ToString].
  rewrite removeWhitespace_app, Hp, (removeWhitespace_digits d Hd).
  apply replaceIdPattern_clean. apply Forall_app. split; [|now apply digits_clean].
  rewrite <- Hp. apply removeWhitespace_clean.
Qed.

Lemma stripIdPrefix_minus D :
  Forall (fun c => isDigit c = true) D ->
  stripIdPrefix (45%N :: D) = stripIdPrefix D.
Proof.
  intros HD. unfold stripIdPrefix.
  change (startsWith (u "-100") (45%N :: D))
    with ((45 =? 45)%N && startsWith (u "100") D).
  change (startsWith (u "100") (45%N :: D)) with false.
  change (startsWith (u "-") (45%N :: D)) with true.
  change (u "-100") with (45%N :: u "100"). change (u "-") with [45%N].
  rewrite !(startsWith_digit_minus _ D HD). cbn [andb N.eqb Pos.eqb].
  destruct (startsWith (u "100") D); reflexivity.
Qed.

End NormalizedIds.

(** X1: whatever its input, [normalizeId] returns a run of decimal digits,
    taken in order from the text form of the input; for [null] and
    [undefined] it returns the empty string. *)
Theorem normalizeId_only_digits (x : RawId) :
  Forall (fun c => isDigit c = true) (normalizeId x)
  /\ normalizeId x `sublist_of` ToString x
  /\ normalizeId RawNull = [] /\ normalizeId RawUndefined = [].
Proof.
  split; [apply normalizeId_digits|]. split; [|split; reflexivity].
  assert (Hsub : forall s, normalizeId (RawStr s) `sublist_of` s).
  { intros s. cbn [normalizeId ToString].
    rewrite replaceIdPattern_clean by apply removeWhitespace_clean.
    etransitivity; [apply takeWhile_sublist|].
    etransitivity; [apply stripIdPrefix_sublist|].
    apply sublist_filter. }
  destruct x as [| |z|s]; try apply sublist_nil_l.
  - apply (Hsub (numToString z)).
  - apply Hsub.
Qed.

(** X2: the forms of one id normalize alike.  For a run of digits [d], the
    forms [-100d] and [100d] normalize to [d]; when [d] does not itself
    begin with [100], so do [d] and [-d]; and an integer and its opposite
    have the same normalized id. *)
Theorem normalizeId_same_entity (d : jsstring) (z : Z) :
  Forall (fun c => isDigit c = true) d ->
  normalizeId (RawStr (u "-100" ++ d)) = d
  /\ normalizeId (RawStr (u "100" ++ d)) = d
  /\ (startsWith (u "100") d = false ->
      normalizeId (RawStr d) = d /\ normalizeId (RawStr (u "-" ++ d)) = d)
  /\ normalizeId (RawInt (- z)) = normalizeId (RawInt z).
Proof.
  intros Hd. split; [|split; [|split]].
  - rewrite normalizeId_prefixed by (reflexivity || assumption).
    now apply takeWhile_id.
  - rewrite normalizeId_prefixed by (reflexivity || assumption).
    now apply takeWhile_id.
  - intros H100. split.
    + rewrite normalizeId_of_digits by assumption. now rewrite H100.
    + rewrite normalizeId_prefixed by (reflexivity || assumption).
      unfold stripIdPrefix. change (u "-" ++ d) with (45%N :: d).
      change (u "-100") with (45%N :: u "100").
      cbn [startsWith]. rewrite N.eqb_refl, H100. cbn [andb].
      replace (startsWith (u "100") (45%N :: d)) with false by reflexivity.
      change (u "-") with [45%N]. cbn [startsWith]. rewrite N.eqb_refl.
      cbn [andb drop]. now apply takeWhile_id.
  - assert (Hsign : forall p,
      normalizeId (RawInt (Z.neg p)) = normalizeId (RawInt (Z.pos p))).
    { intros p. cbn [normalizeId ToString]. unfold numToString. cbn [Z.to_int].
      pose proof (uintDigits_digits (Pos.to_uint p)) as HD.
      set (D := uintDigits (Pos.to_uint p)) in *.
      change (45%N :: D) with ([45%N] ++ D).
      rewrite removeWhitespace_app, (removeWhitespace_digits D HD).
      change (removeWhitespace [45%N]) with [45%N].
      assert (HcD : Forall (fun c => isWhiteSpace c = false) D)
        by now apply digits_clean.
      rewrite (replaceIdPattern_clean D HcD).
      rewrite (replaceIdPattern_clean ([45%N] ++ D))
        by (apply Forall_app; split; [now repeat constructor | exact HcD]).
      f_equal. change ([45%N] ++ D) with (45%N :: D).
      now apply stripIdPrefix_minus. }
    destruct z as [|p|p]; cbn [Z.opp]; [reflexivity | apply Hsign | symmetry; apply Hsign].
Qed.

(** X2 on the id of a supergroup. *)
Lemma normalizeId_same_entity_witness :
  normalizeId (RawStr (u "-1002131053667")) = u "2131053667"
  /\ normalizeId (RawStr (u "-2131053667")) = u "2131053667"
  /\ normalizeId (RawInt (-2131053667)) = normalizeId (RawInt 2131053667).
Proof.
  destruct (normalizeId_same_entity (u "2131053667") 2131053667
              ltac:(repeat constructor)) as (H1 & _ & H3 & H4).
  split; [exact H1|]. split; [exact (proj2 (H3 eq_refl)) | exact H4].
Defined.

(** ** The rules a forwarded message has passed *)

Section Returns.
Context {W : Type} `{Client W}.

Lemma returns_bind {A B} (P : B -> Prop) (m : @M W A) (f : A -> @M W B) :
  (forall a, returns P (f a)) -> returns P (m ≫= f).
Proof. intros Hf st. rewrite run_bind. apply Hf. Qed.

Lemma returns_ret {A} (P : A -> Prop) (a : A) : P a -> returns (W:=W) P (mret a).
Proof. intros Ha st. exact Ha. Qed.

Lemma displayText_nonempty m : truthy (displayText (processMessageContent m)) = true.
Proof.
  unfold processMessageContent. cbn [displayText].
  destruct (truthy (extractMessageText m)) eqn:E; [exact E|].
  now destruct (present (media m) || attachment m).
Qed.

End Returns.

(** Split a goal about the value a computation returns. *)
Ltac returns_step :=
  match goal with
  | |- returns _ (mret _) => apply returns_ret
  | |- returns _ (_ ≫= _) => apply returns_bind; intros ?
  | |- returns _ (match ?x with _ => _ end) => destruct x
  | |- returns _ (if ?x then _ else _) => destruct x
  end.

Section ForwardedRules.
Context {W : Type} `{Client W}.

Lemma dedupAndNotify_not_empty r m chat ncid txt :
  returns (fun o => o <> EmptyContent) (dedupAndNotify r m chat ncid txt).
Proof. unfold dedupAndNotify. cbn zeta. repeat returns_step; discriminate. Qed.

Lemma handleMonitored_not_empty r m chat ncid sid :
  returns (fun o => o <> EmptyContent) (handleMonitored r m chat ncid sid).
Proof.
  unfold handleMonitored. cbn zeta. rewrite displayText_nonempty. cbn [negb].
  repeat first [apply dedupAndNotify_not_empty | returns_step]; discriminate.
Qed.

(** The key under which the end of [handleMessage] reaches the dedup map. *)
Lemma dedupAndNotify_key r m chat ncid txt (st : State W) k :
  dedupKeyOf (dedupAndNotify r m chat ncid txt st).1 = Some k ->
  k = ncid ++ u ":" ++ numToString (msg_id m).
Proof.
  unfold dedupAndNotify. cbn zeta. rewrite run_bind. cbn [getProcessed fst snd].
  destruct (processedMessages st !! _); rewrite !run_bind;
    cbn [mret M_ret fst dedupKeyOf]; congruence.
Qed.

Lemma isMember_true x l : isMember x l = true <-> x ∈ l.
Proof. unfold isMember. apply bool_decide_eq_true. Qed.

Lemma isMember_false x l : isMember x l = false <-> x ∉ l.
Proof. unfold isMember. apply bool_decide_eq_false. Qed.

Lemma truthy_true s : truthy s = true <-> s <> [].
Proof. destruct s; cbn; split; congruence. Qed.

Lemma strEq_true a b : strEq a b = true <-> a = b.
Proof. unfold strEq. apply bool_decide_eq_true. Qed.

Lemma handleMonitored_passed r m chat ncid sid (st : State W) k :
  dedupKeyOf (handleMonitored r m chat ncid sid st).1 = Some k ->
  k = ncid ++ u ":" ++ numToString (msg_id m)
  /\ allowRule r m ncid /\ keywordRule r m sid.
Proof.
  unfold handleMonitored. cbn zeta.
  set (listed := match normalizedMonitorIds r with
                 | [] => true
                 | _ => truthy ncid && isMember ncid (normalizedMonitorIds r)
                 end).
  set (old := match peerId m with
              | Some p =>
                  match chatId p, channelId p with
                  | Some old, Some _ =>
                      isMember (normalizeId (RawStr (u "-" ++ numToString old)))
                        (normalizedMonitorIds r)
                  | _, _ => false
                  end
              | None => false
              end).
  destruct (match monitorChatIds r with [] => false | _ => negb listed end) eqn:E5;
    [discriminate|].
  destruct (negb (if negb listed then old else true)) eqn:E6; [discriminate|].
  rewrite displayText_nonempty. cbn [negb].
  assert (Hallow : allowRule r m ncid).
  { unfold allowRule. destruct listed eqn:El.
    - subst listed. destruct (normalizedMonitorIds r) eqn:En; [now left|].
      right; left. apply andb_true_iff in El as [Ht Hm].
      split; [now apply truthy_true | now apply isMember_true].
    - cbn [negb] in E5, E6. apply negb_false_iff in E6.
      right; right. split; [now destruct (monitorChatIds r)|].
      subst old. destruct (peerId m) as [p|]; [|discriminate].
      destruct (chatId p) as [o|] eqn:Eo; [|discriminate].
      destruct (channelId p) as [c|] eqn:Ec; [|discriminate].
      exists p, o, c. repeat split; try assumption. now apply isMember_true. }
  set (target := match targetUserIdsNormalized r with
                 | [] => false
                 | _ => truthy sid && isMember sid (targetUserIdsNormalized r)
                 end).
  set (should := if target && (match userKeywordsNormalized r with
                               | [] => true | _ => false end
                               || matchKeyword _ (userKeywordsNormalized r))
                 then true
                 else if matchKeyword _ (monitorKeywordsNormalized r) then true
                 else match monitorKeywordsNormalized r, userKeywordsNormalized r with
                      | [], [] => true
                      | _, _ => false
                      end).
  assert (Hclassify : forall st',
    dedupKeyOf ((if negb should then mret NoKeywordMatch
                 else dedupAndNotify r m chat ncid
                        (displayText (processMessageContent m))) st').1 = Some k ->
    k = ncid ++ u ":" ++ numToString (msg_id m) /\ keywordRule r m sid).
  { intros st'. destruct should eqn:Es; cbn [negb]; [|discriminate].
    intros Hk. split; [now apply dedupAndNotify_key in Hk|].
    unfold keywordRule, isTargetSender. cbn zeta. subst should.
    destruct (target && _) eqn:Et.
    - left. apply andb_true_iff in Et as [Ht Hu]. split.
      + subst target. destruct (targetUserIdsNormalized r); [discriminate|].
        apply andb_true_iff in Ht as [Ht Hm].
        split; [now apply truthy_true | now apply isMember_true].
      + apply orb_true_iff in Hu as [Hu|Hu]; [left | now right].
        now destruct (userKeywordsNormalized r).
    - right. destruct (matchKeyword _ (monitorKeywordsNormalized r)); [now left|].
      right. destruct (monitorKeywordsNormalized r); [|discriminate].
      now destruct (userKeywordsNormalized r). }
  intros Hk.
  assert (Hgoal : k = ncid ++ u ":" ++ numToString (msg_id m) /\ keywordRule r m sid);
    [|tauto].
  revert Hk.
  destruct (match deleteNotificationKeywords r with [] => false | _ => _ end);
    [|apply Hclassify].
  destruct (NOTIFICATION_CHAT_ID r); [|discriminate].
  rewrite run_bind. apply Hclassify.
Qed.

(** Every rule a message has passed when [handleMessage] reaches the dedup
    stage with it. *)
Lemma handleMessage_passed r m (st : State W) k :
  dedupKeyOf (handleMessage r m st).1 = Some k ->
  exists chat rawChatId,
    let ncid := normalizeId rawChatId in
    let sid := normalizeId (rawSenderId (fromId m)) in
    (resolveChat m st).1 = Some (chat, rawChatId)
    /\ k = ncid ++ u ":" ++ numToString (msg_id m)
    /\ (forall p, peerId m = Some p -> userId p = None)
    /\ (ncid ∉ normalizedNotMonitorIds r)
    /\ allowRule r m ncid
    /\ keywordRule r m sid
    /\ (ncid = normalizedNotifChatId r -> sid <> [] ->
        sid <> SELF_USER_ID_NORMALIZED r
        /\ (BOT_USER_ID_NORMALIZED r <> [] -> sid <> BOT_USER_ID_NORMALIZED r)).
Proof.
  unfold handleMessage. cbn zeta.
  destruct (match peerId m with Some p => present (userId p) | None => false end)
    eqn:Epriv; [discriminate|].
  rewrite run_bind.
  destruct (resolveChat m st).1 as [[chat raw]|] eqn:Echat; [|discriminate].
  set (st1 := (resolveChat m st).2).
  fold (normalizedNotifChatId r).
  set (ncid := normalizeId raw). set (sid := normalizeId (rawSenderId (fromId m))).
  destruct (isMember ncid (normalizedNotMonitorIds r)) eqn:Edeny; [discriminate|].
  apply isMember_false in Edeny.
  assert (Hpriv : forall p, peerId m = Some p -> userId p = None).
  { intros p Hp. rewrite Hp in Epriv. now destruct (userId p). }
  assert (Hplain : forall st',
    dedupKeyOf (handleMonitored r m chat ncid sid st').1 = Some k ->
    k = ncid ++ u ":" ++ numToString (msg_id m)
    /\ allowRule r m ncid /\ keywordRule r m sid)
    by (intros st'; apply handleMonitored_passed).
  destruct (strEq ncid (normalizedNotifChatId r)) eqn:Enotif.
  - assert (Hcont : forall st',
      dedupKeyOf ((if truthy sid && truthy (BOT_USER_ID_NORMALIZED r)
                      && strEq sid (BOT_USER_ID_NORMALIZED r)
                   then mret OwnBotMessage
                   else if truthy sid && strEq sid (SELF_USER_ID_NORMALIZED r)
                   then mret OwnMessage
                   else handleMonitored r m chat ncid sid) st').1 = Some k ->
      (k = ncid ++ u ":" ++ numToString (msg_id m)
       /\ allowRule r m ncid /\ keywordRule r m sid)
      /\ (sid <> [] -> sid <> SELF_USER_ID_NORMALIZED r
          /\ (BOT_USER_ID_NORMALIZED r <> [] -> sid <> BOT_USER_ID_NORMALIZED r))).
    { intros st'.
      destruct (truthy sid && truthy (BOT_USER_ID_NORMALIZED r)
                && strEq sid (BOT_USER_ID_NORMALIZED r)) eqn:Ebot; [discriminate|].
      destruct (truthy sid && strEq sid (SELF_USER_ID_NORMALIZED r)) eqn:Eself;
        [discriminate|].
      intros Hk. split; [now apply Hplain in Hk|].
      intros Hsid. apply truthy_true in Hsid. rewrite Hsid in Ebot, Eself.
      cbn [andb] in Ebot, Eself. split.
      - intros Heq. apply strEq_true in Heq. congruence.
      - intros Hbot Heq. apply truthy_true in Hbot. apply strEq_true in Heq.
        rewrite Hbot, Heq in Ebot. discriminate. }
    intros Hk. exists chat, raw. cbn zeta. fold ncid sid.
    assert (Hgoal :
      (k = ncid ++ u ":" ++ numToString (msg_id m)
       /\ allowRule r m ncid /\ keywordRule r m sid)
      /\ (sid <> [] -> sid <> SELF_USER_ID_NORMALIZED r
          /\ (BOT_USER_ID_NORMALIZED r <> [] -> sid <> BOT_USER_ID_NORMALIZED r)));
      [|intuition].
    revert Hk.
    destruct (match deleteNotificationKeywords r with [] => false | _ => _ end);
      [|apply Hcont].
    destruct (NOTIFICATION_CHAT_ID r); [|discriminate].
    rewrite run_bind.
    destruct (match normalizedMonitorIds r with [] => true | _ => _ end);
      [discriminate | apply Hcont].
  - intros Hk. apply Hplain in Hk. exists chat, raw. cbn zeta. fold ncid sid.
    assert (Hne : ncid <> normalizedNotifChatId r).
    { intros Heq. apply strEq_true in Heq. congruence. }
    intuition.
Qed.

Lemma handleMessage_not_empty r m :
  returns (fun o => o <> EmptyContent) (handleMessage r m).
Proof.
  unfold handleMessage. cbn zeta.
  repeat first [apply handleMonitored_not_empty | returns_step]; discriminate.
Qed.

(** X3: the display text of a message is never empty (a message without
    text gets one of the two bracketed placeholders), so [handleMessage]
    never returns at its empty-content test. *)
Theorem empty_content_unreachable (r : Rules) (m : Message) (st : State W) :
  truthy (displayText (processMessageContent m)) = true
  /\ (handleMessage r m st).1 <> EmptyContent.
Proof. split; [apply displayText_nonempty | apply handleMessage_not_empty]. Qed.

(** X4: a message that reaches the dedup stage (forwarded, or dropped as a
    duplicate) has passed the chat rules: its peer is not a user, its key
    is the normalized id of the chat followed by the message id, the chat
    is not on the deny-list and satisfies the allow-list rule. *)
Theorem forwarded_chat_rules (r : Rules) (m : Message) (st : State W)
    (k : jsstring) :
  dedupKeyOf (handleMessage r m st).1 = Some k ->
  exists chat rawChatId,
    (resolveChat m st).1 = Some (chat, rawChatId)
    /\ k = normalizeId rawChatId ++ u ":" ++ numToString (msg_id m)
    /\ (forall p, peerId m = Some p -> userId p = None)
    /\ (normalizeId rawChatId ∉ normalizedNotMonitorIds r)
    /\ allowRule r m (normalizeId rawChatId).
Proof.
  intros Hk. apply handleMessage_passed in Hk as (chat & raw & Hk).
  exists chat, raw. cbn zeta in Hk. tauto.
Qed.

(** X5: a message that reaches the dedup stage has passed the keyword
    rule: its sender is a target user and a user keyword matches (or none
    is configured), or a monitor keyword matches, or no keyword is
    configured at all. *)
Theorem forwarded_keyword_rule (r : Rules) (m : Message) (st : State W)
    (k : jsstring) :
  dedupKeyOf (handleMessage r m st).1 = Some k ->
  keywordRule r m (normalizeId (rawSenderId (fromId m))).
Proof.
  intros Hk. apply handleMessage_passed in Hk as (chat & raw & Hk).
  cbn zeta in Hk. tauto.
Qed.

Lemma startsWith_before_other p a c b :
  c ∉ p -> startsWith p (a ++ c :: b) = startsWith p a.
Proof.
  revert a. induction p as [|x p IH]; intros a Hc; [reflexivity|].
  apply not_elem_of_cons in Hc as [Hx Hp].
  destruct a as [|y a]; cbn [app startsWith].
  - now rewrite (proj2 (N.eqb_neq x c)) by congruence.
  - now rewrite IH.
Qed.

Lemma stripIdPrefix_before_comma a b :
  stripIdPrefix (a ++ 44%N :: b) = stripIdPrefix a ++ 44%N :: b.
Proof.
  unfold stripIdPrefix.
  rewrite !startsWith_before_other
    by (intros Hin; repeat (apply elem_of_cons in Hin as [Hin | Hin];
                            [discriminate Hin|]); inversion Hin).
  destruct (startsWith (u "-100") a) eqn:E1;
    [apply startsWith_length in E1; now rewrite drop_app_le|].
  destruct (startsWith (u "100") a) eqn:E2;
    [apply startsWith_length in E2; now rewrite drop_app_le|].
  destruct (startsWith (u "-") a) eqn:E3;
    [apply startsWith_length in E3; now rewrite drop_app_le | reflexivity].
Qed.

Lemma takeWhile_before_stop (p : N -> bool) a c b :
  p c = false -> takeWhile p (a ++ c :: b) = takeWhile p a.
Proof.
  intros Hc. induction a as [|y a IH]; cbn [app takeWhile].
  - now rewrite Hc.
  - now rewrite IH.
Qed.

(** Of a comma-separated list [normalizeId] keeps the first item only. *)
Lemma normalizeId_first_item first rest :
  normalizeId (RawStr (first ++ u "," ++ rest)) = normalizeId (RawStr first).
Proof.
  cbn [normalizeId ToString].
  rewrite !replaceIdPattern_clean by apply removeWhitespace_clean.
  rewrite !removeWhitespace_app.
  assert (Hcomma : removeWhitespace (u ",") = [44%N]) by reflexivity.
  rewrite Hcomma. cbn [app].
  rewrite stripIdPrefix_before_comma. now apply takeWhile_before_stop.
Qed.

(** X6: own messages in the notification chat.  [handleMessage] takes as
    the notification chat the one whose id is the normalized
    [NOTIFICATION_CHAT_ID], and a message in that chat whose sender is the
    local user, or the bot, never reaches the dedup stage: nothing is
    recorded for it and no notification is dispatched.  But of a list of
    targets the normalized [NOTIFICATION_CHAT_ID] is the first item only,
    while [sendNotification] sends to every item: an own message in a
    later target is handled like a message of any chat.  With the targets
    9000 and 9001 the message of the local user in 9000 is dropped, and
    the same message in 9001 is dispatched to both targets, 9001
    included. *)
Theorem own_message_dropped_in_first_target :
  (forall (r : Rules) (m : Message) (st : State W) (chat : option Chat)
          (rawChatId : RawId),
      let sid := normalizeId (rawSenderId (fromId m)) in
      (resolveChat m st).1 = Some (chat, rawChatId) ->
      normalizeId rawChatId = normalizedNotifChatId r ->
      sid <> [] ->
      sid = SELF_USER_ID_NORMALIZED r
      \/ (BOT_USER_ID_NORMALIZED r <> [] /\ sid = BOT_USER_ID_NORMALIZED r) ->
      let res := handleMessage r m st in
      dedupKeyOf res.1 = None
      /\ processedMessages res.2 = processedMessages st
      /\ sendEvents (log res.2) = sendEvents (log st))
  /\ (forall (r : Rules) (first rest : jsstring),
        NOTIFICATION_CHAT_ID r = Some (first ++ u "," ++ rest) ->
        normalizedNotifChatId r = normalizeId (RawStr first))
  /\ notificationTargets (NOTIFICATION_CHAT_ID twoTargets)
     = [u "-1009000"; u "-1009001"]
  /\ normalizedNotifChatId twoTargets = u "9000"
  /\ (@handleMessage unit deliveringClient twoTargets (ownMessageIn 9000)
        (initialState tt)).1 = OwnMessage
  /\ (let res := @handleMessage unit deliveringClient twoTargets
                   (ownMessageIn 9001) (initialState tt) in
      res.1 = Notified (u "9001:56") true
      /\ sendEvents (log res.2)
         = [EvFetch (BotSendMessage (u "token") (u "-1009000") (u "hello"));
            EvFetch (BotSendMessage (u "token") (u "-1009001") (u "hello"))]
      /\ sentNotificationMessages res.2 !! u "-1009001" = Some [900]).
Proof.
  split; [|split; [|vm_compute; repeat split; reflexivity]].
  - intros r m st chat rawChatId sid Hchat Hnotif Hsid Hown res.
    assert (Hnone : dedupKeyOf res.1 = None).
    { destruct (dedupKeyOf res.1) as [k|] eqn:Ek; [exfalso | reflexivity].
      apply handleMessage_passed in Ek
        as (chat' & raw' & Hc & _ & _ & _ & _ & _ & Hl).
      cbn zeta in Hc, Hl. rewrite Hchat in Hc. injection Hc as <- <-.
      destruct (Hl Hnotif Hsid) as [Hself Hbot]. fold sid in Hself, Hbot.
      destruct Hown as [Hs | [Hb Hs]]; [contradiction | now apply Hbot]. }
    split; [exact Hnone|].
    destruct (handleMessage_handled r m st) as [_ Ho]. fold res in Ho.
    destruct res.1; try discriminate Hnone; exact Ho.
  - intros r first rest Hn. unfold normalizedNotifChatId. rewrite Hn.
    apply normalizeId_first_item.
Qed.

End ForwardedRules.

(** X4 on message 55 of the basic group 4242, with no lists configured. *)
Lemma forwarded_chat_rules_witness :
  let client := testClient (fun _ => true) [] (fun n => Z.of_nat n) in
  exists chat rawChatId,
    (@resolveChat unit client groupMessage (initialState tt)).1
    = Some (chat, rawChatId)
    /\ groupMessageKey = normalizeId rawChatId ++ u ":" ++ numToString 55
    /\ (forall p, peerId groupMessage = Some p -> userId p = None)
    /\ (normalizeId rawChatId ∉ normalizedNotMonitorIds monitorAll)
    /\ allowRule monitorAll groupMessage (normalizeId rawChatId).
Proof.
  exact (@forwarded_chat_rules unit (testClient (fun _ => true) [] (fun n => Z.of_nat n))
           monitorAll groupMessage (initialState tt) groupMessageKey eq_refl).
Defined.

(** X5 on the same message. *)
Lemma forwarded_keyword_rule_witness :
  @keywordRule unit (testClient (fun _ => true) [] (fun n => Z.of_nat n))
    monitorAll groupMessage (u "7").
Proof.
  exact (@forwarded_keyword_rule unit
           (testClient (fun _ => true) [] (fun n => Z.of_nat n))
           monitorAll groupMessage (initialState tt) groupMessageKey eq_refl).
Defined.

(** X6 on a message of the local user 42 in the notification channel of
    [monitorAll], and on a list of two targets. *)
Lemma own_message_dropped_in_first_target_witness :
  let client := testClient (fun _ => true) [] (fun n => Z.of_nat n) in
  let res := @handleMessage unit client monitorAll ownNotification (initialState tt) in
  (dedupKeyOf res.1 = None
   /\ processedMessages res.2 = processedMessages (initialState tt)
   /\ sendEvents (log res.2) = sendEvents (log (initialState (W:=unit) tt)))
  /\ normalizedNotifChatId twoTargets = normalizeId (RawStr (u "-1009000")).
Proof.
  destruct (@own_message_dropped_in_first_target unit
              (testClient (fun _ => true) [] (fun n => Z.of_nat n)))
    as (Hdrop & Hfirst & _).
  split.
  - refine (Hdrop monitorAll ownNotification (initialState tt)
              None (RawStr (u "-1009000")) eq_refl eq_refl _ _).
    + vm_compute. discriminate.
    + left. reflexivity.
  - exact (Hfirst twoTargets (u "-1009000") (u "-1009001") eq_refl).
Defined.

(** ** Configuration lists *)

Section ConfigLists.

Lemma takeWhile_dropWhile p s : takeWhile p s ++ dropWhile p s = s.
Proof.
  induction s as [|c s IH]; cbn [takeWhile dropWhile]; [reflexivity|].
  destruct (p c); [cbn; now rewrite IH | reflexivity].
Qed.

Lemma dropWhile_head p s c r : dropWhile p s = c :: r -> p c = false.
Proof.
  induction s as [|d s IH]; cbn [dropWhile]; [discriminate|].
  destruct (p d) eqn:E; [exact IH | intros [= <- _]; exact E].
Qed.

Lemma dropWhile_idem p s : dropWhile p (dropWhile p s) = dropWhile p s.
Proof.
  destruct (dropWhile p s) as [|c r] eqn:E; [reflexivity|].
  cbn [dropWhile]. now rewrite (dropWhile_head _ _ _ _ E).
Qed.

(** A trimmed string is a fixed point of [trim]. *)
Lemma trim_idem s : trim (trim s) = trim s.
Proof.
  unfold trim. set (t := dropWhile isWhiteSpace s).
  set (B := dropWhile isWhiteSpace (rev t)).
  assert (Hhead : dropWhile isWhiteSpace (rev B) = rev B).
  { destruct (rev B) as [|c r] eqn:EB; [reflexivity|].
    assert (Ht : t = rev B ++ rev (takeWhile isWhiteSpace (rev t))).
    { rewrite <- rev_app_distr. subst B.
      now rewrite takeWhile_dropWhile, rev_involutive. }
    rewrite EB in Ht. cbn [app] in Ht.
    cbn [dropWhile]. now rewrite (dropWhile_head _ s c _ Ht). }
  rewrite Hhead, rev_involutive. subst B. now rewrite dropWhile_idem.
Qed.

Lemma trim_Forall (P : N -> Prop) s : Forall P s -> Forall P (trim s).
Proof.
  intros Hs. unfold trim.
  apply Forall_rev, dropWhile_Forall, Forall_rev, dropWhile_Forall, Hs.
Qed.

Lemma splitComma_no_comma s : Forall (fun w => Forall (fun c => c <> 44%N) w) (splitComma s).
Proof.
  induction s as [|c s IH]; cbn [splitComma]; [repeat constructor|].
  destruct (N.eqb_spec c 44) as [->|Hc]; [constructor; [constructor | exact IH]|].
  destruct (splitComma s) as [|w ws]; [repeat constructor; assumption|].
  inversion IH; subst. constructor; [constructor|]; assumption.
Qed.

Lemma forallb_of_Forall (p : N -> bool) l :
  Forall (fun c => p c = true) l -> forallb p l = true.
Proof. induction 1 as [|c l Hc _ IH]; cbn [forallb]; [|rewrite Hc, IH]; reflexivity. Qed.

End ConfigLists.

(** X7: every item of a list read by [parseConfigList] is non-empty, has
    no white space at either end, and holds no comma; an unset or empty
    setting gives the empty list. *)
Theorem parseConfigList_clean_items (rawConfig : option jsstring) :
  Forall (fun item => item <> [] /\ trim item = item
                      /\ Forall (fun c => c <> 44%N) item)
         (parseConfigList rawConfig)
  /\ parseConfigList None = [] /\ parseConfigList (Some []) = [].
Proof.
  split; [|split; reflexivity].
  destruct rawConfig as [s|]; [|constructor]. unfold parseConfigList.
  destruct (truthy s); [|constructor].
  apply Forall_forall. intros item Hitem.
  apply list_elem_of_filter in Hitem as [Hne Hitem].
  apply list_elem_of_fmap in Hitem as (piece & -> & Hpiece).
  split; [now apply truthy_true|]. split; [apply trim_idem|].
  apply trim_Forall.
  pose proof (splitComma_no_comma s) as Hall.
  rewrite Forall_forall in Hall. now apply Hall.
Qed.

(** ** The dedup window and the expiry timer *)

Section WindowAndTimer.
Context {W : Type} `{Client W}.

Lemma deleteExpiredMessages_runs env :
  0 < AUTO_DELETE_MINUTES env ->
  returns (fun o => o <> None) (deleteExpiredMessages env).
Proof.
  intros Hpos. unfold deleteExpiredMessages. cbn zeta.
  fold (AUTO_DELETE_MINUTES env).
  replace (AUTO_DELETE_MINUTES env <=? 0) with false
    by (symmetry; apply Z.leb_gt; lia).
  repeat returns_step; discriminate.
Qed.

(** X8: the sweep of the dedup map removes exactly the entries that are
    older than the window at the time it reads: an entry whose age equals
    the window is kept.  It adds nothing, and leaves the dispatch records
    and the log alone. *)
Theorem sweep_removes_exactly_expired (windowMinutes : Z) (st : State W)
    (k : jsstring) (e : Entry) :
  let st' := (cleanupProcessedMessages windowMinutes st).2 in
  (processedMessages st' !! k = Some e
   <-> processedMessages st !! k = Some e
       /\ clock (ticks st) - ts e <= windowMinutes * 60 * 1000)
  /\ sentNotificationMessages st' = sentNotificationMessages st
  /\ log st' = log st /\ world st' = world st /\ ticks st' = S (ticks st).
Proof.
  cbn zeta. split.
  - rewrite cleanupProcessedMessages_lookup.
    destruct (processedMessages st !! k) as [e'|]; [|now intuition].
    destruct (decide (clock (ticks st) - ts e' > windowMinutes * 60 * 1000)).
    + split; [discriminate | intros [[= ->] Hle]; lia].
    + split; [intros [= ->]; split; [reflexivity | lia] | now intros [? _]].
  - unfold cleanupProcessedMessages. cbn zeta. rewrite !run_bind.
    repeat split; reflexivity.
Qed.

Lemma numOr_nonzero n d : d <> 0 -> numOr n d <> 0.
Proof.
  intros Hd. unfold numOr. destruct n as [v|]; [|exact Hd].
  destruct (v =? 0) eqn:E; [exact Hd | now apply Z.eqb_neq].
Qed.

Lemma timer_of_age (env : ProcessEnv) (self bot : jsstring) :
  startAutoDeleteInterval
    (intervalMs (initializeMonitoring (monitoringConfig env) self bot))
  = if 0 <? AUTO_DELETE_MINUTES env
    then Some (if AUTO_DELETE_MINUTES env <=? 35791
               then AUTO_DELETE_MINUTES env * 60 * 1000 else 1)
    else None.
Proof.
  unfold intervalMs, initializeMonitoring, monitoringConfig.
  cbn [md_autoDeleteMinutes autoDeleteMinutes].
  destruct (0 <? AUTO_DELETE_MINUTES env) eqn:E; [|reflexivity].
  apply Z.ltb_lt in E. unfold startAutoDeleteInterval, timerDelay, TIMEOUT_MAX.
  rewrite Z.max_r by lia.
  replace (0 <? AUTO_DELETE_MINUTES env * 60 * 1000) with true
    by (symmetry; apply Z.ltb_lt; lia).
  replace (1 <=? AUTO_DELETE_MINUTES env * 60 * 1000) with true
    by (symmetry; apply Z.leb_le; lia).
  cbn [andb]. destruct (AUTO_DELETE_MINUTES env <=? 35791) eqn:E1.
  - apply Z.leb_le in E1.
    now replace (AUTO_DELETE_MINUTES env * 60 * 1000 <=? 2147483647) with true
      by (symmetry; apply Z.leb_le; lia).
  - apply Z.leb_gt in E1.
    now replace (AUTO_DELETE_MINUTES env * 60 * 1000 <=? 2147483647) with false
      by (symmetry; apply Z.leb_gt; lia).
Qed.

(** X9: the window the sweep runs with.  For every environment whose
    window, as computed in realtime-monitor.js, is below [2^53] in
    absolute value, it is that window, [initializeMonitoring] reading back
    the number it is given: the configured number when [parseInt] reads
    one other than 0 (also a negative one), the default
    [max(1, AUTO_DELETE_MINUTES)] otherwise.  For every environment it is
    not 0.  It is not the configured number at every size: with
    [DEDUP_WINDOW_MINUTES=1000000000000000000000] the number reaches
    [initializeMonitoring] as [10^21], whose text is in exponent form, and
    the window in force is 1 minute. *)
Theorem window_in_force :
  (forall (env : ProcessEnv) (self bot : jsstring),
      Z.abs (DEDUP_WINDOW_MINUTES env) < 2 ^ 53 ->
      let w := md_dedupWindowMinutes
                 (initializeMonitoring (monitoringConfig env) self bot) in
      w = DEDUP_WINDOW_MINUTES env
      /\ w = match parseInt (envToString (env_DEDUP_WINDOW_MINUTES env)) with
             | Some v => if v =? 0 then Z.max 1 (AUTO_DELETE_MINUTES env) else v
             | None => Z.max 1 (AUTO_DELETE_MINUTES env)
             end)
  /\ (forall (env : ProcessEnv) (self bot : jsstring),
        md_dedupWindowMinutes
          (initializeMonitoring (monitoringConfig env) self bot) <> 0)
  /\ DEDUP_WINDOW_MINUTES hugeWindowEnv = 10 ^ 21
  /\ numberToString (10 ^ 21) = u "1e+21"
  /\ (forall self bot : jsstring,
        md_dedupWindowMinutes
          (initializeMonitoring (monitoringConfig hugeWindowEnv) self bot) = 1).
Proof.
  split; [|split; [|split; [|split]]].
  - intros env self bot Hw. cbn zeta.
    rewrite (initializeMonitoring_window _ _ _ Hw). split; reflexivity.
  - intros env self bot. unfold initializeMonitoring.
    cbn [md_dedupWindowMinutes]. apply numOr_nonzero. lia.
  - vm_compute. reflexivity.
  - vm_compute. reflexivity.
  - intros self bot. unfold initializeMonitoring.
    cbn [md_dedupWindowMinutes]. vm_compute. reflexivity.
Qed.

(** X10: the expiry timer and the guard of [deleteExpiredMessages] agree
    for every environment: with a positive age a timer is set and a run
    passes the guard; otherwise no timer is set and a run returns at the
    guard without any effect.  The period of the timer is the age in
    minutes up to 35791 minutes; a greater age, from 35792 minutes (24
    days and 20 hours) on, makes a delay above [TIMEOUT_MAX], which Node
    replaces by 1 ms: with [AUTO_DELETE_MINUTES=43200], thirty days, the
    sweep is started every millisecond.  (A period is stated as a multiple
    of the age only below 35792, where numbers are exact.) *)
Theorem expiry_timer_matches_guard :
  (forall (env : ProcessEnv) (self bot : jsstring) (st : State W),
      let age := AUTO_DELETE_MINUTES env in
      let timer := startAutoDeleteInterval
                     (intervalMs (initializeMonitoring (monitoringConfig env) self bot)) in
      timer = (if 0 <? age
               then Some (if age <=? 35791 then age * 60 * 1000 else 1)
               else None)
      /\ (timer = None <-> deleteExpiredMessages env st = (None, st))
      /\ (timer = None <-> (deleteExpiredMessages env st).1 = None))
  /\ AUTO_DELETE_MINUTES thirtyDaysEnv = 43200
  /\ (forall self bot : jsstring,
        startAutoDeleteInterval
          (intervalMs (initializeMonitoring (monitoringConfig thirtyDaysEnv) self bot))
        = Some 1).
Proof.
  split; [|split; [vm_compute; reflexivity|]].
  - intros env self bot st. cbn zeta. rewrite timer_of_age.
    split; [reflexivity|].
    destruct (0 <? AUTO_DELETE_MINUTES env) eqn:E.
    + apply Z.ltb_lt in E.
      pose proof (deleteExpiredMessages_runs env E st) as Hrun.
      split; (split; [discriminate|]); intros Hnone; destruct Hrun;
        [now rewrite Hnone | exact Hnone].
    + apply Z.ltb_ge in E.
      assert (Hguard : deleteExpiredMessages env st = (None, st)).
      { unfold deleteExpiredMessages. cbn zeta. fold (AUTO_DELETE_MINUTES env).
        now replace (AUTO_DELETE_MINUTES env <=? 0) with true
          by (symmetry; apply Z.leb_le; lia). }
      rewrite Hguard. repeat split; reflexivity.
  - intros self bot. rewrite timer_of_age. vm_compute. reflexivity.
Qed.

End WindowAndTimer.

(** X9 with [DEDUP_WINDOW_MINUTES=-5]: the window in force is -5. *)
Lemma window_in_force_witness :
  Z.abs (DEDUP_WINDOW_MINUTES negativeWindowEnv) < 2 ^ 53
  /\ md_dedupWindowMinutes
       (@initializeMonitoring unit (testClient (fun _ => true) [] (fun n => Z.of_nat n))
          (monitoringConfig negativeWindowEnv) (u "42") []) = -5.
Proof.
  assert (Hrange : Z.abs (DEDUP_WINDOW_MINUTES negativeWindowEnv) < 2 ^ 53)
    by (vm_compute; reflexivity).
  split; [exact Hrange|].
  destruct (@window_in_force unit (testClient (fun _ => true) [] (fun n => Z.of_nat n)))
    as (Hw & _).
  destruct (Hw negativeWindowEnv (u "42") [] Hrange) as [-> _].
  vm_compute. reflexivity.
Defined.

(** ** The exclusion list of the expiry sweep *)

(** X11: the expiry sweep compares the normalized id of a dialog, a run of
    digits, with the items of [NOT_MONITOR_CHAT_IDS] as [parseChatIds]
    leaves them, which only loses a leading [-100].  An item that is not a
    non-empty run of digits therefore excludes no dialog: with a list of
    such items the sweep selects the same dialogs as with no list.  (For
    the monitor, [initializeMonitoring] normalizes the same items.) *)
Theorem sweep_exclusion_needs_digits (notMonitorChatIds : list jsstring)
    (dialog : Dialog) :
  forallb (fun id => negb (truthy id && forallb isDigit id)) notMonitorChatIds
  = true ->
  isGroupDialog notMonitorChatIds dialog = isGroupDialog [] dialog.
Proof.
  intros Hlist.
  assert (Hno : forall z, isMember (normalizeId (RawInt z)) notMonitorChatIds
                          = truthy (normalizeId (RawInt z)) && false
                          \/ truthy (normalizeId (RawInt z)) = false).
  { intros z. destruct (truthy (normalizeId (RawInt z))) eqn:Et; [left | now right].
    cbn [andb]. apply isMember_false. intros Hin.
    rewrite forallb_forall in Hlist.
    apply list_elem_of_In, Hlist in Hin.
    rewrite Et in Hin. cbn [andb] in Hin. apply negb_true_iff in Hin.
    pose proof (forallb_of_Forall _ _ (normalizeId_digits (RawInt z))) as Hd.
    congruence. }
  unfold isGroupDialog. destruct (entity dialog) as [chat|]; [|reflexivity].
  assert (Hid : truthy (normalizeId (RawInt (chat_id chat)))
                && negb (isMember (normalizeId (RawInt (chat_id chat)))
                           notMonitorChatIds)
                = truthy (normalizeId (RawInt (chat_id chat)))
                  && negb (isMember (normalizeId (RawInt (chat_id chat))) [])).
  { destruct (Hno (chat_id chat)) as [-> | ->]; [|reflexivity].
    now destruct (truthy _). }
  destruct (className chat); [reflexivity | exact Hid|].
  destruct (broadcast chat); [reflexivity | exact Hid].
Qed.

(** X11 on [NOT_MONITOR_CHAT_IDS=-12345]: the item is kept with its sign,
    and the basic group 12345 is still swept. *)
Lemma sweep_exclusion_needs_digits_witness :
  parseChatIds (Some (u "-12345")) false = [u "-12345"]
  /\ isGroupDialog (parseChatIds (Some (u "-12345")) false)
       {| entity := Some {| className := ClsChat; broadcast := false;
                            chat_id := 12345 |} |}
     = isGroupDialog []
         {| entity := Some {| className := ClsChat; broadcast := false;
                              chat_id := 12345 |} |}.
Proof.
  split; [reflexivity|].
  apply (sweep_exclusion_needs_digits (parseChatIds (Some (u "-12345")) false)).
  reflexivity.
Defined.

(** ** The calls a computation makes *)

Section ListInclusion.
Context {A : Type}.

Lemma sub_single (x : A) l : [x] ⊆ x :: l.
Proof. intros y Hy. apply list_elem_of_singleton in Hy as ->. apply list_elem_of_here. Qed.

Lemma sub_further (x : A) l : l ⊆ x :: l.
Proof. intros y Hy. now apply list_elem_of_further. Qed.

Lemma sub_app_nil (l : list A) : l ⊆ l ++ [].
Proof. now rewrite app_nil_r. Qed.

End ListInclusion.

Section Calls.
Context {W : Type} `{Client W}.

#[global] Instance emits_preorder P : PreOrder (emits (W:=W) P).
Proof.
  split.
  - intros st. exists []. now rewrite app_nil_r.
  - intros a b c (e1 & H1 & P1) (e2 & H2 & P2). exists (e1 ++ e2).
    split; [now rewrite H2, H1, app_assoc | now apply Forall_app].
Qed.

Lemma emits_weaken (P Q : Event -> Prop) {A} (m : @M W A) :
  (forall e, P e -> Q e) -> preserves (emits P) m -> preserves (emits Q) m.
Proof.
  intros HPQ Hm st. destruct (Hm st) as (evs & Hl & HP).
  exists evs. split; [exact Hl | eapply Forall_impl; eauto].
Qed.

Lemma emits_call P {A} e (op : W -> A * W) : P e -> preserves (emits P) (call e op).
Proof.
  intros He st. unfold call. destruct (op (world st)).
  exists [e]. split; [reflexivity | now repeat constructor].
Qed.

Lemma emits_sleep P ms : P (EvSleep ms) -> preserves (W:=W) (emits P) (sleep ms).
Proof. intros He st. exists [EvSleep ms]. split; [reflexivity | now repeat constructor]. Qed.

Lemma emits_silent P {A} (m : @M W A) :
  (forall st, log (m st).2 = log st) -> preserves (emits P) m.
Proof. intros Hm st. exists []. now rewrite Hm, app_nil_r. Qed.

Lemma emits_dateNow P : preserves (W:=W) (emits P) dateNow.
Proof. now apply emits_silent. Qed.

Lemma emits_getSent P : preserves (W:=W) (emits P) getSent.
Proof. now apply emits_silent. Qed.

Lemma emits_setSent P sn : preserves (W:=W) (emits P) (setSent sn).
Proof. now apply emits_silent. Qed.

Lemma emits_getProcessed P : preserves (W:=W) (emits P) getProcessed.
Proof. now apply emits_silent. Qed.

Lemma emits_setProcessed P pm : preserves (W:=W) (emits P) (setProcessed pm).
Proof. now apply emits_silent. Qed.

Lemma logsAll_nil {A} (m : @M W A) :
  preserves (emits (fun _ => True)) m -> preserves (logsAll []) m.
Proof.
  intros Hm st. destruct (Hm st) as (evs & Hl & _). exists evs.
  split; [exact Hl | intros e He; inversion He].
Qed.

Lemma logsAll_bind es1 es2 {A B} (m : @M W A) (f : A -> @M W B) :
  preserves (logsAll es1) m -> (forall a, preserves (logsAll es2) (f a)) ->
  preserves (logsAll (es1 ++ es2)) (m ≫= f).
Proof.
  intros Hm Hf st. rewrite run_bind.
  destruct (Hm st) as (e1 & H1 & I1).
  destruct (Hf (m st).1 (m st).2) as (e2 & H2 & I2).
  exists (e1 ++ e2). split; [now rewrite H2, H1, app_assoc|].
  intros e He. apply elem_of_app. apply elem_of_app in He as [He|He]; auto.
Qed.

End Calls.

#[export] Hint Resolve emits_dateNow emits_getSent emits_setSent
  emits_getProcessed emits_setProcessed : frame.

(** Split a goal about the calls of a computation; [tac] proves that a
    call is allowed. *)
Ltac emits_step tac :=
  match goal with
  | |- preserves (emits _) (call _ _) => apply emits_call; tac
  | |- preserves (emits _) (sleep _) => apply emits_sleep; tac
  | |- preserves _ (_ ≫= _) =>
      apply preserves_bind; [typeclasses eauto | | intros ?]
  | |- preserves _ (match ?x with _ => _ end) => destruct x
  | |- preserves _ (if ?x then _ else _) => destruct x
  | |- _ => solve [auto with frame]
  end.

Ltac emits_with tac := repeat emits_step tac.

(** ** Retries of a Bot API request *)

Section Retry.
Context {W : Type} `{Client W}.

Lemma fetchWithRetryFrom_step q attempt r (st : State W) :
  fetchWithRetryFrom q attempt (S r) st
  = let '(a, w') := fetch q (world st) in
    let st1 := {| world := w'; ticks := ticks st; log := log st ++ [EvFetch q];
                  processedMessages := processedMessages st;
                  sentNotificationMessages := sentNotificationMessages st |} in
    match a with
    | Returned resp => (Returned resp, st1)
    | Threw =>
        match r with
        | O => (Threw, st1)
        | S _ =>
            fetchWithRetryFrom q (attempt + 1) r
              {| world := w'; ticks := ticks st;
                 log := (log st ++ [EvFetch q]) ++ [EvSleep (1000 * 2 ^ attempt)];
                 processedMessages := processedMessages st;
                 sentNotificationMessages := sentNotificationMessages st |}
        end
    end.
Proof.
  cbn [fetchWithRetryFrom]. unfold_M.
  destruct (fetch q (world st)) as [[|resp] w']; [|reflexivity].
  destruct r; reflexivity.
Qed.

Lemma fetchWithRetryFrom_schedule q attempt remaining (st : State W) :
  let res := fetchWithRetryFrom q attempt remaining st in
  exists fetches,
    (fetches <= remaining)%nat
    /\ (1 <= remaining -> 1 <= fetches)%nat
    /\ log res.2 = log st ++ retrySchedule q attempt fetches
    /\ match res.1 with
       | Threw => fetches = remaining
       | Returned resp =>
           exists w w', fetch q w = (Returned resp, w') /\ world res.2 = w'
       end
    /\ ticks res.2 = ticks st
    /\ processedMessages res.2 = processedMessages st
    /\ sentNotificationMessages res.2 = sentNotificationMessages st.
Proof.
  cbn zeta. revert attempt st.
  induction remaining as [|r IH]; intros attempt st.
  - exists 0%nat. cbn. rewrite app_nil_r. repeat split; lia.
  - rewrite fetchWithRetryFrom_step.
    destruct (fetch q (world st)) as [[|resp] w'] eqn:Ef; cbn zeta.
    + destruct r as [|r'].
      * exists 1%nat. cbn. repeat split; first [lia | reflexivity].
      * match goal with |- context [fetchWithRetryFrom q ?a ?n ?s] =>
          destruct (IH a s) as (k & Hk & Hk1 & Hlog & Hres & Ht & Hp & Hs) end.
        simpl_state. exists (S k).
        split; [lia|]. split; [lia|].
        split.
        { rewrite Hlog. rewrite <- !app_assoc. cbn [app retrySchedule].
          destruct k as [|k']; [lia | reflexivity]. }
        split; [|now repeat split].
        destruct (fetchWithRetryFrom q (attempt + 1) (S r') _).1; [lia | exact Hres].
    + exists 1%nat. cbn. split; [lia|]. split; [lia|]. split; [reflexivity|].
      split; [|now repeat split]. now exists (world st), w'.
Qed.

Lemma fetchWithRetryFrom_trace q attempt remaining (st : State W) :
  let res := fetchWithRetryFrom q attempt remaining st in
  match res.1 with
  | Threw =>
      (forall i, (i < remaining)%nat ->
                 (fetch q (fetchWorld q i (world st))).1 = Threw)
      /\ world res.2 = fetchWorld q remaining (world st)
      /\ log res.2 = log st ++ retrySchedule q attempt remaining
  | Returned resp =>
      exists k, (k < remaining)%nat
        /\ (forall i, (i < k)%nat ->
                      (fetch q (fetchWorld q i (world st))).1 = Threw)
        /\ fetch q (fetchWorld q k (world st)) = (Returned resp, world res.2)
        /\ log res.2 = log st ++ retrySchedule q attempt (S k)
  end.
Proof.
  cbn zeta. revert attempt st.
  induction remaining as [|r IH]; intros attempt st.
  - cbn. rewrite app_nil_r. repeat split. intros i Hi. lia.
  - rewrite fetchWithRetryFrom_step.
    destruct (fetch q (world st)) as [[|resp] w'] eqn:Ef; cbn zeta.
    + destruct r as [|r'].
      * cbn [fst snd world log fetchWorld retrySchedule]. rewrite Ef.
        repeat split. intros i Hi. assert (i = 0)%nat as -> by lia.
        cbn [fetchWorld]. now rewrite Ef.
      * match goal with |- context [fetchWithRetryFrom q ?a ?n ?s] =>
          specialize (IH a s); destruct (fetchWithRetryFrom q a n s) as [[|resp] st']
        end; simpl_state; cbn [fst snd] in *.
        -- destruct IH as (Hall & Hw & Hlog). split; [|split].
           ++ intros [|i] Hi; cbn [fetchWorld]; rewrite ?Ef; [reflexivity|].
              apply Hall. lia.
           ++ cbn [fetchWorld]. now rewrite Ef.
           ++ rewrite Hlog, <- !app_assoc. reflexivity.
        -- destruct IH as (k & Hk & Hall & Hret & Hlog). exists (S k).
           split; [lia|]. split; [|split].
           ++ intros [|i] Hi; cbn [fetchWorld]; rewrite ?Ef; [reflexivity|].
              apply Hall. lia.
           ++ cbn [fetchWorld]. now rewrite Ef.
           ++ rewrite Hlog, <- !app_assoc. reflexivity.
    + exists 0%nat. cbn [fst snd world log fetchWorld retrySchedule].
      split; [lia|]. split; [intros i Hi; lia|]. split; [exact Ef | reflexivity].
Qed.

Lemma retrySchedule_delays q attempt fetches ms :
  0 <= attempt -> attempt + Z.of_nat fetches <= 23 ->
  EvSleep ms ∈ retrySchedule q attempt fetches -> timerDelay ms = ms.
Proof.
  revert attempt. induction fetches as [|n IH]; intros attempt H0 Hle Hin.
  - inversion Hin.
  - cbn [retrySchedule] in Hin. apply elem_of_cons in Hin as [Hin | Hin];
      [discriminate Hin|].
    destruct n as [|n']; [inversion Hin|].
    apply elem_of_cons in Hin as [Hin | Hin].
    + injection Hin as ->. unfold timerDelay, TIMEOUT_MAX.
      assert (0 < 2 ^ attempt) by (apply Z.pow_pos_nonneg; lia).
      assert (2 ^ attempt <= 2 ^ 21) by (apply Z.pow_le_mono_r; lia).
      change (2 ^ 21) with 2097152 in *.
      replace (1 <=? 1000 * 2 ^ attempt) with true
        by (symmetry; apply Z.leb_le; lia).
      now replace (1000 * 2 ^ attempt <=? 2147483647) with true
        by (symmetry; apply Z.leb_le; lia).
    + apply (IH (attempt + 1)); [lia | lia | exact Hin].
Qed.

End Retry.

(** X12: [fetchWithRetry] sends the request until it does not throw, at
    most [maxRetries] times, each time to the world the request before
    left.  When a request returns, all the requests before it threw, no
    request follows it, and its response is the result.  The call throws
    exactly when [maxRetries] requests in a row threw.  After each request
    that throws, except the last of [maxRetries], comes a pause, and
    nothing else is done: the log grows by the requests and the pauses of
    [1000 * 2 ^ attempt] ms (1 s, 2 s, 4 s, ...) between them.  No clock is
    read and neither map is written.  Up to [maxRetries = 23] (the code
    uses 3) every pause is a delay that Node takes as it is. *)
Theorem fetchWithRetry_backoff (W : Type) `{Client W} (q : BotRequest)
    (maxRetries : nat) (st : State W) :
  let res := fetchWithRetry q maxRetries st in
  let thrown (i : nat) := (fetch q (fetchWorld q i (world st))).1 = Threw in
  match res.1 with
  | Threw =>
      (forall i, (i < maxRetries)%nat -> thrown i)
      /\ world res.2 = fetchWorld q maxRetries (world st)
      /\ log res.2 = log st ++ retrySchedule q 0 maxRetries
  | Returned resp =>
      exists k, (k < maxRetries)%nat
        /\ (forall i, (i < k)%nat -> thrown i)
        /\ fetch q (fetchWorld q k (world st)) = (Returned resp, world res.2)
        /\ log res.2 = log st ++ retrySchedule q 0 (S k)
  end
  /\ ticks res.2 = ticks st
  /\ processedMessages res.2 = processedMessages st
  /\ sentNotificationMessages res.2 = sentNotificationMessages st
  /\ ((maxRetries <= 23)%nat ->
      forall fetches ms, (fetches <= maxRetries)%nat ->
        EvSleep ms ∈ retrySchedule q 0 fetches -> timerDelay ms = ms).
Proof.
  cbn zeta. unfold fetchWithRetry.
  split; [exact (fetchWithRetryFrom_trace q 0 maxRetries st)|].
  destruct (fetchWithRetryFrom_schedule q 0 maxRetries st)
    as (k & _ & _ & _ & _ & Ht & Hp & Hs).
  split; [exact Ht|]. split; [exact Hp|]. split; [exact Hs|].
  intros Hmax fetches ms Hf. apply retrySchedule_delays; lia.
Qed.

(** X12 at work: with a Bot API whose first two requests throw, the third
    request returns and is the last; the pauses are of 1 s and 2 s. *)
Lemma fetchWithRetry_backoff_witness :
  let q := BotSendMessage (u "token") (u "9000") (u "text") in
  let res := @fetchWithRetry nat flakyBot q 3 (initialState 0%nat) in
  res.1 = Returned (sentResponse 2)
  /\ log res.2 = [EvFetch q; EvSleep 1000; EvFetch q; EvSleep 2000; EvFetch q]
  /\ world res.2 = 3%nat
  /\ timerDelay 2000 = 2000.
Proof.
  cbn zeta.
  pose proof (@fetchWithRetry_backoff nat flakyBot
                (BotSendMessage (u "token") (u "9000") (u "text")) 3
                (initialState 0%nat)) as (_ & _ & _ & _ & Hdelay).
  split; [vm_compute; reflexivity|]. split; [vm_compute; reflexivity|].
  split; [vm_compute; reflexivity|].
  apply (Hdelay ltac:(lia) 3%nat 2000 ltac:(lia)). vm_compute.
  apply list_elem_of_further, list_elem_of_further, list_elem_of_further,
    list_elem_of_here.
Defined.

(** ** Dispatch of a notification *)

Section Dispatch.
Context {W : Type} `{Client W}.

#[global] Instance sentGrowsAt_preorder targets : PreOrder (sentGrowsAt (W:=W) targets).
Proof.
  split.
  - intros st t. split; [exists []; now rewrite app_nil_r | reflexivity].
  - intros a b c Hab Hbc t.
    destruct (Hab t) as [[n1 H1] K1]. destruct (Hbc t) as [[n2 H2] K2].
    split; [exists (n1 ++ n2); now rewrite H2, H1, app_assoc|].
    intros Ht. now rewrite K2, K1.
Qed.

Lemma sentGrowsAt_kept targets {A} (m : @M W A) :
  preserves sentKept m -> preserves (sentGrowsAt targets) m.
Proof.
  intros Hm st t. rewrite (Hm st).
  split; [exists []; now rewrite app_nil_r | reflexivity].
Qed.

Lemma sentGrowsAt_mono l l' {A} (m : @M W A) :
  l ⊆ l' -> preserves (sentGrowsAt l) m -> preserves (sentGrowsAt l') m.
Proof.
  intros Hl Hm st t. destruct (Hm st t) as [Hg Hk]. split; [exact Hg|].
  intros Ht. apply Hk. intros Hin. apply Ht, Hl, Hin.
Qed.

Lemma recordSent_grows target mid :
  preserves (W:=W) (sentGrowsAt [target]) (recordSent target mid).
Proof.
  intros st t. unfold recordSent. unfold_M.
  destruct (decide (t = target)) as [->|Hne].
  - rewrite lookup_insert_eq. split; [now exists [mid]|].
    intros Hn. destruct Hn. apply list_elem_of_here.
  - rewrite lookup_insert_ne by congruence.
    split; [exists []; now rewrite app_nil_r | reflexivity].
Qed.

Lemma fetchWithRetryFrom_keepsSent q attempt remaining :
  preserves sentKept (fetchWithRetryFrom q attempt remaining).
Proof.
  intros st.
  destruct (fetchWithRetryFrom_schedule q attempt remaining st)
    as (k & _ & _ & _ & _ & _ & _ & Hs).
  exact Hs.
Qed.

Lemma botSendOne_grows token target txt :
  preserves (sentGrowsAt [target]) (botSendOne token target txt).
Proof.
  unfold botSendOne, fetchWithRetry.
  apply preserves_bind;
    [typeclasses eauto
    | apply sentGrowsAt_kept, fetchWithRetryFrom_keepsSent |].
  intros r. frame; apply recordSent_grows.
Qed.

Lemma botSendAll_grows token targets txt :
  preserves (sentGrowsAt targets) (botSendAll token targets txt).
Proof.
  induction targets as [|t targets IH]; cbn [botSendAll]; frame.
  - apply (sentGrowsAt_mono [t]); [apply sub_single | apply botSendOne_grows].
  - apply (sentGrowsAt_mono targets); [apply sub_further | exact IH].
Qed.

Lemma clientSendOne_grows target txt :
  preserves (sentGrowsAt [target]) (clientSendOne target txt).
Proof.
  unfold clientSendOne.
  apply preserves_bind;
    [typeclasses eauto | apply sentGrowsAt_kept, resolveTarget_keepsSent |].
  intros e. frame; try apply recordSent_grows;
    apply sentGrowsAt_kept; auto with frame.
Qed.

Lemma clientSendAll_grows targets txt n :
  preserves (sentGrowsAt targets) (clientSendAll targets txt n).
Proof.
  revert n. induction targets as [|t targets IH]; intros n;
    cbn [clientSendAll]; frame.
  - apply (sentGrowsAt_mono [t]); [apply sub_single | apply clientSendOne_grows].
  - apply (sentGrowsAt_mono targets); [apply sub_further | apply IH].
Qed.

Lemma logsAll_call {A} e (op : W -> A * W) : preserves (logsAll [e]) (call e op).
Proof.
  intros st. unfold call. destruct (op (world st)). exists [e].
  split; [reflexivity | now intros e' He'].
Qed.

Lemma logsAll_mono es es' {A} (m : @M W A) :
  es' ⊆ es -> preserves (logsAll es) m -> preserves (logsAll es') m.
Proof.
  intros Hsub Hm st. destruct (Hm st) as (evs & Hl & Hin).
  exists evs. split; [exact Hl | intros e He; apply Hin, Hsub, He].
Qed.

Lemma recordSent_silent target mid : preserves (W:=W) (emits (fun _ => True)) (recordSent target mid).
Proof. unfold recordSent. emits_with ltac:(exact I). Qed.

Lemma fetchWithRetryFrom_first q attempt remaining :
  (1 <= remaining)%nat ->
  preserves (logsAll [EvFetch q]) (fetchWithRetryFrom q attempt remaining).
Proof.
  intros Hr st.
  destruct (fetchWithRetryFrom_schedule q attempt remaining st)
    as (k & _ & Hk & Hlog & _).
  exists (retrySchedule q attempt k). split; [exact Hlog|].
  intros e He. apply list_elem_of_singleton in He as ->.
  destruct k as [|k]; [lia|]. cbn [retrySchedule]. apply list_elem_of_here.
Qed.

Lemma botSendOne_attempt token target txt :
  preserves (logsAll [EvFetch (BotSendMessage token target txt)])
    (botSendOne token target txt).
Proof.
  unfold botSendOne, fetchWithRetry.
  apply (logsAll_mono ([EvFetch (BotSendMessage token target txt)] ++ []));
    [apply sub_app_nil|].
  apply logsAll_bind; [apply fetchWithRetryFrom_first; lia|].
  intros r. apply logsAll_nil.
  emits_with ltac:(exact I); apply recordSent_silent.
Qed.

Lemma botSendAll_attempts token targets txt :
  preserves (logsAll (map (fun t => EvFetch (BotSendMessage token t txt)) targets))
    (botSendAll token targets txt).
Proof.
  induction targets as [|t targets IH]; cbn [botSendAll map].
  - apply logsAll_nil. emits_with ltac:(exact I).
  - change (?e :: map ?f targets) with ([e] ++ map f targets).
    apply logsAll_bind; [apply botSendOne_attempt|]. intros r.
    apply (logsAll_mono
             (map (fun t => EvFetch (BotSendMessage token t txt)) targets ++ []));
      [apply sub_app_nil|].
    apply logsAll_bind; [exact IH|]. intros rs.
    apply logsAll_nil. emits_with ltac:(exact I).
Qed.

Lemma clientSendOne_attempt target txt :
  preserves (logsAll [EvGetEntity (RefId target)]) (clientSendOne target txt).
Proof.
  unfold clientSendOne, resolveTarget.
  apply (logsAll_mono ([EvGetEntity (RefId target)] ++ [])); [apply sub_app_nil|].
  apply logsAll_bind.
  - apply (logsAll_mono ([EvGetEntity (RefId target)] ++ [])); [apply sub_app_nil|].
    apply logsAll_bind; [apply logsAll_call|]. intros r.
    apply logsAll_nil. emits_with ltac:(exact I).
  - intros e. apply logsAll_nil.
    emits_with ltac:(exact I); apply recordSent_silent.
Qed.

Lemma clientSendAll_attempts targets txt n :
  preserves (logsAll (map (fun t => EvGetEntity (RefId t)) targets))
    (clientSendAll targets txt n).
Proof.
  revert n. induction targets as [|t targets IH]; intros n;
    cbn [clientSendAll map].
  - apply logsAll_nil. emits_with ltac:(exact I).
  - change (?e :: map ?f targets) with ([e] ++ map f targets).
    apply logsAll_bind; [apply clientSendOne_attempt | intros ok; apply IH].
Qed.

(** X13: [sendNotification] does nothing and returns [false] when
    [NOTIFICATION_CHAT_ID] is unset or empty.  Otherwise the dispatch
    records only grow: ids are appended to the records of the targets, and
    the record of every other chat is left as it was.  The dedup map is
    never written. *)
Theorem sendNotification_records (m : Message) (chat : option Chat)
    (NOTIFICATION_CHAT_ID TELEGRAM_BOT_TOKEN USER_KEYWORDS : option jsstring)
    (st : State W) :
  let run := sendNotification m chat NOTIFICATION_CHAT_ID TELEGRAM_BOT_TOKEN
               USER_KEYWORDS in
  sendNotification m chat None TELEGRAM_BOT_TOKEN USER_KEYWORDS st = (false, st)
  /\ sendNotification m chat (Some []) TELEGRAM_BOT_TOKEN USER_KEYWORDS st
     = (false, st)
  /\ sentGrowsAt (notificationTargets NOTIFICATION_CHAT_ID) st (run st).2
  /\ processedMessages (run st).2 = processedMessages st.
Proof.
  cbn zeta. split; [reflexivity|]. split; [reflexivity|].
  split; [|apply sendNotification_quiet].
  revert st. change (preserves (sentGrowsAt (notificationTargets NOTIFICATION_CHAT_ID))
    (sendNotification m chat NOTIFICATION_CHAT_ID TELEGRAM_BOT_TOKEN USER_KEYWORDS)).
  unfold sendNotification, notificationTargets.
  destruct NOTIFICATION_CHAT_ID as [targets|]; [|frame].
  destruct (truthy targets); cbn [negb]; [|frame].
  frame; auto using botSendAll_grows, clientSendAll_grows.
Qed.

(** X14: with [NOTIFICATION_CHAT_ID] set, [sendNotification] tries every
    target of the list, whatever happens to the others: the calls it makes
    include, for each target, the Bot API request (with a token) or the
    lookup of the target chat (without one). *)
Theorem every_target_attempted (m : Message) (chat : option Chat)
    (targets : jsstring) (TELEGRAM_BOT_TOKEN USER_KEYWORDS : option jsstring)
    (st : State W) :
  truthy targets = true ->
  let res := sendNotification m chat (Some targets) TELEGRAM_BOT_TOKEN
               USER_KEYWORDS st in
  let txt := formatNotification m chat USER_KEYWORDS in
  logsAll (map (fun t => attemptEvent TELEGRAM_BOT_TOKEN t txt)
               (map trim (splitComma targets))) st res.2.
Proof.
  intros Ht. cbn zeta. revert st.
  change (preserves
    (logsAll (map (fun t => attemptEvent TELEGRAM_BOT_TOKEN t
                              (formatNotification m chat USER_KEYWORDS))
                (map trim (splitComma targets))))
    (sendNotification m chat (Some targets) TELEGRAM_BOT_TOKEN USER_KEYWORDS)).
  unfold sendNotification, attemptEvent. rewrite Ht. cbn [negb].
  assert (Hret : forall A es (mm : @M W A) (f : A -> bool),
            preserves (logsAll es) mm ->
            preserves (logsAll es) (mm ≫= fun a => mret (f a))).
  { intros A es mm f Hm. apply (logsAll_mono (es ++ [])); [apply sub_app_nil|].
    apply logsAll_bind; [exact Hm|]. intros a. apply logsAll_nil.
    emits_with ltac:(exact I). }
  destruct TELEGRAM_BOT_TOKEN as [token|];
    [destruct (truthy token)|]; apply Hret;
    first [apply botSendAll_attempts | apply clientSendAll_attempts].
Qed.

End Dispatch.

(** X14 on two targets without a bot token. *)
Lemma every_target_attempted_witness :
  let client := testClient (fun _ => true) [] (fun n => Z.of_nat n) in
  let res := @sendNotification unit client groupMessage None
               (Some (u "-1009000, 4242")) None None (initialState tt) in
  logsAll [EvGetEntity (RefId (u "-1009000")); EvGetEntity (RefId (u "4242"))]
    (initialState tt) res.2.
Proof.
  exact (@every_target_attempted unit
           (testClient (fun _ => true) [] (fun n => Z.of_nat n))
           groupMessage None (u "-1009000, 4242") None None (initialState tt)
           eq_refl).
Defined.

(** ** Retraction only touches what was recorded *)

Section RetractionCalls.
Context {W : Type} `{Client W}.

Lemma botDeleteEach_calls token target ids all n :
  ids ⊆ all ->
  preserves (emits (retractionCall target all)) (botDeleteEach token target ids n).
Proof.
  revert n. induction ids as [|id ids IH]; intros n Hsub; cbn [botDeleteEach].
  - emits_with idtac.
  - apply preserves_bind; [typeclasses eauto | |].
    + apply emits_call. split; [reflexivity | apply Hsub, list_elem_of_here].
    + intros r. apply IH. intros x Hx. now apply Hsub, list_elem_of_further.
Qed.

Lemma clientDeleteEach_calls chat target ids all n :
  ids ⊆ all ->
  preserves (emits (retractionCall target all)) (clientDeleteEach chat ids n).
Proof.
  revert n. induction ids as [|id ids IH]; intros n Hsub; cbn [clientDeleteEach].
  - emits_with idtac.
  - apply preserves_bind; [typeclasses eauto | |].
    + apply emits_call. cbn. intros x Hx.
      apply list_elem_of_singleton in Hx as ->. apply Hsub, list_elem_of_here.
    + intros r. apply IH. intros x Hx. now apply Hsub, list_elem_of_further.
Qed.

Lemma clientDeletePrevious_calls target ids :
  preserves (emits (retractionCall target ids)) (clientDeletePrevious target ids).
Proof.
  unfold clientDeletePrevious, resolveTarget.
  emits_with ltac:(cbn; first [reflexivity | intros x Hx; exact Hx]).
  now apply clientDeleteEach_calls.
Qed.

(** X15: what [deletePreviousNotifications] asks to delete.  Its calls are
    lookups of the target chat and deletions, through the client or the
    Bot API, of ids that the record of the target holds when it starts: it
    never deletes an id it has not recorded for that target, and it sends
    nothing. *)
Theorem retraction_only_recorded (target : jsstring) (token : option jsstring)
    (st : State W) :
  emits (retractionCall target
           (default [] (sentNotificationMessages st !! target)))
    st (deletePreviousNotifications target token st).2.
Proof.
  unfold deletePreviousNotifications. rewrite run_bind. cbn [getSent fst snd].
  set (ids := default [] (sentNotificationMessages st !! target)).
  assert (Hrest : forall l, l = ids ->
    preserves (emits (retractionCall target ids))
      (match l with
       | [] => mret tt
       | _ :: _ =>
           (match token with
            | Some tk => if truthy tk then botDeleteEach tk target l 0
                         else clientDeletePrevious target l
            | None => clientDeletePrevious target l
            end) ≫= fun _ => getSent ≫= fun sn' => setSent (<[target := []]> sn')
       end)).
  { intros l ->. destruct ids eqn:E; [emits_with idtac|]. rewrite <- E.
    apply preserves_bind; [typeclasses eauto | | intros ?; emits_with idtac].
    destruct token as [tk|]; [destruct (truthy tk)|];
      first [now apply botDeleteEach_calls | apply clientDeletePrevious_calls]. }
  exact (Hrest ids eq_refl st).
Qed.

End RetractionCalls.

(** ** The scan of the expiry sweep *)

Section Scan.
Context {W : Type} `{Client W}.

Lemma preserves_bind_with R `{!Transitive R} {A B} (Q : A -> Prop)
    (m : @M W A) (f : A -> @M W B) :
  preserves R m -> returns Q m -> (forall a, Q a -> preserves R (f a)) ->
  preserves R (m ≫= f).
Proof.
  intros Hm HQ Hf st. rewrite run_bind.
  etransitivity; [apply Hm | apply Hf, HQ].
Qed.

(** No call at all. *)
Lemma emits_none (st st' : State W) :
  emits (fun _ => False) st st' -> log st' = log st.
Proof.
  intros (evs & Hl & HF). destruct evs as [|e evs]; [now rewrite app_nil_r in Hl|].
  now inversion HF.
Qed.

Lemma recentLoop_calls P messages me cutoff acc :
  preserves (emits P) (recentLoop messages me cutoff acc).
Proof.
  revert acc. induction messages as [|[msg|] messages IH]; intros acc;
    cbn [recentLoop]; emits_with idtac.
Qed.

Lemma recentLoop_safe messages me cutoff acc (st : State W) :
  let Q := fun msg => compareSenderId (senderId msg) me = true
                      /\ expiredDeletable cutoff msg in
  Forall Q acc -> Forall Q (recentLoop messages me cutoff acc st).1.
Proof.
  cbn zeta. revert acc st.
  induction messages as [|[msg|] messages IH]; intros acc st Hacc;
    cbn [recentLoop]; [exact Hacc | | now apply IH].
  unfold_M.
  destruct (date msg <? clock (ticks st) / 1000 - 600); [exact Hacc|].
  destruct (isDeletableMessage (Some msg)) eqn:Ed; cbn [negb]; [|now apply IH].
  destruct (compareSenderId (senderId msg) me) eqn:Es; cbn [andb]; [|now apply IH].
  destruct (date msg <? cutoff) eqn:Ec; [|now apply IH].
  apply IH. apply Forall_app. split; [exact Hacc|].
  constructor; [|constructor]. split; [exact Es|].
  split; [exact Ed | now apply Z.ltb_lt].
Qed.

Lemma expiredOf_safe cutoff messages :
  Forall (expiredDeletable cutoff) (expiredOf cutoff messages).
Proof.
  unfold expiredOf. apply Forall_forall. intros m Hm.
  apply list_elem_of_omap in Hm as ([msg|] & _ & Hf); [|discriminate].
  destruct (isDeletableMessage (Some msg) && (date msg <? cutoff)) eqn:E;
    [|discriminate].
  injection Hf as <-. apply andb_true_iff in E as [Ed Ec].
  split; [exact Ed | now apply Z.ltb_lt].
Qed.

Lemma searchLoop_spec chat uid hash cutoff minDate maxDate pagesLeft offsetId
    older (st : State W) :
  Forall (expiredDeletable cutoff) older ->
  let res := searchLoop chat uid hash cutoff minDate maxDate offsetId pagesLeft
               older st in
  (forall l, res.1 = Returned l -> Forall (expiredDeletable cutoff) l)
  /\ exists evs,
       log res.2 = log st ++ evs
       /\ Forall (searchCall chat uid hash minDate maxDate) evs
       /\ (length (List.filter isSearch evs) <= pagesLeft)%nat.
Proof.
  cbn zeta. revert offsetId older st.
  induction pagesLeft as [|n IH]; intros offsetId older st Holder.
  - cbn. split; [now intros l [= <-]|]. exists [].
    rewrite app_nil_r. repeat split; [constructor | cbn; lia].
  - cbn [searchLoop]. cbn zeta. unfold_M.
    match goal with |- context [searchMessages ?q (world st)] =>
      set (query := q);
      assert (Hq : searchCall chat uid hash minDate maxDate (EvSearch query))
        by (cbn; tauto);
      destruct (searchMessages query (world st)) as [[|msgs] w'] eqn:Eq
    end.
    + split; [discriminate|]. exists [EvSearch query]. simpl_state.
      repeat split; [now repeat constructor | cbn; lia].
    + destruct msgs as [|m0 ms].
      * split; [now intros l [= <-]|]. exists [EvSearch query]. simpl_state.
        repeat split; [now repeat constructor | cbn; lia].
      * assert (Hnew : Forall (expiredDeletable cutoff)
                         (older ++ expiredOf cutoff (m0 :: ms)))
          by (apply Forall_app; split; [exact Holder | apply expiredOf_safe]).
        destruct (Z.of_nat (length (m0 :: ms)) <? 100).
        { split; [now intros l [= <-]|]. exists [EvSearch query]. simpl_state.
          repeat split; [now repeat constructor | cbn; lia]. }
        match goal with |- context [searchLoop _ _ _ _ _ _ ?o n ?acc ?s] =>
          destruct (IH o acc s Hnew) as (Hval & evs & Hlog & Hcalls & Hcount) end.
        split; [exact Hval|].
        exists ([EvSearch query; EvSleep 200] ++ evs).
        split; [rewrite Hlog; simpl_state; now rewrite <- !app_assoc|].
        split; [apply Forall_app; split; [now repeat constructor | exact Hcalls]|].
        rewrite List.filter_app, length_app. cbn. lia.
Qed.

End Scan.

Section ScanPasses.
Context {W : Type} `{Client W}.

Lemma getRecentMessagesRealtime_spec (chat : Chat) (myUserId : option Z)
    (cutoffTime : Z) (st : State W) :
  let res := getRecentMessagesRealtime chat myUserId cutoffTime st in
  Forall (fun msg => compareSenderId (senderId msg) myUserId = true
                     /\ expiredDeletable cutoffTime msg) res.1
  /\ (getRecentMessagesRealtime chat None cutoffTime st).1 = []
  /\ log res.2 = log st ++ [EvGetMessages chat RECENT_LIMIT].
Proof.
  cbn zeta.
  assert (Hsafe : forall me,
    Forall (fun msg => compareSenderId (senderId msg) me = true
                       /\ expiredDeletable cutoffTime msg)
      (getRecentMessagesRealtime chat me cutoffTime st).1).
  { intros me. unfold getRecentMessagesRealtime. rewrite run_bind.
    destruct (call _ _ st).1 as [|[messages|]]; try constructor.
    now apply recentLoop_safe. }
  split; [apply Hsafe|]. split.
  - specialize (Hsafe None).
    destruct (getRecentMessagesRealtime chat None cutoffTime st).1 as [|msg l];
      [reflexivity|].
    inversion Hsafe as [|? ? [Hs _] _]; subst.
    now destruct (senderId msg).
  - unfold getRecentMessagesRealtime. rewrite run_bind.
    assert (Hcall : log (call (EvGetMessages chat RECENT_LIMIT)
                           (getMessages chat RECENT_LIMIT) st).2
                    = log st ++ [EvGetMessages chat RECENT_LIMIT]).
    { unfold call. now destruct (getMessages chat RECENT_LIMIT (world st)). }
    destruct (call _ _ st).1 as [|[messages|]]; try exact Hcall.
    rewrite <- Hcall. apply emits_none, recentLoop_calls.
Qed.

Lemma searchOlderMessages_spec (chat : Chat) (userId : option Z)
    (userAccessHash cutoffTime todayStartTimestamp : Z) (st : State W) :
  let res := searchOlderMessages chat userId userAccessHash cutoffTime
               todayStartTimestamp st in
  Forall (expiredDeletable cutoffTime) res.1
  /\ exists evs,
       log res.2 = log st ++ evs
       /\ Forall (searchCall chat userId userAccessHash todayStartTimestamp
                    (clock (ticks st) / 1000 - 600)) evs
       /\ (length (List.filter isSearch evs) <= 10)%nat.
Proof.
  cbn zeta. unfold searchOlderMessages. rewrite run_bind.
  cbn [dateNow fst snd]. rewrite run_bind.
  match goal with |- context [searchLoop _ _ _ _ _ ?mx ?o 10 [] ?s] =>
    destruct (searchLoop_spec chat userId userAccessHash cutoffTime
                todayStartTimestamp mx 10 o [] s (List.Forall_nil _))
      as (Hval & evs & Hlog & Hcalls & Hcount)
  end.
  simpl_state.
  destruct (searchLoop _ _ _ _ _ _ _ _ _ _).1 as [|l] eqn:E.
  - split; [constructor|]. exists evs. now repeat split.
  - split; [now apply Hval|]. exists evs. now repeat split.
Qed.

End ScanPasses.

(** X16: the recent pass only returns messages that the local user sent,
    that are deletable and that are older than the cutoff; it returns none
    when the id of the local user is missing.  It reads the newest 200
    messages of the chat and makes no other call. *)
Theorem recent_pass_only_own_expired (W : Type) `{Client W} (chat : Chat)
    (myUserId : option Z) (cutoffTime : Z) (st : State W) :
  let res := getRecentMessagesRealtime chat myUserId cutoffTime st in
  Forall (fun msg => compareSenderId (senderId msg) myUserId = true
                     /\ expiredDeletable cutoffTime msg) res.1
  /\ (getRecentMessagesRealtime chat None cutoffTime st).1 = []
  /\ log res.2 = log st ++ [EvGetMessages chat RECENT_LIMIT].
Proof. apply getRecentMessagesRealtime_spec. Qed.

(** X17: the historical search pass asks for at most 10 pages: every call
    it makes is a search of that chat for the messages of the user, 100
    per page, up to ten minutes before the time it read, or a pause of
    200 ms between pages.  The messages it returns are deletable and older
    than the cutoff. *)
Theorem search_pass_bounded (W : Type) `{Client W} (chat : Chat)
    (userId : option Z) (userAccessHash cutoffTime todayStartTimestamp : Z)
    (st : State W) :
  let res := searchOlderMessages chat userId userAccessHash cutoffTime
               todayStartTimestamp st in
  Forall (expiredDeletable cutoffTime) res.1
  /\ exists evs,
       log res.2 = log st ++ evs
       /\ Forall (searchCall chat userId userAccessHash todayStartTimestamp
                    (clock (ticks st) / 1000 - 600)) evs
       /\ (length (List.filter isSearch evs) <= 10)%nat.
Proof. apply searchOlderMessages_spec. Qed.

(** ** Merging the two passes *)

Section Merge.

Lemma elem_of_map_intro {A B} (f : A -> B) x l : x ∈ l -> f x ∈ map f l.
Proof.
  induction 1; cbn [map]; [apply list_elem_of_here | now apply list_elem_of_further].
Qed.

Lemma mergeById_Forall (P : Message -> Prop) messages seen :
  Forall P messages -> Forall P (mergeById messages seen).
Proof.
  intros HP. revert seen. induction HP as [|msg rest Hm _ IH]; intros seen;
    cbn [mergeById]; [constructor|].
  case_bool_decide; [apply IH | constructor; [exact Hm | apply IH]].
Qed.

Lemma mergeById_spec messages seen :
  let r := mergeById messages seen in
  NoDup (map msg_id r)
  /\ (forall i, i ∈ map msg_id r <-> i ∈ map msg_id messages /\ i ∉ seen)
  /\ r `sublist_of` messages
  /\ (forall m, m ∈ r ->
        exists pre post, messages = pre ++ m :: post
                         /\ msg_id m ∉ map msg_id pre).
Proof.
  cbn zeta. revert seen.
  induction messages as [|msg rest IH]; intros seen; cbn [mergeById map].
  - split; [constructor|]. split; [|split; [constructor|]].
    + intros i. split; [intros Hi; inversion Hi | intros [Hi _]; inversion Hi].
    + intros m Hm. inversion Hm.
  - case_bool_decide as Hseen.
    + destruct (IH seen) as (Hnd & Hids & Hsub & Hfirst).
      split; [exact Hnd|]. split; [|split; [now constructor|]].
      * intros i. rewrite Hids, elem_of_cons. split; [tauto|].
        intros [[-> | Hi] Hn]; [contradiction | tauto].
      * intros m Hm. destruct (Hfirst m Hm) as (pre & post & -> & Hpre).
        exists (msg :: pre), post. split; [reflexivity|].
        cbn [map]. rewrite elem_of_cons. intros [Heq | Hin]; [|contradiction].
        apply (elem_of_map_intro msg_id) in Hm.
        apply Hids in Hm as [_ Hn]. congruence.
    + destruct (IH (msg_id msg :: seen)) as (Hnd & Hids & Hsub & Hfirst).
      split; [|split; [|split; [now constructor|]]].
      * apply NoDup_cons. split; [|exact Hnd]. rewrite Hids, elem_of_cons. tauto.
      * intros i. cbn [map]. rewrite !elem_of_cons, Hids, elem_of_cons.
        destruct (decide (i = msg_id msg)) as [->|Hne]; tauto.
      * intros m Hm. apply elem_of_cons in Hm as [-> | Hm].
        { exists [], rest. split; [reflexivity | cbn; apply not_elem_of_nil]. }
        destruct (Hfirst m Hm) as (pre & post & -> & Hpre).
        exists (msg :: pre), post. split; [reflexivity|].
        cbn [map]. rewrite elem_of_cons. intros [Heq | Hin]; [|contradiction].
        apply (elem_of_map_intro msg_id) in Hm.
        apply Hids in Hm as [_ Hn]. apply Hn. rewrite Heq. apply list_elem_of_here.
Qed.

End Merge.

(** X18: the merge of the two passes keeps one message per id, the first
    in the order recent pass, then search pass: no id occurs twice in the
    result, the ids of the result are exactly the ids of the input, the
    result is a subsequence of the input, and each message kept is the
    first of the input with its id. *)
Theorem mergeById_unique (messages : list Message) :
  let r := mergeById messages [] in
  NoDup (map msg_id r)
  /\ (forall i, i ∈ map msg_id r <-> i ∈ map msg_id messages)
  /\ r `sublist_of` messages
  /\ (forall m, m ∈ r ->
        exists pre post, messages = pre ++ m :: post
                         /\ msg_id m ∉ map msg_id pre).
Proof.
  cbn zeta. destruct (mergeById_spec messages []) as (Hnd & Hids & Hsub & Hfirst).
  split; [exact Hnd|]. split; [|split; [exact Hsub | exact Hfirst]].
  intros i. rewrite Hids. split; [tauto|]. intros Hi. split; [exact Hi|].
  apply not_elem_of_nil.
Qed.

(** ** The scan phase *)

Section ScanPhase.
Context {W : Type} `{Client W}.

Lemma scanCall_mono chats chats' e :
  chats ⊆ chats' -> scanCall chats e -> scanCall chats' e.
Proof.
  intros Hsub. destruct e; cbn; try tauto; intros [Hin Hl]; split; auto.
Qed.

Lemma take_subseteq {A} n (l : list A) : take n l ⊆ l.
Proof.
  revert l. induction n as [|n IH]; intros [|x l]; cbn [take];
    intros y Hy; try (now inversion Hy).
  apply elem_of_cons in Hy as [-> | Hy];
    [apply list_elem_of_here | apply list_elem_of_further, IH, Hy].
Qed.

Lemma drop_subseteq {A} n (l : list A) : drop n l ⊆ l.
Proof.
  revert l. induction n as [|n IH]; intros [|x l]; cbn [drop];
    intros y Hy; try assumption.
  apply list_elem_of_further, IH, Hy.
Qed.

Lemma searchLoop_calls chat uid hash cutoff minDate maxDate pages offsetId older :
  preserves (emits (scanCall [chat]))
    (searchLoop chat uid hash cutoff minDate maxDate offsetId pages older).
Proof.
  revert offsetId older. induction pages as [|n IH]; intros offsetId older;
    cbn [searchLoop]; cbn zeta;
    emits_with ltac:(cbn; first [exact I | split; [apply list_elem_of_here | reflexivity]]).
Qed.

Lemma scanTask_calls chat user cutoff :
  preserves (emits (scanCall [chat])) (scanTask chat user cutoff).
Proof.
  unfold scanTask, getRecentMessagesRealtime, searchOlderMessages.
  emits_with ltac:(cbn; first [exact I | split; [apply list_elem_of_here | reflexivity]]);
    first [apply recentLoop_calls | apply searchLoop_calls].
Qed.

Lemma scanTask_sound chat user cutoff (st : State W) :
  let res := (scanTask chat user cutoff st).1 in
  scan_chat res = chat /\ soundScan cutoff res.
Proof.
  cbn zeta. unfold scanTask. rewrite !run_bind. cbn [mret M_ret fst].
  split; [reflexivity|]. split; cbn [expiredMessages].
  - apply mergeById_Forall, Forall_app. split.
    + eapply Forall_impl; [apply getRecentMessagesRealtime_spec|].
      intros msg [_ Hm]. exact Hm.
    + apply searchOlderMessages_spec.
  - apply mergeById_spec.
Qed.

Lemma scanBatch_calls chats user cutoff :
  preserves (emits (scanCall chats)) (scanBatch chats user cutoff).
Proof.
  induction chats as [|c chats IH]; cbn [scanBatch]; emits_with idtac.
  - eapply emits_weaken; [|apply scanTask_calls].
    intros e. apply scanCall_mono, sub_single.
  - eapply emits_weaken; [|exact IH].
    intros e. apply scanCall_mono, sub_further.
Qed.

Lemma scanBatch_sound chats user cutoff (st : State W) :
  let rs := (scanBatch chats user cutoff st).1 in
  map scan_chat rs = chats /\ Forall (soundScan cutoff) rs.
Proof.
  cbn zeta. revert st. induction chats as [|c chats IH]; intros st;
    cbn [scanBatch]; [split; [reflexivity | constructor]|].
  rewrite !run_bind. cbn [mret M_ret fst map].
  destruct (scanTask_sound c user cutoff st) as [Hc Hs].
  destruct (IH (scanTask c user cutoff st).2) as [Hm Hf].
  split; [now rewrite Hc, Hm | now constructor].
Qed.

Lemma runInBatches_calls chats user cutoff conc fuel acc :
  preserves (emits (scanCall chats))
    (runInBatches chats user cutoff conc fuel acc).
Proof.
  revert chats acc. induction fuel as [|fuel IH]; intros chats acc;
    destruct chats as [|c chats]; cbn [runInBatches]; try solve [emits_with idtac].
  apply preserves_bind; [typeclasses eauto | |].
  - eapply emits_weaken; [|apply scanBatch_calls].
    intros e. apply scanCall_mono, take_subseteq.
  - intros rs. eapply emits_weaken; [|apply IH].
    intros e. apply scanCall_mono, drop_subseteq.
Qed.

Lemma runInBatches_sound chats user cutoff conc fuel acc (st : State W) :
  (1 <= conc)%nat -> (length chats <= fuel)%nat ->
  Forall (soundScan cutoff) acc ->
  let rs := (runInBatches chats user cutoff conc fuel acc st).1 in
  map scan_chat rs = map scan_chat acc ++ chats
  /\ Forall (soundScan cutoff) rs.
Proof.
  intros Hconc. cbn zeta. revert chats acc st.
  induction fuel as [|fuel IH]; intros chats acc st Hfuel Hacc.
  - destruct chats; [|cbn in Hfuel; lia]. cbn. now rewrite app_nil_r.
  - destruct chats as [|c chats]; [cbn; now rewrite app_nil_r|].
    cbn [runInBatches]. rewrite run_bind.
    destruct (scanBatch_sound (take conc (c :: chats)) user cutoff st) as [Hm Hs].
    match goal with |- context [runInBatches ?cs _ _ _ fuel ?a ?s] =>
      destruct (IH cs a s) as [Hm' Hs'] end.
    + rewrite length_drop. cbn [length] in *. lia.
    + apply Forall_app. now split.
    + split; [|exact Hs'].
      rewrite Hm', map_app, Hm, <- app_assoc, take_drop. reflexivity.
Qed.

End ScanPhase.

(** X19: the scan of a list of chats, in slices of [concurrency] chats
    (at least one), returns one result per chat (here, where the tasks of
    a slice run one after the other, in the order of the list); the
    messages of a result are deletable and older than the cutoff, and no id
    occurs twice among them.  The scan itself only reads and searches, in
    these chats: it deletes nothing. *)
Theorem scan_covers_every_chat (W : Type) `{Client W} (chats : list Chat)
    (fullUser : User) (cutoffTime : Z) (concurrency : nat) (st : State W) :
  (1 <= concurrency)%nat ->
  let res := runInBatches chats fullUser cutoffTime concurrency (length chats)
               [] st in
  Permutation (map scan_chat res.1) chats
  /\ Forall (soundScan cutoffTime) res.1
  /\ emits (scanCall chats) st res.2.
Proof.
  intros Hc. cbn zeta.
  destruct (runInBatches_sound chats fullUser cutoffTime concurrency
              (length chats) [] st Hc (le_n _) (List.Forall_nil _)) as [Hm Hs].
  split; [now rewrite Hm|]. split; [exact Hs | apply runInBatches_calls].
Qed.

(** X19 on two chats scanned one at a time: one result per chat. *)
Lemma scan_covers_every_chat_witness :
  let client := liveClient [] [] 1700000000000 in
  let otherChat := {| className := ClsChannel; broadcast := false; chat_id := 78 |} in
  let res := @runInBatches unit client [someChat; otherChat] localUser
               1699999400 1 2 [] (initialState tt) in
  Permutation (map scan_chat res.1) [someChat; otherChat]
  /\ Forall (soundScan 1699999400) res.1
  /\ emits (scanCall [someChat; otherChat]) (initialState tt) res.2.
Proof.
  exact (@scan_covers_every_chat unit (liveClient [] [] 1700000000000)
           [someChat; {| className := ClsChannel; broadcast := false; chat_id := 78 |}]
           localUser 1699999400 1 (initialState tt) (le_n 1)).
Defined.

(** ** The delete phase *)

Section DeletePhase.
Context {W : Type} `{Client W}.

Lemma deleteOneByOne_calls chat ids all size d f :
  ids ⊆ all -> (1 <= size)%nat ->
  preserves (emits (chatDeleteCall chat all size)) (deleteOneByOne chat ids d f).
Proof.
  intros Hsub Hsize. revert d f.
  induction ids as [|id ids IH]; intros d f; cbn [deleteOneByOne];
    [emits_with idtac|].
  assert (Hrest : ids ⊆ all)
    by (intros x Hx; now apply Hsub, list_elem_of_further).
  apply preserves_bind; [typeclasses eauto | |].
  - apply emits_call. cbn. split; [reflexivity|]. split; [|cbn; lia].
    intros x Hx. apply list_elem_of_singleton in Hx as ->.
    apply Hsub, list_elem_of_here.
  - intros ok. apply preserves_bind; [typeclasses eauto | now apply emits_sleep |].
    intros _. destruct ok; now apply IH.
Qed.

Lemma safeDeleteMessages_calls chat ids all size :
  ids ⊆ all -> (length ids <= size)%nat ->
  preserves (emits (chatDeleteCall chat all size)) (safeDeleteMessages chat ids).
Proof.
  intros Hsub Hlen. unfold safeDeleteMessages.
  apply preserves_bind; [typeclasses eauto | now apply emits_call |].
  intros ok. destruct ok; [emits_with idtac|].
  destruct ids as [|id ids]; [cbn [deleteOneByOne]; emits_with idtac|].
  apply deleteOneByOne_calls; [exact Hsub | cbn [length] in Hlen; lia].
Qed.

Lemma deleteInBatches_calls chat size fuel ids all acc :
  ids ⊆ all ->
  preserves (emits (chatDeleteCall chat all size))
    (deleteInBatches chat ids size fuel acc).
Proof.
  revert ids acc. induction fuel as [|fuel IH]; intros ids acc Hsub;
    destruct ids as [|id ids]; cbn [deleteInBatches]; try solve [emits_with idtac].
  apply preserves_bind; [typeclasses eauto | |].
  - apply safeDeleteMessages_calls.
    + intros x Hx. now apply Hsub, (take_subseteq size).
    + rewrite length_take. lia.
  - intros r. apply preserves_bind; [typeclasses eauto | now apply emits_sleep |].
    intros _. apply IH. intros x Hx. now apply Hsub, (drop_subseteq size).
Qed.

Lemma deletePhase_calls results size total :
  preserves (emits (deleteCall results size)) (deletePhase results size total).
Proof.
  revert total. induction results as [|res rest IH]; intros total;
    cbn [deletePhase]; [emits_with idtac|].
  assert (Hrest : forall t, preserves (emits (deleteCall (res :: rest) size))
                              (deletePhase rest size t)).
  { intros t. eapply emits_weaken; [|apply IH].
    intros [] He; cbn in *; try tauto.
    destruct He as (r & Hr & He). exists r. split; [|exact He].
    now apply list_elem_of_further. }
  destruct (expiredMessages res) as [|m ms] eqn:Em; [apply Hrest|].
  apply preserves_bind; [typeclasses eauto | | intros r; apply Hrest].
  eapply emits_weaken;
    [|apply (deleteInBatches_calls (scan_chat res) size _ _
               (map msg_id (m :: ms))); reflexivity].
  intros [] He; cbn in *; try tauto.
  destruct He as (-> & Hl & Hn). exists res.
  split; [apply list_elem_of_here|]. rewrite Em. now repeat split.
Qed.

Lemma safeDeleteMessages_counts chat ids (st : State W) :
  let r := (safeDeleteMessages chat ids st).1 in
  deleted r + failed r = Z.of_nat (length ids) /\ 0 <= deleted r /\ 0 <= failed r.
Proof.
  cbn zeta. unfold safeDeleteMessages. rewrite run_bind.
  destruct (call _ _ st).1; [cbn; lia|].
  destruct (deleteOneByOne_spec chat ids 0 0 (call (EvDeleteMessages chat ids)
              (deleteMessages chat ids) st).2) as (Hd & Hf & _).
  cbn zeta in Hd, Hf. rewrite Hd, Hf.
  match goal with |- context [countb true ?l] =>
    pose proof (countb_total l) as Ht;
    assert (Hlen : length l = length ids)
  end.
  { clear. generalize (world (call (EvDeleteMessages chat ids)
                                (deleteMessages chat ids) st).2).
    induction ids as [|id ids IH]; intros w; cbn [singleDeleteOutcomes];
      [reflexivity|].
    destruct (deleteMessages chat [id] w). cbn [length]. now rewrite IH. }
  unfold countb in *. lia.
Qed.

Lemma deleteInBatches_counts chat size fuel ids acc (st : State W) :
  (1 <= size)%nat -> (length ids <= fuel)%nat ->
  let r := (deleteInBatches chat ids size fuel acc st).1 in
  deleted r + failed r = deleted acc + failed acc + Z.of_nat (length ids)
  /\ deleted acc <= deleted r /\ failed acc <= failed r.
Proof.
  intros Hsize. cbn zeta. revert ids acc st.
  induction fuel as [|fuel IH]; intros ids acc st Hfuel.
  - destruct ids; [|cbn in Hfuel; lia]. cbn. lia.
  - destruct ids as [|id ids]; [cbn; lia|].
    cbn [deleteInBatches]. rewrite !run_bind. cbn [sleep fst snd].
    pose proof (safeDeleteMessages_counts chat (take size (id :: ids)) st)
      as (Hsum & Hd & Hf). cbn zeta in Hsum.
    match goal with |- context [deleteInBatches chat ?l size fuel ?a ?s] =>
      destruct (IH l a s) as (Hsum' & Hd' & Hf') end.
    + rewrite length_drop. cbn [length] in *. lia.
    + cbn [deleted failed] in *. rewrite length_take in Hsum.
      rewrite length_drop in Hsum'. lia.
Qed.

Lemma deletePhase_counts results size total (st : State W) :
  (1 <= size)%nat ->
  let r := (deletePhase results size total st).1 in
  deleted r + failed r
  = deleted total + failed total
    + Z.of_nat (length (flat_map expiredMessages results))
  /\ deleted total <= deleted r /\ failed total <= failed r.
Proof.
  intros Hsize. cbn zeta. revert total st.
  induction results as [|res rest IH]; intros total st;
    cbn [deletePhase flat_map]; [cbn; lia|].
  destruct (expiredMessages res) as [|m ms] eqn:Em; [apply IH|].
  rewrite run_bind.
  pose proof (deleteInBatches_counts (scan_chat res) size
                (length (map msg_id (m :: ms))) (map msg_id (m :: ms))
                {| deleted := 0; failed := 0 |} st Hsize (le_n _))
    as (Hsum & Hd & Hf). cbn zeta in Hsum.
  match goal with |- context [deletePhase rest size ?t ?s] =>
    destruct (IH t s) as (Hsum' & Hd' & Hf') end.
  cbn [deleted failed] in *.
  pose proof (length_map msg_id (m :: ms)) as Hlen.
  rewrite length_app. lia.
Qed.

End DeletePhase.

(** X20: the delete phase only deletes what the scan found: every call it
    makes is a pause or a deletion, in the chat of a scan result, of ids of
    messages of that result, at most [batchSize] ids per call (one id per
    call in the fallback). *)
Theorem delete_phase_only_scanned (W : Type) `{Client W}
    (scanResults : list ScanResult) (batchSize : nat) (total : DeleteResult)
    (st : State W) :
  emits (deleteCall scanResults batchSize) st
    (deletePhase scanResults batchSize total st).2.
Proof. apply deletePhase_calls. Qed.

(** X21: the delete phase accounts for every scanned message: with a batch
    size of at least one, the numbers it reports as deleted and as failed
    add up to the number of messages of the scan results, whatever calls
    fail. *)
Theorem delete_phase_accounts_all (W : Type) `{Client W}
    (scanResults : list ScanResult) (batchSize : nat) (st : State W) :
  (1 <= batchSize)%nat ->
  let r := (deletePhase scanResults batchSize {| deleted := 0; failed := 0 |} st).1 in
  deleted r + failed r = Z.of_nat (length (flat_map expiredMessages scanResults))
  /\ 0 <= deleted r /\ 0 <= failed r.
Proof.
  intros Hsize. cbn zeta.
  destruct (deletePhase_counts scanResults batchSize
              {| deleted := 0; failed := 0 |} st Hsize) as (Hsum & Hd & Hf).
  cbn [deleted failed] in *. lia.
Qed.

(** X21 on five messages in batches of two, when the bulk calls fail and
    so do the single deletes of ids 2 and 4. *)
Lemma delete_phase_accounts_all_witness :
  let client := testClient flakyDelete [] (fun n => Z.of_nat n) in
  let found := {| scan_chat := someChat;
                  expiredMessages := map ownTextAt [1; 2; 3; 4; 5] |} in
  let r := (@deletePhase unit client [found] 2 {| deleted := 0; failed := 0 |}
              (initialState tt)).1 in
  deleted r + failed r = 5 /\ 0 <= deleted r /\ 0 <= failed r.
Proof.
  exact (@delete_phase_accounts_all unit (testClient flakyDelete [] (fun n => Z.of_nat n))
           [{| scan_chat := someChat;
               expiredMessages := map ownTextAt [1; 2; 3; 4; 5] |}]
           2 (initialState tt) (le_S _ _ (le_n 1))).
Defined.

(** ** A whole run of the expiry sweep *)

Section SweepRun.
Context {W : Type} `{Client W}.

Lemma groupDialogs_accepted nm (dialogs : list Dialog) (chat : Chat) :
  chat ∈ omap (fun d => if isGroupDialog nm d then entity d else None) dialogs ->
  isGroupDialog nm {| entity := Some chat |} = true.
Proof.
  intros Hin. apply list_elem_of_omap in Hin as ([e] & _ & Hd).
  destruct (isGroupDialog nm {| entity := e |}) eqn:Eg; [|discriminate].
  cbn [entity] in Hd. now subst e.
Qed.

(** X22: a whole run of [deleteExpiredMessages] reads, searches and
    deletes only in chats that its dialog filter accepts (groups and
    supergroups whose normalized id is not empty and not on the exclusion
    list: never a user, never a broadcast channel), deletes at most
    [DELETE_BATCH_SIZE] ids per call, sends nothing, and leaves the dedup
    map as it was. *)
Theorem expiry_run_only_group_dialogs (env : ProcessEnv) (st : State W) :
  let res := deleteExpiredMessages env st in
  emits (sweepCall env) st res.2
  /\ processedMessages res.2 = processedMessages st.
Proof.
  split; [|apply deleteExpiredMessages_quiet]. revert st.
  change (preserves (emits (sweepCall env)) (deleteExpiredMessages env)).
  unfold deleteExpiredMessages. cbn zeta.
  destruct (_ <=? 0); [emits_with idtac|].
  apply preserves_bind; [typeclasses eauto | now apply emits_call | intros me].
  destruct me as [|[[[myId|] hash]|]]; try solve [emits_with idtac].
  apply preserves_bind; [typeclasses eauto | now apply emits_call | intros user].
  destruct user as [|[fullUser|]]; try solve [emits_with idtac].
  apply preserves_bind; [typeclasses eauto | apply emits_dateNow | intros now].
  apply preserves_bind; [typeclasses eauto | now apply emits_call | intros dialogs].
  destruct dialogs as [|dialogs]; [emits_with idtac|].
  pose proof (groupDialogs_accepted
                (parseChatIds (env_NOT_MONITOR_CHAT_IDS env) false) dialogs)
    as Hgroup.
  fold (DELETE_BATCH_SIZE env).
  remember (omap _ dialogs) as groupDialogs eqn:Eg. clear Eg.
  destruct groupDialogs as [|g gs]; [emits_with idtac|].
  set (groupDialogs := g :: gs) in *.
  apply (preserves_bind_with _ (fun rs => map scan_chat rs = groupDialogs)).
  - eapply emits_weaken; [|apply runInBatches_calls].
    intros [] He; cbn in *; try tauto; apply Hgroup, He.
  - intros st. apply (runInBatches_sound groupDialogs); [lia | lia | constructor].
  - intros rs Hrs.
    apply preserves_bind; [typeclasses eauto | | intros r; emits_with idtac].
    eapply emits_weaken; [|apply deletePhase_calls].
    intros [] He; cbn in *; try tauto.
    destruct He as (res & Hres & -> & _ & Hlen). split; [|exact Hlen].
    apply Hgroup. rewrite <- Hrs. now apply elem_of_map_intro.
Qed.

End SweepRun.

(** ** The text of a notification *)

Section Escaping.

Lemma replaceAll_app c b s t :
  replaceAll c b (s ++ t) = replaceAll c b s ++ replaceAll c b t.
Proof.
  induction s as [|x s IH]; cbn [replaceAll app]; [reflexivity|].
  now rewrite IH, app_assoc.
Qed.

Lemma escape_block x :
  replaceAll 39 (u "&#039;")
    (replaceAll 34 (u "&quot;")
       (replaceAll 62 (u "&gt;")
          (replaceAll 60 (u "&lt;")
             (replaceAll 38 (u "&amp;") [x]))))
  = htmlEntity x.
Proof.
  unfold htmlEntity. cbn [replaceAll].
  destruct (x =? 38)%N eqn:E38; [reflexivity|]. cbn [app replaceAll].
  destruct (x =? 60)%N eqn:E60; [reflexivity|]. cbn [app replaceAll].
  destruct (x =? 62)%N eqn:E62; [reflexivity|]. cbn [app replaceAll].
  destruct (x =? 34)%N eqn:E34; [reflexivity|]. cbn [app replaceAll].
  now destruct (x =? 39)%N.
Qed.

Lemma escape_chain t :
  replaceAll 39 (u "&#039;")
    (replaceAll 34 (u "&quot;")
       (replaceAll 62 (u "&gt;")
          (replaceAll 60 (u "&lt;")
             (replaceAll 38 (u "&amp;") t))))
  = flat_map htmlEntity t.
Proof.
  induction t as [|x t IH]; [reflexivity|].
  change (x :: t) with ([x] ++ t).
  rewrite !replaceAll_app, IH, escape_block. reflexivity.
Qed.

Lemma escapeHtml_flat_map t : escapeHtml t = flat_map htmlEntity t.
Proof. unfold escapeHtml. destruct t; [reflexivity | apply escape_chain]. Qed.

(** The six forms of [htmlEntity]. *)
Lemma htmlEntity_cases x :
  (x = 38%N /\ htmlEntity x = u "&amp;")
  \/ (x = 60%N /\ htmlEntity x = u "&lt;")
  \/ (x = 62%N /\ htmlEntity x = u "&gt;")
  \/ (x = 34%N /\ htmlEntity x = u "&quot;")
  \/ (x = 39%N /\ htmlEntity x = u "&#039;")
  \/ ((x <> 38 /\ x <> 60 /\ x <> 62 /\ x <> 34 /\ x <> 39)%N
      /\ htmlEntity x = [x]).
Proof.
  unfold htmlEntity.
  destruct (N.eqb_spec x 38); [now left|].
  destruct (N.eqb_spec x 60); [now right; left|].
  destruct (N.eqb_spec x 62); [now right; right; left|].
  destruct (N.eqb_spec x 34); [now right; right; right; left|].
  destruct (N.eqb_spec x 39); [now right; right; right; right; left|].
  now right; right; right; right; right.
Qed.

Lemma flat_map_htmlEntity_inj a b :
  flat_map htmlEntity a = flat_map htmlEntity b -> a = b.
Proof.
  revert b. induction a as [|x a IH]; intros [|y b]; cbn [flat_map]; intros Heq.
  - reflexivity.
  - destruct (htmlEntity_cases y) as [[_ E]|[[_ E]|[[_ E]|[[_ E]|[[_ E]|[_ E]]]]]];
      rewrite E in Heq; discriminate Heq.
  - destruct (htmlEntity_cases x) as [[_ E]|[[_ E]|[[_ E]|[[_ E]|[[_ E]|[_ E]]]]]];
      rewrite E in Heq; discriminate Heq.
  - destruct (htmlEntity_cases x) as [[Hx E]|[[Hx E]|[[Hx E]|[[Hx E]|[[Hx E]|[Hx E]]]]]];
      destruct (htmlEntity_cases y) as [[Hy F]|[[Hy F]|[[Hy F]|[[Hy F]|[[Hy F]|[Hy F]]]]]];
      rewrite E, F in Heq; cbn [app u map list_ascii_of_string N_of_ascii] in Heq;
      try discriminate Heq;
      try (injection Heq as Heq; subst; f_equal; now apply IH);
      try (injection Heq as Hh Heq; subst; exfalso; tauto);
      try (injection Heq as Hh Heq; subst; f_equal; now apply IH).
Qed.

Lemma startsWith_app p r b : startsWith p r = true -> startsWith p (r ++ b) = true.
Proof.
  intros Hp. apply startsWith_spec in Hp as [post ->].
  apply startsWith_spec. exists (post ++ b). now rewrite app_assoc.
Qed.

Lemma wellFormed_app a b :
  wellFormed a = true -> wellFormed b = true -> wellFormed (a ++ b) = true.
Proof.
  intros Ha Hb. induction a as [|c a IH]; [exact Hb|].
  cbn [wellFormed app] in *. apply andb_true_iff in Ha as [Hc Ha].
  apply andb_true_iff. split; [|now apply IH].
  destruct (c =? 60)%N.
  - repeat (apply orb_true_iff in Hc as [Hc|Hc]);
      rewrite (startsWith_app _ _ b Hc), ?orb_true_r; reflexivity.
  - destruct (c =? 38)%N; [|reflexivity].
    repeat (apply orb_true_iff in Hc as [Hc|Hc]);
      rewrite (startsWith_app _ _ b Hc), ?orb_true_r; reflexivity.
Qed.

Lemma wellFormed_plain s :
  Forall (fun c => c <> 60%N /\ c <> 38%N) s -> wellFormed s = true.
Proof.
  induction 1 as [|c s [H60 H38] _ IH]; [reflexivity|]. cbn [wellFormed].
  rewrite (proj2 (N.eqb_neq c 60) H60), (proj2 (N.eqb_neq c 38) H38). exact IH.
Qed.

Lemma wellFormed_escape t : wellFormed (escapeHtml t) = true.
Proof.
  rewrite escapeHtml_flat_map. induction t as [|x t IH]; [reflexivity|].
  cbn [flat_map]. apply wellFormed_app; [|exact IH].
  destruct (htmlEntity_cases x) as [[_ E]|[[_ E]|[[_ E]|[[_ E]|[[_ E]|[Hx E]]]]]];
    rewrite E; try reflexivity.
  apply wellFormed_plain. constructor; [tauto | constructor].
Qed.

Lemma numToString_plain z : Forall (fun c => c <> 60%N /\ c <> 38%N) (numToString z).
Proof.
  assert (Hd : forall d, Forall (fun c => c <> 60%N /\ c <> 38%N) (uintDigits d)).
  { intros d. eapply Forall_impl; [apply uintDigits_digits|].
    intros c Hc. unfold isDigit, inRange in Hc.
    apply andb_true_iff in Hc as [H1 H2]. apply N.leb_le in H1, H2. lia. }
  unfold numToString. destruct (Z.to_int z); [apply Hd|].
  constructor; [lia | apply Hd].
Qed.

Lemma wellFormed_prizes ps : wellFormed (flat_map prizeLine ps) = true.
Proof.
  induction ps as [|p ps IH]; [reflexivity|]. cbn [flat_map].
  apply wellFormed_app; [|exact IH]. unfold prizeLine.
  repeat apply wellFormed_app;
    first [reflexivity | apply wellFormed_escape
          | apply wellFormed_plain, numToString_plain].
Qed.

End Escaping.

(** X23: [escapeHtml] acts as one pass over the text that replaces each of
    the five characters by its entity (the [&] of an entity written for an
    earlier character is not escaped again, as [&] is replaced first).  Its
    output holds no angle bracket and no quote, every [&] in it begins an
    entity, and it loses nothing: two texts with the same escaped form are
    the same text. *)
Theorem escapeHtml_one_pass (text : jsstring) :
  escapeHtml text = flat_map htmlEntity text
  /\ Forall (fun c => c <> 60 /\ c <> 62 /\ c <> 34 /\ c <> 39)%N (escapeHtml text)
  /\ wellFormed (escapeHtml text) = true
  /\ (forall other, escapeHtml text = escapeHtml other -> text = other).
Proof.
  split; [apply escapeHtml_flat_map|].
  split; [|split; [apply wellFormed_escape|]].
  - rewrite escapeHtml_flat_map. induction text as [|x t IH]; [constructor|].
    cbn [flat_map]. apply Forall_app. split; [|exact IH].
    destruct (htmlEntity_cases x) as [[_ E]|[[_ E]|[[_ E]|[[_ E]|[[_ E]|[Hx E]]]]]];
      rewrite E; try (vm_compute; repeat constructor; discriminate).
    constructor; [cbv beta; tauto | constructor].
  - intros other. rewrite !escapeHtml_flat_map. apply flat_map_htmlEntity_inj.
Qed.

(** X23 on a text with markup. *)
Lemma escapeHtml_one_pass_witness :
  escapeHtml (u "<b>&amp;</b>") = u "&lt;b&gt;&amp;amp;&lt;/b&gt;"
  /\ u "<b>&amp;</b>" = u "<b>&amp;</b>".
Proof.
  destruct (escapeHtml_one_pass (u "<b>&amp;</b>")) as (Hpass & _ & _ & Hinj).
  split; [rewrite Hpass; reflexivity | exact (Hinj (u "<b>&amp;</b>") eq_refl)].
Defined.

(** X24: the text of a notification is well-formed markup whatever the
    title of the chat, the text of the message and the fields of the
    lottery are: every [<] in it opens one of the tags of the layout and
    every [&] an entity.  The plain layout shows the text alone (neither
    the chat nor the message id), and the lottery layout does not show the
    text. *)
Theorem notification_markup_well_formed (chatTitle chatId : jsstring) (fromId : Z)
    (lotteryInfo : option LotteryInfo) (displayText : jsstring) :
  wellFormed (buildFormattedMessage chatTitle chatId fromId lotteryInfo displayText)
  = true
  /\ (forall title id from,
        buildFormattedMessage title id from None displayText
        = buildFormattedMessage chatTitle chatId fromId None displayText)
  /\ (forall info txt,
        buildFormattedMessage chatTitle chatId fromId (Some info) txt
        = buildFormattedMessage chatTitle chatId fromId (Some info) displayText).
Proof.
  split; [|split; reflexivity].
  unfold buildFormattedMessage. cbn zeta.
  destruct lotteryInfo as [info|].
  - destruct (creator info), (createTime info), (autoOpenCount info),
      (keyword info), (prizes info) as [|p ps];
      repeat apply wellFormed_app;
      first [reflexivity | apply wellFormed_escape
            | apply wellFormed_plain, numToString_plain
            | apply wellFormed_prizes ].
  - apply wellFormed_app; [reflexivity | apply wellFormed_escape].
Qed.

(** ** The purge script *)

Section FloodWait.

Lemma matchFloodWait_skip pre s :
  Forall (fun c => c <> 70%N) pre -> matchFloodWait (pre ++ s) = matchFloodWait s.
Proof.
  induction 1 as [|c pre Hc _ IH]; [reflexivity|].
  cbn [app matchFloodWait].
  replace (startsWith (u "FLOOD_WAIT_") (c :: pre ++ s)) with false; [exact IH|].
  change (u "FLOOD_WAIT_") with (70%N :: u "LOOD_WAIT_"). cbn [startsWith].
  now rewrite (proj2 (N.eqb_neq 70 c)) by congruence.
Qed.

Lemma takeWhile_app_stop p ds post :
  Forall (fun c => p c = true) ds ->
  match post with c :: _ => p c = false | [] => True end ->
  takeWhile p (ds ++ post) = ds.
Proof.
  intros Hds Hpost. induction Hds as [|c ds Hc _ IH]; cbn [app takeWhile].
  - destruct post as [|c post]; [reflexivity | cbn [takeWhile]; now rewrite Hpost].
  - now rewrite Hc, IH.
Qed.

Lemma matchFloodWait_here ds post :
  ds <> [] -> Forall (fun c => isDigit c = true) ds ->
  match post with c :: _ => isDigit c = false | [] => True end ->
  matchFloodWait (u "FLOOD_WAIT_" ++ ds ++ post) = Some ds.
Proof.
  intros Hne Hds Hpost.
  change (u "FLOOD_WAIT_" ++ ds ++ post)
    with (70%N :: u "LOOD_WAIT_" ++ ds ++ post).
  cbn [matchFloodWait].
  replace (startsWith (u "FLOOD_WAIT_") (70%N :: u "LOOD_WAIT_" ++ ds ++ post))
    with true by (symmetry; apply startsWith_spec; now exists (ds ++ post)).
  change (drop 11 (70%N :: u "LOOD_WAIT_" ++ ds ++ post)) with (ds ++ post).
  rewrite takeWhile_app_stop by assumption.
  destruct ds; [contradiction | reflexivity].
Qed.

Lemma numToString_nonneg n :
  0 <= n ->
  numToString n <> [] /\ Forall (fun c => isDigit c = true) (numToString n).
Proof.
  intros Hn. destruct n as [|p|p]; [split; [discriminate | repeat constructor] | | lia].
  unfold numToString. cbn [Z.to_int]. split.
  - apply uintDigits_nonempty, DecimalPos.Unsigned.to_uint_nonnil.
  - apply uintDigits_digits.
Qed.

Lemma numToString_inj a b : numToString a = numToString b -> a = b.
Proof.
  intros Heq. pose proof (parseInt_numToString a) as Ha.
  rewrite Heq, parseInt_numToString in Ha. congruence.
Qed.

Lemma floodWaitSeconds_reads pre post n :
  0 <= n -> Forall (fun c => c <> 70%N) pre ->
  match post with c :: _ => isDigit c = false | [] => True end ->
  floodWaitSeconds (Some (pre ++ u "FLOOD_WAIT_" ++ numToString n ++ post)) = Some n.
Proof.
  intros Hn Hpre Hpost. destruct (numToString_nonneg n Hn) as [Hne Hd].
  unfold floodWaitSeconds.
  replace (includes _ (u "FLOOD_WAIT")) with true.
  - rewrite matchFloodWait_skip, matchFloodWait_here by assumption.
    now rewrite parseInt_numToString.
  - symmetry. apply includes_spec.
    exists pre, (u "_" ++ numToString n ++ post). reflexivity.
Qed.

End FloodWait.

Section PurgeCalls.
Context {W : Type} `{Client W} `{Session W}.

Lemma emits_thrownMessage P : preserves (emits P) thrownMessage.
Proof. now apply emits_silent. Qed.

Lemma emits_perform P {A} (op : W -> A * W) : preserves (emits P) (perform op).
Proof.
  apply emits_silent. intros st. unfold perform. now destruct (op (world st)).
Qed.

(** As its callers use it, without [retries]: one pause, then [true]. *)
Lemma handleFloodWait_zero message (st : State W) :
  handleFloodWait message 0 st
  = (true,
     {| world := world st; ticks := ticks st;
        log := log st ++ [EvSleep (match floodWaitSeconds message with
                                   | Some waitSeconds => waitSeconds * 1000
                                   | None => 1000
                                   end)];
        processedMessages := processedMessages st;
        sentNotificationMessages := sentNotificationMessages st |}).
Proof. unfold handleFloodWait. now destruct (floodWaitSeconds message). Qed.

Lemma handleFloodWait_calls P message retries :
  (forall ms, P (EvSleep ms)) ->
  preserves (W:=W) (emits P) (handleFloodWait message retries).
Proof.
  intros HP. unfold handleFloodWait. emits_with ltac:(apply HP).
Qed.

End PurgeCalls.

#[export] Hint Resolve emits_thrownMessage emits_perform : frame.

(** X25: [handleFloodWait] as every caller uses it, without [retries]: it
    always answers that the operation is to be tried again, after exactly
    one pause, of the seconds a flood-wait error names or of one second for
    any other error; the answer is [false] only with [retries] of 3 or
    more and no flood-wait error, which no caller reaches.  For an error
    whose message holds [FLOOD_WAIT_] followed by a number, the pause is
    that number of seconds. *)
Theorem handleFloodWait_never_gives_up (W : Type) (pre post : jsstring) (n : Z) (message : option jsstring) (st : State W) :
  0 <= n -> Forall (fun c => c <> 70%N) pre ->
  match post with c :: _ => isDigit c = false | [] => True end ->
  let flood := Some (pre ++ u "FLOOD_WAIT_" ++ numToString n ++ post) in
  (handleFloodWait message 0 st).1 = true
  /\ log (handleFloodWait message 0 st).2
     = log st ++ [EvSleep (match floodWaitSeconds message with
                           | Some waitSeconds => waitSeconds * 1000
                           | None => 1000
                           end)]
  /\ floodWaitSeconds flood = Some n
  /\ (forall retries, (handleFloodWait flood retries st).1 = true)
  /\ (forall retries,
        (handleFloodWait message retries st).1
        = match floodWaitSeconds message with
          | Some _ => true
          | None => retries <? 3
          end).
Proof.
  intros Hn Hpre Hpost flood. rewrite handleFloodWait_zero.
  split; [reflexivity|]. split; [reflexivity|].
  assert (Hflood : floodWaitSeconds flood = Some n)
    by now apply floodWaitSeconds_reads.
  split; [exact Hflood|]. split.
  - intros retries. unfold handleFloodWait. now rewrite Hflood.
  - intros retries. unfold handleFloodWait.
    destruct (floodWaitSeconds message); [reflexivity|].
    now destruct (retries <? 3).
Qed.

(** X25 on the message of a flood wait of 30 seconds. *)
Lemma handleFloodWait_never_gives_up_witness :
  let res := @handleFloodWait unit (Some floodWaitMessage) 0 (initialState tt) in
  res.1 = true /\ log res.2 = [EvSleep 30000].
Proof.
  destruct (@handleFloodWait_never_gives_up unit (u "420: ")
              (u " (caused by messages.DeleteMessages)") 30
              (Some floodWaitMessage) (initialState tt))
    as (Hr & Hl & _).
  - lia.
  - repeat constructor; discriminate.
  - reflexivity.
  - split; [exact Hr | exact Hl].
Defined.

Section PurgeFetch.
Context {W : Type} `{Client W} `{Session W}.

Lemma validMessages_own batch currentUserId valid :
  validMessages batch currentUserId = Some valid ->
  Forall (ownDeletable currentUserId) valid.
Proof.
  unfold validMessages. destruct currentUserId as [uid|].
  - intros [= <-]. apply Forall_forall. intros m Hm.
    apply list_elem_of_omap in Hm as ([msg|] & _ & Hf); [|discriminate].
    destruct (msg_id msg =? 0) eqn:Eid; [discriminate|].
    destruct (fromId msg) as [|id|] eqn:Efrom; try discriminate.
    destruct (strEq (numToString id) (numToString uid)) eqn:Eu; [|discriminate].
    match type of Hf with (if ?c then _ else _) = _ =>
      destruct c eqn:Ed end; [|discriminate].
    injection Hf as <-. apply strEq_true, numToString_inj in Eu. subst id.
    split; [now apply Z.eqb_neq|]. split; [now exists uid | exact Ed].
  - destruct (existsb _ batch); [intros [=]|]. intros [= <-]. constructor.
Qed.

Lemma fetchPages_spec pagesLeft chat uid hash offsetId messages (st : State W) :
  Forall (ownDeletable uid) messages ->
  let res := fetchPages pagesLeft chat uid hash offsetId messages st in
  Forall (ownDeletable uid) res.1.1
  /\ exists evs,
       log res.2 = log st ++ evs
       /\ Forall (fetchCall chat uid hash) evs
       /\ (length (List.filter isSearch evs) <= pagesLeft)%nat.
Proof.
  cbn zeta. revert offsetId messages st.
  induction pagesLeft as [|n IH]; intros offsetId messages st Hacc.
  - cbn. split; [exact Hacc|]. exists [].
    rewrite app_nil_r. repeat split; [constructor | cbn; lia].
  - cbn [fetchPages]. cbn zeta. unfold thrownMessage. unfold_M.
    match goal with |- context [searchMessages ?q (world st)] =>
      set (query := q);
      assert (Hq : fetchCall chat uid hash (EvSearch query)) by (cbn; tauto);
      destruct (searchMessages query (world st)) as [[|batch] w'] eqn:Eq
    end.
    + split; [exact Hacc|]. exists [EvSearch query]. simpl_state.
      repeat split; [now repeat constructor | cbn; lia].
    + destruct batch as [|m0 ms].
      * split; [exact Hacc|]. exists [EvSearch query]. simpl_state.
        repeat split; [now repeat constructor | cbn; lia].
      * destruct (validMessages (m0 :: ms) uid) as [valid|] eqn:Ev.
        2:{ split; [exact Hacc|]. exists [EvSearch query]. simpl_state.
            repeat split; [now repeat constructor | cbn; lia]. }
        assert (Hnew : Forall (ownDeletable uid) (messages ++ valid))
          by (apply Forall_app; split;
              [exact Hacc | now apply (validMessages_own (m0 :: ms))]).
        destruct (last (m0 :: ms)) as [[lastMessage|]|].
        2,3: (split; [exact Hnew|]; exists [EvSearch query]; simpl_state;
              repeat split; [now repeat constructor | cbn; lia]).
        destruct (Z.of_nat (length (m0 :: ms)) <? FETCH_LIMIT).
        { split; [exact Hnew|]. exists [EvSearch query]. simpl_state.
          repeat split; [now repeat constructor | cbn; lia]. }
        match goal with |- context [fetchPages n _ _ _ ?o ?acc ?s] =>
          destruct (IH o acc s Hnew) as (Hval & evs & Hlog & Hcalls & Hcount) end.
        split; [exact Hval|].
        exists ([EvSearch query; EvSleep BATCH_DELAY] ++ evs).
        split; [rewrite Hlog; simpl_state; now rewrite <- !app_assoc|].
        split; [apply Forall_app; split; [now repeat constructor | exact Hcalls]|].
        rewrite List.filter_app, length_app. cbn. lia.
Qed.

Lemma fetchMessagesFromChat_spec chat uid hash (st : State W) :
  let res := fetchMessagesFromChat chat uid hash st in
  (exists messages,
     res.1 = Returned messages /\ Forall (ownDeletable uid) messages)
  /\ exists evs,
       log res.2 = log st ++ evs
       /\ Forall (fetchCall chat uid hash) evs
       /\ (length (List.filter isSearch evs) <= 20)%nat.
Proof.
  cbn zeta. unfold fetchMessagesFromChat. rewrite run_bind.
  destruct (fetchPages_spec 20 chat uid hash 0 [] st (List.Forall_nil _))
    as (Hval & evs & Hlog & Hcalls & Hcount).
  destruct (fetchPages 20 chat uid hash 0 [] st) as [[messages [message|]] st1].
  - cbn [fst snd] in *. rewrite run_bind, handleFloodWait_zero. cbn [fst snd].
    split; [now exists messages|].
    eexists (evs ++ [EvSleep _]). simpl_state.
    split; [now rewrite Hlog, app_assoc|].
    split; [apply Forall_app; split; [exact Hcalls | now repeat constructor]|].
    rewrite List.filter_app, length_app. cbn. lia.
  - cbn [fst snd] in *. split; [now exists messages|].
    exists evs. now repeat split.
Qed.

Lemma nextOffset_no_failure uid reply next thrown :
  nextOffset uid reply = Some next -> failureOf uid reply thrown = None.
Proof.
  destruct reply as [|[|m0 ms]]; cbn [nextOffset failureOf]; [discriminate | |].
  - destruct (validMessages [] uid); discriminate.
  - destruct (validMessages (m0 :: ms) uid); [|discriminate].
    destruct (last (m0 :: ms)) as [[lastMessage|]|]; try discriminate. reflexivity.
Qed.

Lemma validMessages_nil uid : validMessages [] uid = Some [].
Proof. now destruct uid. Qed.

(** The paging loop, reply by reply. *)
Lemma fetchPages_trace pagesLeft chat uid hash offsetId messages (st : State W) :
  let res := fetchPages pagesLeft chat uid hash offsetId messages st in
  exists replies,
    (length replies <= pagesLeft)%nat
    /\ (1 <= pagesLeft -> 1 <= length replies)%nat
    /\ Answered chat uid hash offsetId (world st) replies (world res.2)
    /\ (length replies = pagesLeft
        \/ exists reply, last replies = Some reply /\ nextOffset uid reply = None)
    /\ res.1.1 = messages ++ flat_map (keptOf uid) replies
    /\ res.1.2 = lastFailure uid replies (errorMessage (world res.2))
    /\ log res.2 = log st ++ pageCalls chat uid hash offsetId replies
    /\ ticks res.2 = ticks st
    /\ processedMessages res.2 = processedMessages st
    /\ sentNotificationMessages res.2 = sentNotificationMessages st.
Proof.
  cbn zeta. revert offsetId messages st.
  induction pagesLeft as [|n IH]; intros offsetId messages st.
  - exists []. cbn. rewrite !app_nil_r. repeat split; try lia.
  - cbn [fetchPages]. cbn zeta. unfold thrownMessage. unfold_M.
    match goal with |- context [searchMessages ?q (world st)] =>
      change q with (pageRequest chat uid hash offsetId) end.
    destruct (searchMessages (pageRequest chat uid hash offsetId) (world st))
      as [reply w1] eqn:Eq.
    assert (Hstop : forall acc kept failure,
      nextOffset uid reply = None ->
      keptOf uid reply = kept ->
      failureOf uid reply (errorMessage w1) = failure ->
      acc = messages ++ kept ->
      exists replies,
        (length replies <= S n)%nat
        /\ (1 <= S n -> 1 <= length replies)%nat
        /\ Answered chat uid hash offsetId (world st) replies w1
        /\ (length replies = S n
            \/ exists reply, last replies = Some reply /\ nextOffset uid reply = None)
        /\ acc = messages ++ flat_map (keptOf uid) replies
        /\ failure = lastFailure uid replies (errorMessage w1)
        /\ log st ++ [EvSearch (pageRequest chat uid hash offsetId)]
           = log st ++ pageCalls chat uid hash offsetId replies
        /\ ticks st = ticks st
        /\ processedMessages st = processedMessages st
        /\ sentNotificationMessages st = sentNotificationMessages st).
    { intros acc kept failure Hnext Hkept Hfail ->. exists [reply].
      unfold lastFailure. cbn [length Answered flat_map pageCalls last].
      rewrite Eq, Hnext, Hkept, Hfail, app_nil_r. cbn [fst snd].
      repeat split; try lia. right. now exists reply. }
    destruct reply as [|batch]; simpl_state.
    { apply (Hstop messages [] (Some (errorMessage w1)));
        [reflexivity | reflexivity | reflexivity | now rewrite app_nil_r]. }
    destruct batch as [|m0 ms]; simpl_state.
    { apply (Hstop messages [] None); cbn [nextOffset keptOf failureOf];
        rewrite ?validMessages_nil, ?app_nil_r; reflexivity. }
    destruct (validMessages (m0 :: ms) uid) as [valid|] eqn:Ev; simpl_state.
    2:{ apply (Hstop messages [] (Some (Some undefinedToStringError)));
          cbn [nextOffset keptOf failureOf]; rewrite ?Ev, ?app_nil_r; reflexivity. }
    destruct (last (m0 :: ms)) as [[lastMessage|]|] eqn:El; simpl_state.
    2,3: (apply (Hstop (messages ++ valid) valid (Some (Some nullIdError)));
          cbn [nextOffset keptOf failureOf]; rewrite ?Ev, ?El; reflexivity).
    destruct (Z.of_nat (length (m0 :: ms)) <? FETCH_LIMIT) eqn:Efull; simpl_state.
    { apply (Hstop (messages ++ valid) valid None);
        cbn [nextOffset keptOf failureOf]; rewrite ?Ev, ?El, ?Efull; reflexivity. }
    clear Hstop.
    assert (Hnext : nextOffset uid (Returned (m0 :: ms)) = Some (msg_id lastMessage))
      by (cbn [nextOffset]; now rewrite Ev, El, Efull).
    assert (Hkept : keptOf uid (Returned (m0 :: ms)) = valid)
      by (cbn [keptOf]; now rewrite Ev).
    match goal with |- context [fetchPages n _ _ _ ?o ?acc ?s] =>
      destruct (IH o acc s)
        as (replies & Hlen & Hlen1 & Hans & Hend & Hmsgs & Hfail & Hlog & Ht & Hp & Hs)
    end.
    simpl_state.
    exists (Returned (m0 :: ms) :: replies).
    cbn [length Answered flat_map pageCalls]. rewrite Eq, Hnext, Hkept. cbn [fst snd].
    split; [lia|]. split; [lia|]. split; [split; [reflexivity | exact Hans]|].
    split.
    { destruct Hend as [Hend | (reply & Hlast & Hnone)]; [left; lia|].
      right. exists reply. split; [|exact Hnone].
      destruct replies as [|r0 rs]; [discriminate Hlast|].
      now rewrite last_cons_cons. }
    split; [now rewrite Hmsgs, app_assoc|].
    split.
    { rewrite Hfail. unfold lastFailure.
      destruct replies as [|r0 rs].
      - cbn [last]. symmetry. eapply nextOffset_no_failure. exact Hnext.
      - now rewrite last_cons_cons. }
    split; [rewrite Hlog, <- !app_assoc; reflexivity|].
    now repeat split.
Qed.

(** The whole function, reply by reply. *)
Lemma fetchMessagesFromChat_trace chat uid hash (st : State W) :
  let res := fetchMessagesFromChat chat uid hash st in
  exists replies,
    (1 <= length replies <= 20)%nat
    /\ Answered chat uid hash 0 (world st) replies (world res.2)
    /\ (length replies = 20%nat
        \/ exists reply, last replies = Some reply /\ nextOffset uid reply = None)
    /\ res.1 = Returned (flat_map (keptOf uid) replies)
    /\ log res.2
       = log st ++ pageCalls chat uid hash 0 replies
           ++ finalPause uid replies (errorMessage (world res.2))
    /\ ticks res.2 = ticks st
    /\ processedMessages res.2 = processedMessages st
    /\ sentNotificationMessages res.2 = sentNotificationMessages st.
Proof.
  cbn zeta. unfold fetchMessagesFromChat. rewrite run_bind.
  destruct (fetchPages_trace 20 chat uid hash 0 [] st)
    as (replies & Hlen & Hlen1 & Hans & Hend & Hmsgs & Hfail & Hlog & Ht & Hp & Hs).
  exists replies. unfold finalPause.
  destruct (fetchPages 20 chat uid hash 0 [] st) as [[messages failure] st1].
  cbn [fst snd app] in *. subst messages.
  destruct failure as [message|].
  - rewrite run_bind, handleFloodWait_zero. cbn [fst snd]. unfold_M.
    rewrite <- Hfail. unfold failurePause.
    split; [lia|]. split; [exact Hans|]. split; [exact Hend|].
    split; [reflexivity|]. split; [now rewrite Hlog, <- app_assoc|].
    now repeat split.
  - unfold_M. rewrite <- Hfail, app_nil_r.
    split; [lia|]. split; [exact Hans|]. split; [exact Hend|].
    now repeat split.
Qed.

Lemma pageCalls_searches chat uid hash offsetId replies :
  (length (List.filter isSearch (pageCalls chat uid hash offsetId replies))
   <= length replies)%nat.
Proof.
  revert offsetId. induction replies as [|reply rest IH]; intros offsetId;
    cbn [pageCalls List.filter isSearch length]; [lia|].
  destruct (nextOffset uid reply) as [next|]; cbn [List.filter isSearch length];
    [specialize (IH next)|]; lia.
Qed.

End PurgeFetch.

(** X26: [fetchMessagesFromChat] never throws, and what it returns and
    does is told by the replies to its requests.  It asks for the pages
    one after the other, the first from offset 0 and each later one from
    the id of the last message of the page before, 100 per page, at least
    one and at most 20, pausing [BATCH_DELAY] after every full page; it
    stops at the first reply that is not a full page in order (an error,
    an empty or a short page, a page whose filter throws or whose last
    message is missing), or after 20 pages.  It returns the messages kept
    from all the pages it got, in order: when a request fails (also with a
    flood wait) these are the messages of the pages before it.  After an
    error it pauses once (the seconds of the flood wait, or one second)
    and makes no further request, so the failed page is not asked for
    again; without an error there is no such pause.  Every message it
    returns has an id other than 0, is from the current user and is
    deletable; nothing else is called, no clock is read and neither map
    is written. *)
Theorem fetch_returns_what_it_has (W : Type) `{Client W} `{Session W} (chat : Chat)
    (currentUserId : option Z) (currentUserAccessHash : Z) (st : State W) :
  let res := fetchMessagesFromChat chat currentUserId currentUserAccessHash st in
  exists replies,
    (1 <= length replies <= 20)%nat
    /\ Answered chat currentUserId currentUserAccessHash 0 (world st) replies
         (world res.2)
    /\ (length replies = 20%nat
        \/ exists reply, last replies = Some reply
             /\ nextOffset currentUserId reply = None)
    /\ res.1 = Returned (flat_map (keptOf currentUserId) replies)
    /\ Forall (ownDeletable currentUserId) (flat_map (keptOf currentUserId) replies)
    /\ log res.2
       = log st ++ pageCalls chat currentUserId currentUserAccessHash 0 replies
           ++ finalPause currentUserId replies (errorMessage (world res.2))
    /\ (length (List.filter isSearch
                  (pageCalls chat currentUserId currentUserAccessHash 0 replies
                     ++ finalPause currentUserId replies
                          (errorMessage (world res.2))))
        <= length replies)%nat
    /\ ticks res.2 = ticks st
    /\ processedMessages res.2 = processedMessages st
    /\ sentNotificationMessages res.2 = sentNotificationMessages st.
Proof.
  cbn zeta.
  destruct (fetchMessagesFromChat_trace chat currentUserId currentUserAccessHash st)
    as (replies & Hlen & Hans & Hend & Hres & Hlog & Hrest).
  destruct (fetchMessagesFromChat_spec chat currentUserId currentUserAccessHash st)
    as ((messages & Hm & Hown) & _).
  exists replies. split; [exact Hlen|]. split; [exact Hans|]. split; [exact Hend|].
  split; [exact Hres|]. split; [congruence|]. split; [exact Hlog|].
  split; [|exact Hrest].
  rewrite List.filter_app, length_app.
  pose proof (pageCalls_searches chat currentUserId currentUserAccessHash 0 replies).
  unfold finalPause. destruct (lastFailure _ _ _); cbn; lia.
Qed.

(** X26 at work: the first page is full, the request for the second fails
    with a flood wait of 30 seconds.  The 100 messages of the first page
    are returned; the second page, from the id 101, is asked for once; the
    pauses are the one between pages and the one of the flood wait. *)
Lemma paging_stops_at_flood_wait :
  let res := @fetchMessagesFromChat nat pagedClient floodSession someChat
               (Some 42) 1 (initialState 0%nat) in
  res.1 = Returned (omap id fullPage)
  /\ log res.2 = [EvSearch (pageRequest someChat (Some 42) 1 0);
                  EvSleep 1000;
                  EvSearch (pageRequest someChat (Some 42) 1 101);
                  EvSleep 30000]
  /\ world res.2 = 2%nat.
Proof. vm_compute. repeat split; reflexivity. Qed.

Section PurgeBatches.
Context {W : Type} `{Client W} `{Session W}.

Lemma deleteBatchesFrom_calls fuel chat ids tb i n :
  preserves (emits (chatDeleteCall chat ids BATCH_SIZE))
    (deleteBatchesFrom fuel chat ids tb i n).
Proof.
  revert i n. induction fuel as [|fuel IH]; intros i n; cbn [deleteBatchesFrom];
    [emits_with idtac|].
  destruct (i <? length ids)%nat; [|emits_with idtac].
  apply preserves_bind; [typeclasses eauto | |].
  - apply emits_call. cbn. split; [reflexivity|]. split.
    + intros x Hx. now apply (drop_subseteq i), (take_subseteq BATCH_SIZE).
    + rewrite length_take. unfold BATCH_SIZE. lia.
  - intros ok. destruct ok.
    + apply preserves_bind; [typeclasses eauto | | intros _; apply IH].
      destruct (_ && _); [now apply emits_sleep | emits_with idtac].
    + apply preserves_bind; [typeclasses eauto | apply emits_thrownMessage |].
      intros message.
      apply preserves_bind;
        [typeclasses eauto | now apply handleFloodWait_calls |].
      intros retry. destruct retry; apply IH.
Qed.

(** One iteration of the loop on a batch. *)
Lemma deleteBatchesFrom_step fuel chat ids tb i n (st : State W) :
  (i < length ids)%nat ->
  exists st',
    deleteBatchesFrom (S fuel) chat ids tb i n st
    = if (deleteMessages chat (take BATCH_SIZE (drop i ids)) (world st)).1
      then deleteBatchesFrom fuel chat ids tb (i + BATCH_SIZE)
             (n + Z.of_nat (length (take BATCH_SIZE (drop i ids)))) st'
      else deleteBatchesFrom fuel chat ids tb i n st'.
Proof.
  intros Hi. cbn [deleteBatchesFrom].
  replace (i <? length ids)%nat with true by (symmetry; apply Nat.ltb_lt; lia).
  rewrite run_bind. unfold call at 1 2.
  destruct (deleteMessages chat _ (world st)) as [[|] w']; cbn [fst snd].
  - rewrite run_bind. eexists. reflexivity.
  - rewrite run_bind. unfold thrownMessage at 1 2. cbn [fst snd].
    rewrite run_bind, handleFloodWait_zero. cbn [fst snd].
    eexists. reflexivity.
Qed.

Lemma deleteBatchesFrom_result fuel chat ids tb i n (st : State W) :
  let r := (deleteBatchesFrom fuel chat ids tb i n st).1 in
  r = None \/ r = Some (n + Z.of_nat (length ids - i)).
Proof.
  cbn zeta. revert i n st. induction fuel as [|fuel IH]; intros i n st;
    [now left|].
  destruct (Nat.ltb_spec i (length ids)) as [Hi|Hi].
  - destruct (deleteBatchesFrom_step fuel chat ids tb i n st Hi) as [st' ->].
    destruct (deleteMessages chat _ (world st)).1; [|apply IH].
    destruct (IH (i + BATCH_SIZE)%nat
                (n + Z.of_nat (length (take BATCH_SIZE (drop i ids)))) st')
      as [-> | ->]; [now left | right].
    f_equal. rewrite length_take, length_drop. unfold BATCH_SIZE. lia.
  - right. cbn [deleteBatchesFrom].
    replace (i <? length ids)%nat with false by (symmetry; apply Nat.ltb_ge; lia).
    cbn. f_equal. lia.
Qed.

Lemma deleteBatchesFrom_ends fuel chat ids tb i n (st : State W) :
  (forall c l w, (deleteMessages c l w).1 = true) ->
  (length ids - i < fuel)%nat ->
  (deleteBatchesFrom fuel chat ids tb i n st).1
  = Some (n + Z.of_nat (length ids - i)).
Proof.
  intros Hok. revert i n st. induction fuel as [|fuel IH]; intros i n st Hfuel;
    [lia|].
  destruct (Nat.ltb_spec i (length ids)) as [Hi|Hi].
  - destruct (deleteBatchesFrom_step fuel chat ids tb i n st Hi) as [st' ->].
    rewrite Hok, IH by (unfold BATCH_SIZE; lia).
    f_equal. rewrite length_take, length_drop. unfold BATCH_SIZE. lia.
  - cbn [deleteBatchesFrom].
    replace (i <? length ids)%nat with false by (symmetry; apply Nat.ltb_ge; lia).
    cbn. f_equal. lia.
Qed.

Lemma deleteBatchesFrom_loops fuel chat ids tb i n (st : State W) :
  (forall c l w, (deleteMessages c l w).1 = false) ->
  (i < length ids)%nat ->
  (deleteBatchesFrom fuel chat ids tb i n st).1 = None.
Proof.
  intros Hfail Hi. revert st. induction fuel as [|fuel IH]; intros st;
    [reflexivity|].
  destruct (deleteBatchesFrom_step fuel chat ids tb i n st Hi) as [st' ->].
  rewrite Hfail. apply IH.
Qed.

Lemma deleteMessagesInBatches_calls fuel chat ids :
  preserves (emits (chatDeleteCall chat ids BATCH_SIZE))
    (deleteMessagesInBatches fuel chat ids).
Proof.
  unfold deleteMessagesInBatches. destruct ids as [|id ids];
    [emits_with idtac | apply deleteBatchesFrom_calls].
Qed.

End PurgeBatches.

(** X27: [deleteMessagesInBatches] never skips a batch.  Every call it
    makes is a pause or a deletion, in the chat, of at most 100 of the ids
    it was given; and if it ends, every batch was deleted: its count is the
    number of ids.  (The branch that skips a failed batch is never taken,
    since [handleFloodWait] is called without [retries].) *)
Theorem purge_batches_all_or_running (W : Type) `{Client W} `{Session W}
    (fuel : nat) (chat : Chat) (messageIds : list Z) (st : State W) :
  let res := deleteMessagesInBatches fuel chat messageIds st in
  emits (chatDeleteCall chat messageIds BATCH_SIZE) st res.2
  /\ (res.1 = None \/ res.1 = Some (Z.of_nat (length messageIds))).
Proof.
  cbn zeta. split; [apply deleteMessagesInBatches_calls|].
  unfold deleteMessagesInBatches.
  destruct messageIds as [|id ids]; [now right|].
  destruct (deleteBatchesFrom_result fuel chat (id :: ids)
              ((Z.of_nat (length (id :: ids)) + Z.of_nat BATCH_SIZE - 1)
               / Z.of_nat BATCH_SIZE) 0 0 st) as [Hr | Hr]; [now left | right].
  rewrite Hr. f_equal; lia.
Qed.

(** X28: when every deletion resolves, [deleteMessagesInBatches] ends, in
    no more iterations than there are ids, and its count is the number of
    ids. *)
Theorem purge_batches_end (W : Type) `{Client W} `{Session W}
    (fuel : nat) (chat : Chat) (messageIds : list Z) (st : State W) :
  (forall c l w, (deleteMessages c l w).1 = true) ->
  (length messageIds < fuel)%nat ->
  (deleteMessagesInBatches fuel chat messageIds st).1
  = Some (Z.of_nat (length messageIds)).
Proof.
  intros Hok Hfuel. unfold deleteMessagesInBatches.
  destruct messageIds as [|id ids]; [reflexivity|].
  rewrite deleteBatchesFrom_ends by (assumption || lia). f_equal; lia.
Qed.

(** X28 on three ids. *)
Lemma purge_batches_end_witness :
  (@deleteMessagesInBatches unit
     (testClient (fun _ => true) [] (fun n => Z.of_nat n)) (testSession None)
     4 someChat [1; 2; 3] (initialState tt)).1
  = Some 3.
Proof.
  apply (@purge_batches_end unit
           (testClient (fun _ => true) [] (fun n => Z.of_nat n)) (testSession None)
           4 someChat [1; 2; 3] (initialState tt)).
  - reflexivity.
  - cbn. lia.
Defined.

(** X29: when every deletion throws, [deleteMessagesInBatches] on a
    non-empty list never ends: whatever the number of iterations allowed,
    it is still trying the first batch again. *)
Theorem purge_batches_never_end (W : Type) `{Client W} `{Session W}
    (chat : Chat) (messageIds : list Z) (st : State W) (fuel : nat) :
  (forall c l w, (deleteMessages c l w).1 = false) ->
  messageIds <> [] ->
  (deleteMessagesInBatches fuel chat messageIds st).1 = None.
Proof.
  intros Hfail Hne. unfold deleteMessagesInBatches.
  destruct messageIds as [|id ids]; [contradiction|].
  apply deleteBatchesFrom_loops; [exact Hfail | cbn; lia].
Qed.

(** X29 on one id, for 1000 iterations. *)
Lemma purge_batches_never_end_witness :
  (@deleteMessagesInBatches unit
     (testClient (fun _ => false) [] (fun n => Z.of_nat n)) (testSession None)
     1000 someChat [1] (initialState tt)).1
  = None.
Proof.
  apply (@purge_batches_never_end unit
           (testClient (fun _ => false) [] (fun n => Z.of_nat n)) (testSession None)
           someChat [1] (initialState tt) 1000).
  - reflexivity.
  - discriminate.
Defined.

Section PurgeRun.
Context {W : Type} `{Client W} `{Session W}.

Lemma fetchMessagesFromChat_calls chat uid hash :
  preserves (emits (fetchCall chat uid hash)) (fetchMessagesFromChat chat uid hash).
Proof.
  intros st. destruct (fetchMessagesFromChat_spec chat uid hash st)
    as (_ & evs & Hlog & Hcalls & _).
  now exists evs.
Qed.

Lemma processChat_calls fuel chat uid hash index total nm mon limited :
  keepDialog nm mon limited chat = true ->
  preserves (emits (purgeCall nm mon limited))
    (processChat fuel chat uid hash index total).
Proof.
  intros Hkeep. unfold processChat.
  apply preserves_bind; [typeclasses eauto | |].
  - eapply emits_weaken; [|apply fetchMessagesFromChat_calls].
    intros [] He; cbn in *; try tauto. destruct He as (-> & _). exact Hkeep.
  - intros r. destruct r as [|[|m ms]]; try solve [emits_with idtac].
    apply preserves_bind; [typeclasses eauto | |].
    + eapply emits_weaken; [|apply deleteMessagesInBatches_calls].
      intros [] He; cbn in *; try tauto. destruct He as (-> & _ & Hlen).
      split; [exact Hkeep | exact Hlen].
    + intros d. emits_with ltac:(exact I).
Qed.

Lemma processChats_calls fuel chats uid hash index total results nm mon limited :
  Forall (fun chat => keepDialog nm mon limited chat = true) chats ->
  preserves (emits (purgeCall nm mon limited))
    (processChats fuel chats uid hash index total results).
Proof.
  intros Hall. revert index results.
  induction Hall as [|chat chats Hc _ IH]; intros index results;
    cbn [processChats]; [emits_with idtac|].
  apply preserves_bind; [typeclasses eauto | now apply processChat_calls |].
  intros r. destruct r; [apply IH | emits_with idtac].
Qed.

Lemma filterDialogs_kept nm mon limited dialogs chats :
  filterDialogs nm mon limited dialogs = Returned chats ->
  Forall (fun chat => keepDialog nm mon limited chat = true) chats.
Proof.
  unfold filterDialogs. destruct (forallb _ dialogs); [|discriminate].
  intros [= <-]. apply Forall_forall. intros chat Hin.
  now apply list_elem_of_filter in Hin as [Hk _].
Qed.

End PurgeRun.

(** X30: a run of [deleteAllHistory] searches and deletes only in chats
    that its dialog filter keeps: never a user, never a broadcast channel,
    never a chat whose id is on the exclusion list, and in limited mode
    only chats whose id is on the monitor list; it deletes at most 100 ids
    per call. *)
Theorem purge_only_selected_chats (W : Type) `{Client W} `{Session W} (fuel : nat)
    (MONITOR_CHAT_IDS NOT_MONITOR_CHAT_IDS DELETE_HISTORY_MODE : option jsstring)
    (st : State W) :
  let nm := parseChatIds NOT_MONITOR_CHAT_IDS false in
  let mon := parseChatIds MONITOR_CHAT_IDS true in
  let limited := limitedMode MONITOR_CHAT_IDS DELETE_HISTORY_MODE in
  emits (purgeCall nm mon limited) st
    (deleteAllHistory fuel MONITOR_CHAT_IDS NOT_MONITOR_CHAT_IDS
       DELETE_HISTORY_MODE st).2
  /\ (forall chat,
        keepDialog nm mon limited chat
        = negb (isMember (numToString (chat_id chat)) nm)
          && shouldProcessChat chat
          && (negb limited || isMember (numToString (chat_id chat)) mon)).
Proof.
  intros nm mon limited. split.
  - revert st.
    change (preserves (emits (purgeCall nm mon limited))
              (deleteAllHistory fuel MONITOR_CHAT_IDS NOT_MONITOR_CHAT_IDS
                 DELETE_HISTORY_MODE)).
    subst nm mon limited. unfold deleteAllHistory, limitedMode. cbn zeta.
    set (nm := parseChatIds NOT_MONITOR_CHAT_IDS false).
    set (mon := parseChatIds MONITOR_CHAT_IDS true).
    set (limited := match DELETE_HISTORY_MODE with Some _ => _ | None => _ end).
    apply preserves_bind; [typeclasses eauto | apply emits_perform | intros started].
    apply preserves_bind; [typeclasses eauto | | intros r; emits_with idtac].
    destruct started; [|emits_with idtac].
    apply preserves_bind; [typeclasses eauto | now apply emits_call | intros me].
    destruct me as [|me]; [emits_with idtac|].
    apply preserves_bind; [typeclasses eauto | now apply emits_call | intros dialogs].
    destruct dialogs as [|dialogs]; [emits_with idtac|].
    destruct (filterDialogs nm mon limited dialogs) as [|chats] eqn:Ef;
      [emits_with idtac|].
    apply filterDialogs_kept in Ef.
    destruct chats as [|c cs]; [emits_with idtac|].
    destruct me as [me|]; [|emits_with idtac].
    now apply processChats_calls.
  - intros chat. unfold keepDialog. cbn zeta.
    destruct (isMember _ nm); [reflexivity|].
    destruct (shouldProcessChat chat); [|reflexivity]. cbn [negb andb].
    now destruct limited, (isMember _ mon).
Qed.
